(** * MediaSearch: ingest, orchestration, triage and search, embedded in Rocq

    A shallow embedding of the TypeScript services of the MediaSearch
    repository together with the local adapters they are wired to
    (PostgreSQL for the [DatabasePort], Redis/BullMQ for the [QueuePort])
    and the search methods of the VAST DataBase adapter.  The services are
    modelled as the local backend wires them: [createAdapters] gives them
    the PostgreSQL and BullMQ adapters unless [BACKEND] is [vast].

    Conventions of the embedding.
    - JavaScript [number]s that hold counters, sizes and timestamps are [Z];
      the scores of the search functions and the delay before [Math.floor]
      are exact rationals [Q]. Where a function computes with fractions and
      its property would depend on the rounding of IEEE doubles
      ([createSentenceSegments], [cosineSimilarity]), the numbers and
      their operations are parameters, and only what holds for every
      arithmetic is stated.
    - JavaScript strings are [string]; [charCodeAt] is the character code
      of the Rocq character (code units 0..255).
    - [Promise]-returning methods are computations of the monad [M]: they
      read and update an explicit [World] and either return or throw.
      State written before a throw stays written.
    - Rows of a table are a list in insertion order; SQL [UPDATE ... WHERE]
      is a [map] over the rows, and [ORDER BY] keeps rows of equal key in
      table order.
    - A status written to [media_assets.status] is checked against the
      values of the SQL type [asset_status] of the migration, as PostgreSQL
      checks it; the other columns are typed by the TypeScript types.
    - A BullMQ queue holds at most one job per job id: [Queue.add] with an
      id that is already present adds nothing.
    - [Date.now], [randomUUID] and [Math.random] read fields of the
      [World]; a failing awaited call is a counter in the [World] that
      makes one [io] step throw. *)

From Stdlib Require Import String Ascii List ZArith QArith Lia Bool.
From Stdlib Require Import Qminmax Qround Qpower Lqa DecimalString.
From Stdlib Require Import Permutation Sorted DecimalZ FinFun.
Import ListNotations.
Open Scope string_scope.
Open Scope Z_scope.

Set Implicit Arguments.

(* ===================================================================== *)
(** * JavaScript string helpers *)
(* ===================================================================== *)

Module JS.

(** [String.prototype.toLowerCase] and [toUpperCase], on the ASCII letters.
    The results are only ever compared with, or searched for, words of
    ASCII letters (file extensions, words of an error message, engine
    names). Among the code units 0..255 the only other character whose
    lower or upper case contains an ASCII letter is the sharp s (upper
    case [SS]), and no engine name contains [SS]: leaving the characters
    outside ASCII as they are gives the same answers. *)
Definition lower_ascii (c : ascii) : ascii :=
  let n := nat_of_ascii c in
  if andb (Nat.leb 65 n) (Nat.leb n 90) then ascii_of_nat (n + 32) else c.

Definition upper_ascii (c : ascii) : ascii :=
  let n := nat_of_ascii c in
  if andb (Nat.leb 97 n) (Nat.leb n 122) then ascii_of_nat (n - 32) else c.

Fixpoint map_string (f : ascii -> ascii) (s : string) : string :=
  match s with
  | EmptyString => EmptyString
  | String c t => String (f c) (map_string f t)
  end.

Definition toLowerCase : string -> string := map_string lower_ascii.
Definition toUpperCase : string -> string := map_string upper_ascii.

(** [hay.includes(needle)]. *)
Fixpoint includes (hay needle : string) : bool :=
  if String.prefix needle hay then true
  else match hay with
       | EmptyString => false
       | String _ t => includes t needle
       end.

(** [s.split(sep)] for a one-character separator; never the empty list. *)
Fixpoint split (sep : ascii) (s : string) : list string :=
  match s with
  | EmptyString => [EmptyString]
  | String c t =>
      if Ascii.eqb c sep then EmptyString :: split sep t
      else match split sep t with
           | h :: r => String c h :: r
           | [] => [String c EmptyString]
           end
  end.

(** [arr.pop()] read as "the last element, if any". *)
Definition pop (l : list string) : option string :=
  match rev l with
  | [] => None
  | x :: _ => Some x
  end.

(** The string contains the character. *)
Fixpoint has_char (c : ascii) (s : string) : bool :=
  match s with
  | EmptyString => false
  | String c' t => Ascii.eqb c' c || has_char c t
  end.

(** Truthiness of a string: the empty string is falsy. *)
Definition truthy (s : string) : bool :=
  match s with EmptyString => false | _ => true end.

(** Template-literal rendering of an integer-valued number. *)
Definition num (z : Z) : string := NilZero.string_of_int (Z.to_int z).

(** [ToInt32]: wrap an integer to the signed 32-bit range. *)
Definition to_int32 (z : Z) : Z := (z + 2 ^ 31) mod 2 ^ 32 - 2 ^ 31.

(** [x << k] on numbers. *)
Definition shl32 (x k : Z) : Z := to_int32 (Z.shiftl (to_int32 x) k).

(** [x & y] on numbers. *)
Definition and32 (x y : Z) : Z := to_int32 (Z.land (to_int32 x) (to_int32 y)).

Definition digit36 (d : Z) : ascii :=
  if d <? 10 then ascii_of_nat (48 + Z.to_nat d)
  else ascii_of_nat (87 + Z.to_nat d).

Fixpoint toString36_aux (fuel : nat) (n : Z) (acc : string) : string :=
  match fuel with
  | O => acc
  | S f =>
      let acc' := String (digit36 (n mod 36)) acc in
      if n / 36 =? 0 then acc' else toString36_aux f (n / 36) acc'
  end.

(** [n.toString(36)] for a non-negative integer: one round per binary
    digit is more than the radix-36 digits need. *)
Definition toString36 (n : Z) : string :=
  toString36_aux (S (Z.to_nat (Z.log2 n))) n EmptyString.

(** Reading a radix-36 numeral back ([parseInt(s, 36)] on digits), used to
    state that [toString36] loses nothing. *)
Definition digit36_value (c : ascii) : Z :=
  let n := Z.of_nat (nat_of_ascii c) in
  if n <? 58 then n - 48 else n - 87.

Fixpoint parse36_from (v : Z) (s : string) : Z :=
  match s with
  | EmptyString => v
  | String c t => parse36_from (v * 36 + digit36_value c) t
  end.

Definition parse36 (s : string) : Z := parse36_from 0 s.

(** The white space that [trim] removes, among the character codes
    0..255: TAB, LF, VT, FF, CR, space and the no-break space. *)
Definition is_space (c : ascii) : bool :=
  let n := nat_of_ascii c in
  (Nat.leb 9 n && Nat.leb n 13) || Nat.eqb n 32 || Nat.eqb n 160.

Fixpoint trimStart (s : string) : string :=
  match s with
  | EmptyString => EmptyString
  | String c t => if is_space c then trimStart t else s
  end.

Fixpoint trimEnd (s : string) : string :=
  match s with
  | EmptyString => EmptyString
  | String c t =>
      match trimEnd t with
      | EmptyString => if is_space c then EmptyString else String c EmptyString
      | t' => String c t'
      end
  end.

(** [s.trim()]. *)
Definition trim (s : string) : string := trimEnd (trimStart s).

(** [arr.join(sep)]. *)
Fixpoint join (sep : string) (l : list string) : string :=
  match l with
  | [] => EmptyString
  | [x] => x
  | x :: t => x ++ sep ++ join sep t
  end.

(** A string between double quotes, as error messages show a value. *)
Definition quoted (s : string) : string :=
  String (ascii_of_nat 34) (s ++ String (ascii_of_nat 34) EmptyString).

(** [s.length]. *)
Definition strlen (s : string) : Z := Z.of_nat (String.length s).

(** [arr.slice(start, end)] with JavaScript's treatment of negative and
    out-of-range indices. *)
Definition rel_index (len i : Z) : Z :=
  if i <? 0 then Z.max (len + i) 0 else Z.min i len.

Definition slice {A : Type} (start stop : Z) (l : list A) : list A :=
  let len := Z.of_nat (length l) in
  let k := rel_index len start in
  let e := rel_index len stop in
  firstn (Z.to_nat (e - k)) (skipn (Z.to_nat k) l).

End JS.

(* ===================================================================== *)
(** * Domain enumerations (types/enums.ts) *)
(* ===================================================================== *)

Module AssetStatus.
Inductive t :=
| INGESTED | TRANSCRIBING | TRANSCRIBED | INDEXED | INDEX_PARTIAL
| DELETED | QUARANTINED | SKIPPED | PENDING_RETRY | FAILED
| BUILDING | READY_TO_PUBLISH | PUBLISHED | ARCHIVED.
Definition eq_dec : forall x y : t, {x = y} + {x <> y}.
Proof. decide equality. Defined.
Definition eqb (x y : t) : bool := if eq_dec x y then true else false.
(** The string value of the enum member. *)
Definition to_string (x : t) : string :=
  match x with
  | INGESTED => "INGESTED" | TRANSCRIBING => "TRANSCRIBING"
  | TRANSCRIBED => "TRANSCRIBED" | INDEXED => "INDEXED"
  | INDEX_PARTIAL => "INDEX_PARTIAL" | DELETED => "DELETED"
  | QUARANTINED => "QUARANTINED" | SKIPPED => "SKIPPED"
  | PENDING_RETRY => "PENDING_RETRY" | FAILED => "FAILED"
  | BUILDING => "BUILDING" | READY_TO_PUBLISH => "READY_TO_PUBLISH"
  | PUBLISHED => "PUBLISHED" | ARCHIVED => "ARCHIVED"
  end.
End AssetStatus.

Module Visibility.
Inductive t := STAGING | ACTIVE | ARCHIVED | SOFT_DELETED.
Definition eq_dec : forall x y : t, {x = y} + {x <> y}.
Proof. decide equality. Defined.
Definition eqb (x y : t) : bool := if eq_dec x y then true else false.
End Visibility.

Module TriageState.
Inductive t := NEEDS_MEDIA_FIX | NEEDS_ENGINE_TUNING | QUARANTINED.
End TriageState.

(** A string enum; the services also store strings cast to it
    ([engineOverride.toUpperCase() as ASREngine]), so it is kept as the
    string it is at run time. *)
Module ASREngine.
Definition t := string.
Definition NVIDIA_NIMS : t := "nvidia_nims".
Definition WHISPER : t := "whisper".
Definition BYO : t := "byo".
Definition STUB : t := "stub".
End ASREngine.

Module ChunkingStrategy.
Inductive t := SENTENCE | FIXED_WINDOW.
End ChunkingStrategy.

Module ExecutionMode.
Inductive t := CPU | GPU.
End ExecutionMode.

Module MatchType.
Inductive t := keyword | semantic | hybrid.
End MatchType.

(* ===================================================================== *)
(** * Domain entities (types/entities.ts) *)
(* ===================================================================== *)

Record MediaAsset := mkAsset {
  asset_id : string;
  lineage_id : string;
  bucket : string;
  object_key : string;
  current_version_id : option string;
  status : AssetStatus.t;
  triage_state : option TriageState.t;
  recommended_action : option string;
  transcription_engine : ASREngine.t;
  last_error : option string;
  attempt : Z;
  ingest_time : Z;
  updated_at : Z;
  file_size : Z;
  content_type : string;
  etag : string;
  tombstone : bool;
  codec_info : option string;
  duration_ms : option Z
}.

Record AssetVersion := mkVersion {
  v_version_id : string;
  v_asset_id : string;
  v_status : AssetStatus.t;
  v_publish_state : Visibility.t;
  v_created_at : Z;
  v_etag : string;
  v_file_size : Z
}.

Record TranscriptSegment := mkSegment {
  s_segment_id : string;
  s_asset_id : string;
  s_version_id : string;
  s_start_ms : Z;
  s_end_ms : Z;
  s_text : string;
  s_speaker : option string;
  s_confidence : Q;
  s_visibility : Visibility.t;
  s_chunking_strategy : ChunkingStrategy.t;
  s_created_at : Z
}.

Record TranscriptEmbedding := mkEmbedding {
  e_embedding_id : string;
  e_asset_id : string;
  e_version_id : string;
  e_segment_id : string;
  e_embedding : list Q;
  e_model : string;
  e_dimension : Z;
  e_visibility : Visibility.t;
  e_created_at : Z
}.

Record EnginePolicy := mkPolicy {
  engine : ASREngine.t;
  diarization_enabled : bool;
  execution_mode : ExecutionMode.t;
  compute_threshold_seconds : Z;
  force_chunking_strategy : option ChunkingStrategy.t
}.

Definition DEFAULT_ENGINE_POLICY : EnginePolicy :=
  {| engine := ASREngine.NVIDIA_NIMS;
     diarization_enabled := true;
     execution_mode := ExecutionMode.GPU;
     compute_threshold_seconds := 300;
     force_chunking_strategy := None |}.

Record TranscriptionJob := mkJob {
  job_id : string;
  j_asset_id : string;
  j_version_id : string;
  engine_policy : EnginePolicy;
  j_attempt : Z;
  idempotency_key : string;
  enqueued_at : Z;
  scheduled_at : Z
}.

Record ObjectMetadata := mkMeta {
  m_etag : string;
  m_size : Z;
  m_contentType : string;
  m_lastModified : Z
}.

(* ===================================================================== *)
(** * storage.port.ts: version ids and supported formats *)
(* ===================================================================== *)

(** One round of the loop of [computeVersionId]:
    [hash = ((hash << 5) - hash) + char; hash = hash & hash]. *)
Definition hash_step (hash : Z) (c : ascii) : Z :=
  let h1 := (JS.shl32 hash 5 - hash) + Z.of_nat (nat_of_ascii c) in
  JS.and32 h1 h1.

Fixpoint hash_loop (data : string) (hash : Z) : Z :=
  match data with
  | EmptyString => hash
  | String c t => hash_loop t (hash_step hash c)
  end.

(** [computeVersionId(etag, size, mtime)]. The source reads the wall clock
    through [Date.now()]; the reading is the argument [now]. *)
Definition computeVersionId (etag : string) (size : Z) (mtime : Z) (now : Z)
  : string :=
  let data := etag ++ ":" ++ JS.num size ++ ":" ++ JS.num mtime in
  let hash := hash_loop data 0 in
  "v_" ++ JS.toString36 (Z.abs hash) ++ "_" ++ JS.toString36 now.

Definition SUPPORTED_AUDIO_FORMATS : list string := ["wav"; "mp3"; "aac"; "flac"].
Definition SUPPORTED_VIDEO_FORMATS : list string := ["mp4"; "mov"; "mxf"].
Definition SUPPORTED_FORMATS : list string :=
  SUPPORTED_AUDIO_FORMATS ++ SUPPORTED_VIDEO_FORMATS.

Definition array_includes (l : list string) (x : string) : bool :=
  existsb (String.eqb x) l.

(** [isSupportedMediaFormat(filename)]. *)
Definition isSupportedMediaFormat (filename : string) : bool :=
  match JS.pop (JS.split "." filename) with
  | Some e =>
      let ext := JS.toLowerCase e in
      if JS.truthy ext then array_includes SUPPORTED_FORMATS ext else false
  | None => false
  end.

(** [MAX_RETRY_ATTEMPTS]. *)
Definition MAX_RETRY_ATTEMPTS : Z := 5.

(** [calculateBackoffDelay(attempt, baseDelayMs, maxDelayMs)]; [random] is
    the value returned by [Math.random()]. *)
Definition calculateBackoffDelay_with
  (attempt : Z) (baseDelayMs maxDelayMs : Z) (random : Q) : Z :=
  let exponentialDelay := (inject_Z baseDelayMs * Qpower 2 attempt)%Q in
  let cappedDelay := Qmin exponentialDelay (inject_Z maxDelayMs) in
  let jitter := (cappedDelay * (1 # 4) * (random * 2 - 1))%Q in
  Qfloor (cappedDelay + jitter).

(** The call with the default parameters (1000 ms, 300000 ms). *)
Definition calculateBackoffDelay (attempt : Z) (random : Q) : Z :=
  calculateBackoffDelay_with attempt 1000 300000 random.

(* ===================================================================== *)
(** * The world the services run in *)
(* ===================================================================== *)

(** The tables of the PostgreSQL schema that the modelled operations read
    or write (db/migrations/001_initial_schema.sql). *)
Record Db := mkDb {
  media_assets : list MediaAsset;
  asset_versions : list AssetVersion;
  transcript_segments : list TranscriptSegment;
  transcript_embeddings : list TranscriptEmbedding
}.

(** A job held by a BullMQ queue: the custom [jobId], the job name, the
    payload, the [delay] option (0 when absent) and, for dead-letter
    entries, the error message and the time of the move. *)
Record BullJob := mkBull {
  b_id : string;
  b_name : string;
  b_data : TranscriptionJob;
  b_delay : Z;
  b_error_message : option string;
  b_moved_to_dlq_at : option Z
}.

(** The two BullMQ queues of [LocalQueueAdapter]. *)
Record Redis := mkRedis {
  queue : list BullJob;
  dlqQueue : list BullJob
}.

(** Counters kept by the services ([this.stats]). *)
Record Stats := mkStats {
  objectsCreated : Z;
  objectsRemoved : Z;
  jobsEnqueued : Z;
  jobsFailed : Z;
  jobsRetried : Z;
  jobsDLQ : Z;
  retriedCount : Z
}.

Record World := mkWorld {
  db : Db;
  redis : Redis;
  (** the object store: metadata per (bucket, key) *)
  objects : list (string * string * ObjectMetadata);
  (** [process.env.ASR_ENGINE], [process.env.BACKEND] *)
  env_ASR_ENGINE : option string;
  env_BACKEND : option string;
  (** what [Date.now()] returns *)
  clock : Z;
  (** the supply behind [randomUUID()] *)
  uuid_next : nat;
  (** what [Math.random()] returns *)
  random : Q;
  (** fault injection: [Some n] when the awaited I/O call after the next
      [n] ones fails (once); [None] when no call fails *)
  io_fault : option nat;
  stats : Stats
}.

Definition with_db (f : Db -> Db) (w : World) : World :=
  mkWorld (f (db w)) (redis w) (objects w) (env_ASR_ENGINE w) (env_BACKEND w)
          (clock w) (uuid_next w) (random w) (io_fault w) (stats w).

Definition with_redis (f : Redis -> Redis) (w : World) : World :=
  mkWorld (db w) (f (redis w)) (objects w) (env_ASR_ENGINE w) (env_BACKEND w)
          (clock w) (uuid_next w) (random w) (io_fault w) (stats w).

Definition with_uuid_next (n : nat) (w : World) : World :=
  mkWorld (db w) (redis w) (objects w) (env_ASR_ENGINE w) (env_BACKEND w)
          (clock w) n (random w) (io_fault w) (stats w).

Definition with_io_fault (b : option nat) (w : World) : World :=
  mkWorld (db w) (redis w) (objects w) (env_ASR_ENGINE w) (env_BACKEND w)
          (clock w) (uuid_next w) (random w) b (stats w).

Definition with_clock (t : Z) (w : World) : World :=
  mkWorld (db w) (redis w) (objects w) (env_ASR_ENGINE w) (env_BACKEND w)
          t (uuid_next w) (random w) (io_fault w) (stats w).

Definition with_stats (f : Stats -> Stats) (w : World) : World :=
  mkWorld (db w) (redis w) (objects w) (env_ASR_ENGINE w) (env_BACKEND w)
          (clock w) (uuid_next w) (random w) (io_fault w) (f (stats w)).

Definition with_assets (f : list MediaAsset -> list MediaAsset) (d : Db) : Db :=
  mkDb (f (media_assets d)) (asset_versions d) (transcript_segments d)
       (transcript_embeddings d).

Definition with_versions (f : list AssetVersion -> list AssetVersion) (d : Db) : Db :=
  mkDb (media_assets d) (f (asset_versions d)) (transcript_segments d)
       (transcript_embeddings d).

Definition with_segments
  (f : list TranscriptSegment -> list TranscriptSegment) (d : Db) : Db :=
  mkDb (media_assets d) (asset_versions d) (f (transcript_segments d))
       (transcript_embeddings d).

Definition with_embeddings
  (f : list TranscriptEmbedding -> list TranscriptEmbedding) (d : Db) : Db :=
  mkDb (media_assets d) (asset_versions d) (transcript_segments d)
       (f (transcript_embeddings d)).

Definition with_queue (f : list BullJob -> list BullJob) (r : Redis) : Redis :=
  mkRedis (f (queue r)) (dlqQueue r).

Definition with_dlqQueue (f : list BullJob -> list BullJob) (r : Redis) : Redis :=
  mkRedis (queue r) (f (dlqQueue r)).

(* ===================================================================== *)
(** * The monad of asynchronous methods *)
(* ===================================================================== *)

Inductive Outcome (A : Type) : Type :=
| Ok (a : A)
| Throw (msg : string).
Arguments Ok {A} a.
Arguments Throw {A} msg.

Definition M (A : Type) : Type := World -> Outcome A * World.

Definition ret {A : Type} (a : A) : M A := fun w => (Ok a, w).

Definition bind {A B : Type} (m : M A) (k : A -> M B) : M B :=
  fun w =>
    match m w with
    | (Ok a, w') => k a w'
    | (Throw e, w') => (Throw e, w')
    end.

Definition throw {A : Type} (msg : string) : M A := fun w => (Throw msg, w).

(** [try { m } catch (e) { h e }]. *)
Definition try_catch {A : Type} (m : M A) (h : string -> M A) : M A :=
  fun w =>
    match m w with
    | (Ok a, w') => (Ok a, w')
    | (Throw e, w') => h e w'
    end.

Definition get : M World := fun w => (Ok w, w).
Definition modify (f : World -> World) : M unit := fun w => (Ok tt, f w).

Declare Scope js_scope.
Delimit Scope js_scope with js.
Notation "x <- m ;; k" := (bind m (fun x => k))
  (at level 61, m at next level, right associativity) : js_scope.
Notation "m ;; k" := (bind m (fun _ => k))
  (at level 61, right associativity) : js_scope.
Open Scope js_scope.

(** One awaited call to the infrastructure (a SQL statement, a Redis
    command, an object-store request). It throws when the injected fault
    is due; the fault is transient, later calls succeed. *)
Definition io : M unit :=
  fun w =>
    match io_fault w with
    | None => (Ok tt, w)
    | Some O => (Throw "connection unavailable", with_io_fault None w)
    | Some (S n) => (Ok tt, with_io_fault (Some n) w)
    end.

(** [randomUUID()]. *)
Definition randomUUID : M string :=
  fun w =>
    (Ok ("uuid-" ++ JS.num (Z.of_nat (uuid_next w))),
     with_uuid_next (S (uuid_next w)) w).

(** [Date.now()]. *)
Definition Date_now : M Z := fun w => (Ok (clock w), w).

(** [Math.random()]. *)
Definition Math_random : M Q := fun w => (Ok (random w), w).

(** Stable sort by descending score, the order that
    [arr.sort((a, b) => b.score - a.score)] produces. *)
Section SortDesc.
Variable A : Type.
Variable score : A -> Q.

Fixpoint insert_desc (x : A) (l : list A) : list A :=
  match l with
  | [] => [x]
  | y :: t =>
      if Qle_bool (score y) (score x) then x :: y :: t
      else y :: insert_desc x t
  end.

Fixpoint sort_desc (l : list A) : list A :=
  match l with
  | [] => []
  | x :: t => insert_desc x (sort_desc t)
  end.
End SortDesc.

(** Functions that the repository uses but does not define: PostgreSQL
    full-text search, the cosine distance of the vector engines and the
    square root of the JavaScript runtime. *)
Record Engine := mkEngine {
  ts_match : string -> string -> bool;     (* to_tsvector(text) @@ plainto_tsquery(q) *)
  ts_rank : string -> string -> Q;         (* ts_rank(to_tsvector(text), plainto_tsquery(q)) *)
  ts_headline : string -> string -> string;
  cosine_distance : list Q -> list Q -> Q; (* <=>, array_cosine_distance *)
  sqrt : Q -> Q                            (* Math.sqrt *)
}.

(** [SearchQuery] and [SearchHit] of types/entities.ts. *)
Record SearchQuery := mkQuery {
  q_query : string;
  q_bucket : option string;
  q_speaker : option string;
  q_limit : Z;
  q_offset : Z
}.

Record SearchHit := mkHit {
  h_asset_id : string;
  h_start_ms : Z;
  h_end_ms : Z;
  h_snippet : string;
  h_score : Q;
  h_speaker : option string;
  h_bucket : string;
  h_object_key : string
}.

(** The options object of [updateAssetStatus]: a field is absent
    ([None]), [null] ([Some None]) or a value. *)
Record StatusOptions := mkOpts {
  o_triageState : option (option TriageState.t);
  o_lastError : option (option string);
  o_attempt : option Z;
  o_recommendedAction : option (option string)
}.

Definition no_options : StatusOptions := mkOpts None None None None.

Definition opt_string_eqb (a : option string) (b : string) : bool :=
  match a with Some x => String.eqb x b | None => false end.

(** A JavaScript [Map<string, V>]: entries in insertion order; [set] on an
    existing key replaces the value where it stands. *)
Section JsMap.
Variable V : Type.

Fixpoint map_get (k : string) (m : list (string * V)) : option V :=
  match m with
  | [] => None
  | (k', v) :: t => if String.eqb k' k then Some v else map_get k t
  end.

Fixpoint map_set (k : string) (v : V) (m : list (string * V))
  : list (string * V) :=
  match m with
  | [] => [(k, v)]
  | (k', v') :: t =>
      if String.eqb k' k then (k', v) :: t else (k', v') :: map_set k v t
  end.

(** Mutation of the object stored under [k] (the map holds a reference). *)
Fixpoint map_update (k : string) (f : V -> V) (m : list (string * V))
  : list (string * V) :=
  match m with
  | [] => []
  | (k', v') :: t =>
      if String.eqb k' k then (k', f v') :: t
      else (k', v') :: map_update k f t
  end.

Definition map_values (m : list (string * V)) : list V := map snd m.
End JsMap.

(* ===================================================================== *)
(** * asr.port.ts: re-segmentation of the ASR output *)
(* ===================================================================== *)

Module Asr.

(** [ASRSegment]. [N] is the type of the two times: whole milliseconds
    ([Z]) as the engines report them, or the numbers of the runtime where
    [createSentenceSegments] computes with fractions of a millisecond. *)
Record ASRSegment (N : Type) := mkASRSegment {
  start_ms : N;
  end_ms : N;
  text : string;
  speaker : option string;
  confidence : Q
}.

(** [ASRResult]; [error_message] is [error?.message]. *)
Record ASRResult := mkASRResult {
  success : bool;
  error_message : option string;
  segments : list (ASRSegment Z);
  duration_ms : Z;
  engine : ASREngine.t
}.

(** [FIXED_WINDOW_DURATION_MS]. *)
Definition FIXED_WINDOW_DURATION_MS : Z := 5000.

(** The filter of a window: [s.end_ms > windowStart && s.start_ms < windowEnd]. *)
Definition overlaps (windowStart windowEnd : Z) (s : ASRSegment Z) : bool :=
  (windowStart <? end_ms s) && (start_ms s <? windowEnd).

(** [windowSegments.map((s) => s.speaker).filter(Boolean)]: [null] and the
    empty string are dropped. *)
Definition named_speakers (l : list (ASRSegment Z)) : list string :=
  flat_map (fun s => match speaker s with
                     | Some x => if JS.truthy x then [x] else []
                     | None => []
                     end) l.

(** [speakers.filter((s) => s === a).length]. *)
Definition count_of (speakers : list string) (a : string) : Z :=
  Z.of_nat (length (filter (fun s => String.eqb s a) speakers)).

(** [arr.sort((a, b) => key(a) - key(b))]: ascending, and stable as
    [Array.prototype.sort] is. The comparator of the source counts in the
    array being sorted; the counts are those of its elements, whatever
    their order. *)
Section SortAsc.
Variable A : Type.
Variable key : A -> Z.

Fixpoint insert_asc (x : A) (l : list A) : list A :=
  match l with
  | [] => [x]
  | y :: t => if key x <=? key y then x :: y :: t else y :: insert_asc x t
  end.

Fixpoint sort_asc (l : list A) : list A :=
  match l with
  | [] => []
  | x :: t => insert_asc x (sort_asc t)
  end.
End SortAsc.

(** [speakers.length > 0 ? speakers.sort(...).pop() ?? null : null]. *)
Definition most_common_speaker (speakers : list string) : option string :=
  match speakers with
  | [] => None
  | _ => JS.pop (sort_asc (count_of speakers) speakers)
  end.

(** [windowSegments.reduce((sum, s) => sum + s.confidence, 0) / windowSegments.length]. *)
Definition avg_confidence (l : list (ASRSegment Z)) : Q :=
  (fold_left (fun sum s => sum + confidence s) l 0
   / inject_Z (Z.of_nat (length l)))%Q.

(** One round of the loop: the segment pushed for the window, or nothing
    ([continue]) when no input segment overlaps it. *)
Definition window_segment (segments : list (ASRSegment Z))
  (windowStart windowEnd : Z) : option (ASRSegment Z) :=
  let windowSegments := filter (overlaps windowStart windowEnd) segments in
  match windowSegments with
  | [] => None
  | _ =>
      Some (mkASRSegment windowStart windowEnd
              (JS.trim (JS.join " " (map (@text Z) windowSegments)))
              (most_common_speaker (named_speakers windowSegments))
              (avg_confidence windowSegments))
  end.

(** [for (let windowStart = ...; windowStart < endTime;
    windowStart += windowDurationMs)], with one unit of [fuel] per round;
    [None] when the rounds given do not end the loop. *)
Fixpoint window_loop (fuel : nat) (segments : list (ASRSegment Z))
  (windowDurationMs endTime windowStart : Z)
  : option (list (ASRSegment Z)) :=
  if windowStart <? endTime then
    match fuel with
    | O => None
    | S f =>
        match window_loop f segments windowDurationMs endTime
                (windowStart + windowDurationMs) with
        | None => None
        | Some rest =>
            Some (match window_segment segments windowStart
                          (Z.min (windowStart + windowDurationMs) endTime) with
                  | Some r => r :: rest
                  | None => rest
                  end)
        end
    end
  else Some [].

(** [createFixedWindowSegments(segments, windowDurationMs)]. A window of
    one millisecond or more ends the loop within [endTime - startTime]
    rounds; [None] stands for a call that does not return. *)
Definition createFixedWindowSegments (segments : list (ASRSegment Z))
  (windowDurationMs : Z) : option (list (ASRSegment Z)) :=
  match segments with
  | [] => Some []
  | first :: _ =>
      let startTime := start_ms first in
      let endTime := end_ms (last segments first) in
      window_loop (Z.to_nat (endTime - startTime)) segments windowDurationMs
                  endTime startTime
  end.

(** A character of the class [[.!?]]. *)
Definition is_terminator (c : ascii) : bool :=
  Ascii.eqb c "." || Ascii.eqb c "!" || Ascii.eqb c "?".

(** [text.match(/[^.!?]+[.!?]+/g)], read in one pass. [body] is the run of
    other characters collected since the last match and [terms] the
    terminators collected after it. A terminator with no body before it
    cannot start a match and is skipped; a body is matched, greedily, with
    all the terminators that follow it; a body that reaches the end of
    the text without a terminator gives no match. *)
Fixpoint match_sentences (s : string) (body terms : string) : list string :=
  match s with
  | EmptyString =>
      if JS.truthy terms then [body ++ terms] else []
  | String c t =>
      if is_terminator c then
        if JS.truthy body
        then match_sentences t body (terms ++ String c EmptyString)
        else match_sentences t EmptyString EmptyString
      else
        if JS.truthy terms
        then (body ++ terms) :: match_sentences t (String c EmptyString) EmptyString
        else match_sentences t (body ++ String c EmptyString) EmptyString
  end.

(** [text.match(...) || [text]]. *)
Definition sentences_of (text : string) : list string :=
  match match_sentences text EmptyString EmptyString with
  | [] => [text]
  | l => l
  end.

(** [segments[0]?.start_ms ?? 0] and
    [segments[segments.length - 1]?.end_ms ?? 0], in whole milliseconds. *)
Definition first_start (segments : list (ASRSegment Z)) : Z :=
  match segments with
  | s :: _ => start_ms s
  | [] => 0
  end.

Definition last_end (segments : list (ASRSegment Z)) : Z :=
  match segments with
  | s :: _ => end_ms (last segments s)
  | [] => 0
  end.

(** [createSentenceSegments] multiplies a duration by a ratio of string
    lengths. Its numbers are a parameter [num], with the operations the
    function applies to them; [of_int] reads an integer-valued number (a
    string length, the literal 0). *)
Section SentenceSegments.
Variable num : Type.
Variable of_int : Z -> num.
Variables add sub mul div : num -> num -> num.

(** [segments[0]?.start_ms ?? 0]. *)
Definition start_or_zero (segments : list (ASRSegment num)) : num :=
  match segments with
  | s :: _ => start_ms s
  | [] => of_int 0
  end.

(** [segments[segments.length - 1]?.end_ms ?? 0]. *)
Definition end_or_zero (segments : list (ASRSegment num)) : num :=
  match segments with
  | s :: _ => end_ms (last segments s)
  | [] => of_int 0
  end.

(** [segments[0]?.confidence ?? 0.9]. *)
Definition confidence_or_default (segments : list (ASRSegment num)) : Q :=
  match segments with
  | s :: _ => confidence s
  | [] => 9 # 10
  end.

(** The loop of [createSentenceSegments]; [currentTime] is the variable of
    that name. *)
Fixpoint sentence_loop (sentences : list string) (text : string)
  (segments : list (ASRSegment num)) (currentTime : num)
  : list (ASRSegment num) :=
  match sentences with
  | [] => []
  | sentence :: rest =>
      let trimmed := JS.trim sentence in
      if negb (JS.truthy trimmed)
      then sentence_loop rest text segments currentTime
      else
        let textRatio :=
          div (of_int (JS.strlen trimmed)) (of_int (JS.strlen text)) in
        let totalDuration :=
          sub (end_or_zero segments) (start_or_zero segments) in
        let segmentDuration := mul totalDuration textRatio in
        mkASRSegment currentTime (add currentTime segmentDuration) trimmed
                     None (confidence_or_default segments)
        :: sentence_loop rest text segments (add currentTime segmentDuration)
  end.

(** [createSentenceSegments(segments, text)]. *)
Definition createSentenceSegments (segments : list (ASRSegment num))
  (text : string) : list (ASRSegment num) :=
  sentence_loop (sentences_of text) text segments (start_or_zero segments).
End SentenceSegments.

End Asr.

(* ===================================================================== *)
(** * embedding.port.ts: vector helpers *)
(* ===================================================================== *)

(** The numbers of the vectors are a parameter [num], with the operations
    [cosineSimilarity] applies to them: [zero] is the literal 0, [is_zero]
    the test [x === 0]. *)
Module Embedding.

(** [DEFAULT_EMBEDDING_DIMENSION], [MAX_BATCH_SIZE]. *)
Definition DEFAULT_EMBEDDING_DIMENSION : Z := 384.
Definition MAX_BATCH_SIZE : Z := 100.

Section VectorArith.
Variable num : Type.
Variable zero : num.
Variables add mul div : num -> num -> num.
Variable sqrt : num -> num.
Variable is_zero : num -> bool.

(** One round of the loop of [cosineSimilarity] on
    [(dotProduct, magnitudeA, magnitudeB)]. *)
Definition cosine_step (acc : num * num * num) (ab : num * num)
  : num * num * num :=
  let '(dotProduct, magnitudeA, magnitudeB) := acc in
  let '(x, y) := ab in
  (add dotProduct (mul x y), add magnitudeA (mul x x),
   add magnitudeB (mul y y)).

(** [cosineSimilarity(a, b)]. *)
Definition cosineSimilarity (a b : list num) : Outcome num :=
  if negb (Nat.eqb (length a) (length b))
  then Throw "Vectors must have the same dimension"
  else
    let '(dotProduct, sumA, sumB) :=
      fold_left cosine_step (combine a b) (zero, zero, zero) in
    let magnitudeA := sqrt sumA in
    let magnitudeB := sqrt sumB in
    if is_zero magnitudeA || is_zero magnitudeB then Ok zero
    else Ok (div dotProduct (mul magnitudeA magnitudeB)).
End VectorArith.

End Embedding.

(* ===================================================================== *)
(** * PostgresDatabaseAdapter (the local [DatabasePort]) *)
(* ===================================================================== *)

(** Every method of the adapter sends its statement with
    [this.pool.query], that is on a pooled connection in autocommit mode:
    the statement takes effect when the call returns. *)
Module Postgres.

(** The handle returned by [beginTransaction]: a client checked out of the
    pool on which [BEGIN] was issued. No method of the adapter sends a
    statement on this client, so its transaction stays empty: [COMMIT] and
    [ROLLBACK] on it leave the tables as they are. *)
Record Transaction := mkTx { tx_begun_at : Z }.

Definition beginTransaction : M Transaction :=
  io ;;                       (* pool.connect() *)
  io ;;                       (* client.query('BEGIN') *)
  w <- get ;;
  ret (mkTx (clock w)).

(** [tx.execute(fn)]. *)
Definition execute {A : Type} (tx : Transaction) (fn : M A) : M A :=
  try_catch
    (result <- fn ;;
     io ;;                    (* client.query('COMMIT') *)
     ret result)
    (fun error =>
       io ;;                  (* client.query('ROLLBACK') *)
       throw error).

Definition getAsset (assetId : string) : M (option MediaAsset) :=
  io ;;
  w <- get ;;
  ret (find (fun a => String.eqb (asset_id a) assetId) (media_assets (db w))).

Definition getAssetByKey (bkt key : string) : M (option MediaAsset) :=
  io ;;
  w <- get ;;
  ret (find (fun a => andb (String.eqb (bucket a) bkt)
                           (String.eqb (object_key a) key))
            (media_assets (db w))).

(** The row after [ON CONFLICT (bucket, object_key) DO UPDATE SET ...]:
    the listed columns come from the proposed row, the key columns and
    [ingest_time] stay; the update trigger stamps [updated_at]. *)
Definition on_conflict_update (now : Z) (old new : MediaAsset) : MediaAsset :=
  mkAsset (asset_id old) (lineage_id old) (bucket old) (object_key old)
          (current_version_id new) (status new) (triage_state new)
          (recommended_action new) (transcription_engine new)
          (last_error new) (attempt new) (ingest_time old) now
          (file_size new) (content_type new) (etag new) (tombstone new)
          (codec_info new) (duration_ms new).

Definition stamp_inserted (now : Z) (a : MediaAsset) : MediaAsset :=
  mkAsset (asset_id a) (lineage_id a) (bucket a) (object_key a)
          (current_version_id a) (status a) (triage_state a)
          (recommended_action a) (transcription_engine a)
          (last_error a) (attempt a) (ingest_time a) now
          (file_size a) (content_type a) (etag a) (tombstone a)
          (codec_info a) (duration_ms a).

Definition same_key (a b : MediaAsset) : bool :=
  andb (String.eqb (bucket a) (bucket b))
       (String.eqb (object_key a) (object_key b)).

Definition upsertAsset (a : MediaAsset) : M MediaAsset :=
  io ;;
  w <- get ;;
  let rows := media_assets (db w) in
  match find (same_key a) rows with
  | Some old =>
      let row := on_conflict_update (clock w) old a in
      modify (with_db (with_assets
        (map (fun r => if same_key a r then row else r)))) ;;
      ret row
  | None =>
      if existsb (fun r => String.eqb (asset_id r) (asset_id a)) rows
      then throw "duplicate key value violates unique constraint media_assets_pkey"
      else
        let row := stamp_inserted (clock w) a in
        modify (with_db (with_assets (fun l => (l ++ [row])%list))) ;;
        ret row
  end.

Definition or_keep {A : Type} (o : option A) (old : A) : A :=
  match o with Some x => x | None => old end.

(** The row after the [UPDATE] built by [updateAssetStatus]: a column is
    assigned when the option is not [undefined]. *)
Definition apply_status (st : AssetStatus.t) (o : StatusOptions) (now : Z)
  (a : MediaAsset) : MediaAsset :=
  mkAsset (asset_id a) (lineage_id a) (bucket a) (object_key a)
          (current_version_id a) st
          (or_keep (o_triageState o) (triage_state a))
          (or_keep (o_recommendedAction o) (recommended_action a))
          (transcription_engine a)
          (or_keep (o_lastError o) (last_error a))
          (or_keep (o_attempt o) (attempt a))
          (ingest_time a) now
          (file_size a) (content_type a) (etag a) (tombstone a)
          (codec_info a) (duration_ms a).

Definition update_where {A : Type} (p : A -> bool) (f : A -> A)
  (rows : list A) : list A :=
  map (fun r => if p r then f r else r) rows.

(** The values of the SQL type [asset_status] (migration 001), the type
    of the column [media_assets.status]. *)
Definition asset_status_values : list string :=
  ["INGESTED"; "TRANSCRIBING"; "TRANSCRIBED"; "INDEXED"; "INDEX_PARTIAL";
   "DELETED"; "QUARANTINED"; "SKIPPED"; "ERROR_RETRYABLE";
   "EMBEDDING_RETRYABLE"; "BUILDING"; "READY_TO_PUBLISH"; "PUBLISHED";
   "ARCHIVED"].

(** The server's check of a value bound to a column of that type: a text
    that is not one of the values of the type is an error, whether or not
    the statement would change a row. *)
Definition check_asset_status (st : AssetStatus.t) : M unit :=
  if array_includes asset_status_values (AssetStatus.to_string st)
  then ret tt
  else throw ("invalid input value for enum asset_status: "
              ++ JS.quoted (AssetStatus.to_string st)).

Definition updateAssetStatus (assetId : string) (st : AssetStatus.t)
  (o : StatusOptions) : M unit :=
  io ;;
  check_asset_status st ;;
  w <- get ;;
  modify (with_db (with_assets
    (update_where (fun a => String.eqb (asset_id a) assetId)
                  (apply_status st o (clock w))))).

Definition tombstone_row (now : Z) (a : MediaAsset) : MediaAsset :=
  mkAsset (asset_id a) (lineage_id a) (bucket a) (object_key a)
          None AssetStatus.DELETED (triage_state a)
          (recommended_action a) (transcription_engine a)
          (last_error a) (attempt a) (ingest_time a) now
          (file_size a) (content_type a) (etag a) true
          (codec_info a) (duration_ms a).

Definition tombstoneAsset (assetId : string) : M unit :=
  io ;;
  w <- get ;;
  modify (with_db (with_assets
    (update_where (fun a => String.eqb (asset_id a) assetId)
                  (tombstone_row (clock w))))).

Definition set_current_row (v : string) (now : Z) (a : MediaAsset)
  : MediaAsset :=
  mkAsset (asset_id a) (lineage_id a) (bucket a) (object_key a)
          (Some v) (status a) (triage_state a)
          (recommended_action a) (transcription_engine a)
          (last_error a) (attempt a) (ingest_time a) now
          (file_size a) (content_type a) (etag a) (tombstone a)
          (codec_info a) (duration_ms a).

Definition setCurrentVersion (assetId versionId : string) : M unit :=
  io ;;
  w <- get ;;
  modify (with_db (with_assets
    (update_where (fun a => String.eqb (asset_id a) assetId)
                  (set_current_row versionId (clock w))))).

(** [INSERT INTO asset_versions]: [version_id] is the primary key and
    [asset_id] references [media_assets]. *)
Definition createVersion (v : AssetVersion) : M AssetVersion :=
  io ;;
  w <- get ;;
  if existsb (fun r => String.eqb (v_version_id r) (v_version_id v))
             (asset_versions (db w))
  then throw "duplicate key value violates unique constraint asset_versions_pkey"
  else if negb (existsb (fun a => String.eqb (asset_id a) (v_asset_id v))
                        (media_assets (db w)))
  then throw "insert on asset_versions violates foreign key constraint"
  else
    modify (with_db (with_versions (fun l => (l ++ [v])%list))) ;;
    ret v.

Definition getVersion (versionId : string) : M (option AssetVersion) :=
  io ;;
  w <- get ;;
  ret (find (fun r => String.eqb (v_version_id r) versionId)
            (asset_versions (db w))).

Definition set_segment_visibility (vis : Visibility.t) (s : TranscriptSegment)
  : TranscriptSegment :=
  mkSegment (s_segment_id s) (s_asset_id s) (s_version_id s) (s_start_ms s)
            (s_end_ms s) (s_text s) (s_speaker s) (s_confidence s) vis
            (s_chunking_strategy s) (s_created_at s).

Definition set_embedding_visibility (vis : Visibility.t)
  (e : TranscriptEmbedding) : TranscriptEmbedding :=
  mkEmbedding (e_embedding_id e) (e_asset_id e) (e_version_id e)
              (e_segment_id e) (e_embedding e) (e_model e) (e_dimension e)
              vis (e_created_at e).

Definition updateSegmentVisibility (assetId versionId : string)
  (vis : Visibility.t) : M unit :=
  io ;;
  modify (with_db (with_segments
    (update_where (fun s => andb (String.eqb (s_asset_id s) assetId)
                                 (String.eqb (s_version_id s) versionId))
                  (set_segment_visibility vis)))).

Definition softDeleteSegments (assetId : string) : M unit :=
  io ;;
  modify (with_db (with_segments
    (update_where (fun s => String.eqb (s_asset_id s) assetId)
                  (set_segment_visibility Visibility.SOFT_DELETED)))).

Definition updateEmbeddingVisibility (assetId versionId : string)
  (vis : Visibility.t) : M unit :=
  io ;;
  modify (with_db (with_embeddings
    (update_where (fun e => andb (String.eqb (e_asset_id e) assetId)
                                 (String.eqb (e_version_id e) versionId))
                  (set_embedding_visibility vis)))).

Definition softDeleteEmbeddings (assetId : string) : M unit :=
  io ;;
  modify (with_db (with_embeddings
    (update_where (fun e => String.eqb (e_asset_id e) assetId)
                  (set_embedding_visibility Visibility.SOFT_DELETED)))).

End Postgres.

(* ===================================================================== *)
(** * Search on PostgreSQL: the SQL functions and the adapter methods *)
(* ===================================================================== *)

Module PgSearch.

(** [x || null] on an optional string parameter. *)
Definition or_null (o : option string) : option string :=
  match o with
  | Some s => if JS.truthy s then Some s else None
  | None => None
  end.

(** [filter IS NULL OR col = filter]. *)
Definition null_or_eq (filter : option string) (col : string) : bool :=
  match filter with None => true | Some f => String.eqb col f end.

(** The same on a nullable column: [NULL = filter] is not true. *)
Definition null_or_eq_col (filter : option string) (col : option string)
  : bool :=
  match filter with None => true | Some f => opt_string_eqb col f end.

Section WithEngine.
Variable E : Engine.

(** The [WHERE] clause of [search_keyword] on a joined row. *)
Definition keyword_where (query_text : string)
  (bucket_filter speaker_filter : option string)
  (s : TranscriptSegment) (a : MediaAsset) : bool :=
  Visibility.eqb (s_visibility s) Visibility.ACTIVE
  && opt_string_eqb (current_version_id a) (s_version_id s)
  && negb (tombstone a)
  && ts_match E (s_text s) query_text
  && null_or_eq bucket_filter (bucket a)
  && null_or_eq_col speaker_filter (s_speaker s).

Definition keyword_row (query_text : string)
  (s : TranscriptSegment) (a : MediaAsset) : SearchHit :=
  mkHit (s_asset_id s) (s_start_ms s) (s_end_ms s)
        (ts_headline E (s_text s) query_text)
        (ts_rank E (s_text s) query_text)
        (s_speaker s) (bucket a) (object_key a).

(** [transcript_segments s JOIN media_assets a ON s.asset_id = a.asset_id
    WHERE ...], before ordering. *)
Definition keyword_rows (d : Db) (query_text : string)
  (bucket_filter speaker_filter : option string) : list SearchHit :=
  flat_map (fun s =>
    flat_map (fun a =>
      if String.eqb (s_asset_id s) (asset_id a)
         && keyword_where query_text bucket_filter speaker_filter s a
      then [keyword_row query_text s a] else [])
      (media_assets d))
    (transcript_segments d).

(** [ORDER BY score DESC LIMIT l OFFSET o]; rows of equal score are kept
    in join order. *)
Definition limit_offset {A : Type} (l o : Z) (rows : list A) : list A :=
  firstn (Z.to_nat l) (skipn (Z.to_nat o) rows).

Definition search_keyword (d : Db) (query_text : string)
  (result_limit result_offset : Z)
  (bucket_filter speaker_filter : option string) : list SearchHit :=
  limit_offset result_limit result_offset
    (sort_desc h_score
       (keyword_rows d query_text bucket_filter speaker_filter)).

(** The [WHERE] clause of [search_semantic] on a joined row. *)
Definition semantic_where (bucket_filter speaker_filter : option string)
  (e : TranscriptEmbedding) (s : TranscriptSegment) (a : MediaAsset)
  : bool :=
  Visibility.eqb (e_visibility e) Visibility.ACTIVE
  && Visibility.eqb (s_visibility s) Visibility.ACTIVE
  && opt_string_eqb (current_version_id a) (e_version_id e)
  && negb (tombstone a)
  && null_or_eq bucket_filter (bucket a)
  && null_or_eq_col speaker_filter (s_speaker s).

Definition semantic_on (e : TranscriptEmbedding) (s : TranscriptSegment)
  : bool :=
  String.eqb (e_asset_id e) (s_asset_id s)
  && String.eqb (e_version_id e) (s_version_id s)
  && String.eqb (e_segment_id e) (s_segment_id s).

Definition semantic_row (query_embedding : list Q)
  (e : TranscriptEmbedding) (s : TranscriptSegment) (a : MediaAsset)
  : SearchHit :=
  mkHit (e_asset_id e) (s_start_ms s) (s_end_ms s) (s_text s)
        (1 - cosine_distance E (e_embedding e) query_embedding)%Q
        (s_speaker s) (bucket a) (object_key a).

Definition semantic_rows (d : Db) (query_embedding : list Q)
  (bucket_filter speaker_filter : option string) : list SearchHit :=
  flat_map (fun e =>
    flat_map (fun s =>
      flat_map (fun a =>
        if semantic_on e s
           && String.eqb (e_asset_id e) (asset_id a)
           && semantic_where bucket_filter speaker_filter e s a
        then [semantic_row query_embedding e s a] else [])
        (media_assets d))
      (transcript_segments d))
    (transcript_embeddings d).

(** [ORDER BY e.embedding <=> query_embedding]: ascending distance, which
    is descending [1 - distance]. *)
Definition search_semantic (d : Db) (query_embedding : list Q)
  (result_limit result_offset : Z)
  (bucket_filter speaker_filter : option string) : list SearchHit :=
  limit_offset result_limit result_offset
    (sort_desc h_score
       (semantic_rows d query_embedding bucket_filter speaker_filter)).

(** PostgreSQL rejects a negative [LIMIT] or [OFFSET]. *)
Definition check_limit_offset (l o : Z) : M unit :=
  if (l <? 0) || (o <? 0)
  then throw "LIMIT and OFFSET must not be negative"
  else ret tt.

(** [PostgresDatabaseAdapter.searchKeyword]. *)
Definition searchKeyword (q : SearchQuery) : M (list SearchHit) :=
  io ;;
  check_limit_offset (q_limit q) (q_offset q) ;;
  w <- get ;;
  ret (search_keyword (db w) (q_query q) (q_limit q) (q_offset q)
         (or_null (q_bucket q)) (or_null (q_speaker q))).

(** [PostgresDatabaseAdapter.searchSemantic]. *)
Definition searchSemantic (q : SearchQuery) (queryEmbedding : list Q)
  : M (list SearchHit) :=
  io ;;
  check_limit_offset (q_limit q) (q_offset q) ;;
  w <- get ;;
  ret (search_semantic (db w) queryEmbedding (q_limit q) (q_offset q)
         (or_null (q_bucket q)) (or_null (q_speaker q))).

Definition with_limit (l : Z) (q : SearchQuery) : SearchQuery :=
  mkQuery (q_query q) (q_bucket q) (q_speaker q) l (q_offset q).

Definition with_score (sc : Q) (h : SearchHit) : SearchHit :=
  mkHit (h_asset_id h) (h_start_ms h) (h_end_ms h) (h_snippet h) sc
        (h_speaker h) (h_bucket h) (h_object_key h).

(** The key of [scoreMap]: [`${hit.asset_id}:${hit.start_ms}`]. *)
Definition score_key (h : SearchHit) : string :=
  h_asset_id h ++ ":" ++ JS.num (h_start_ms h).

Definition add_keyword_hit (keywordWeight : Q)
  (m : list (string * (SearchHit * Q))) (hit : SearchHit)
  : list (string * (SearchHit * Q)) :=
  map_set (score_key hit) (hit, (h_score hit * keywordWeight)%Q) m.

Definition add_semantic_hit (semanticWeight : Q)
  (m : list (string * (SearchHit * Q))) (hit : SearchHit)
  : list (string * (SearchHit * Q)) :=
  match map_get (score_key hit) m with
  | Some _ =>
      map_update (score_key hit)
        (fun e => (fst e, (snd e + h_score hit * semanticWeight)%Q)) m
  | None => map_set (score_key hit) (hit, (h_score hit * semanticWeight)%Q) m
  end.

(** The merge and re-rank of [searchHybrid], after both result lists
    are in. *)
Definition hybrid_merge (keywordWeight semanticWeight : Q)
  (limit offset : Z) (keywordResults semanticResults : list SearchHit)
  : list SearchHit :=
  let m0 := fold_left (add_keyword_hit keywordWeight) keywordResults [] in
  let m1 := fold_left (add_semantic_hit semanticWeight) semanticResults m0 in
  map (fun e => with_score (snd e) (fst e))
      (JS.slice offset (offset + limit)
         (sort_desc (fun e : SearchHit * Q => snd e) (map_values m1))).

(** [PostgresDatabaseAdapter.searchHybrid]. *)
Definition searchHybrid (q : SearchQuery) (queryEmbedding : list Q)
  (keywordWeight semanticWeight : Q) : M (list SearchHit) :=
  keywordResults <- searchKeyword (with_limit (q_limit q * 2) q) ;;
  semanticResults <-
    searchSemantic (with_limit (q_limit q * 2) q) queryEmbedding ;;
  ret (hybrid_merge keywordWeight semanticWeight (q_limit q) (q_offset q)
         keywordResults semanticResults).
End WithEngine.

End PgSearch.

(* ===================================================================== *)
(** * LocalQueueAdapter (the local [QueuePort], Redis + BullMQ) *)
(* ===================================================================== *)

(** BullMQ keeps one job per job id: [Queue.add] with a [jobId] that the
    queue already holds adds nothing. The adapter is taken as initialised
    ([this.queue] and [this.dlqQueue] are set). *)
Module LocalQueue.

Definition has_job (id : string) (q : list BullJob) : bool :=
  existsb (fun b => String.eqb (b_id b) id) q.

(** [queue.add(name, data, { jobId, delay })]. *)
Definition bull_add (b : BullJob) (q : list BullJob) : list BullJob :=
  if has_job (b_id b) q then q else (q ++ [b])%list.

(** [job.remove()] for the job found by [getJob(id)]. *)
Definition bull_remove (id : string) (q : list BullJob) : list BullJob :=
  filter (fun b => negb (String.eqb (b_id b) id)) q.

Definition enqueueJob (job : TranscriptionJob) : M unit :=
  io ;;
  modify (with_redis (with_queue
    (bull_add (mkBull (job_id job) (job_id job) job 0 None None)))).

Definition enqueueJobWithDelay (job : TranscriptionJob) (delayMs : Z)
  : M unit :=
  io ;;
  modify (with_redis (with_queue
    (bull_add (mkBull (job_id job) (job_id job) job delayMs None None)))).

Definition ackJob (jobId : string) : M unit :=
  io ;;                                        (* queue.getJob *)
  w <- get ;;
  if has_job jobId (queue (redis w)) then
    io ;;                                      (* job.remove *)
    modify (with_redis (with_queue (bull_remove jobId)))
  else ret tt.

Definition moveToDLQ (job : TranscriptionJob) (error_message : string)
  : M unit :=
  io ;;                                        (* dlqQueue.add *)
  w <- get ;;
  modify (with_redis (with_dlqQueue
    (bull_add (mkBull ("dlq_" ++ job_id job) (job_id job) job 0
                      (Some error_message) (Some (clock w)))))) ;;
  io ;;                                        (* queue.getJob *)
  w' <- get ;;
  if has_job (job_id job) (queue (redis w')) then
    io ;;                                      (* bullJob.remove *)
    modify (with_redis (with_queue (bull_remove (job_id job))))
  else ret tt.

End LocalQueue.

(* ===================================================================== *)
(** * VASTDatabaseAdapter: the search methods *)
(* ===================================================================== *)

(** The search methods build SQL text for the sidecar and send it with
    [this.client.executeQuery]; the tables are the same logical tables as
    in the local schema. The methods read [query.text] and [query.limit]
    of the object they are given, as in the adapter's tests. *)
Module VAST.

(** [this.client]. The class declares [config], [rpc] and [connected] and
    its constructor assigns [config] and [rpc]; no statement of the class
    assigns [client], so the property is [undefined] on every instance. *)
Definition this_client : option unit := None.

(** [await this.client.<method>(...)]: reading a property of [undefined]
    throws a [TypeError] before anything is sent. *)
Definition on_client {A : Type} (method : string) (call : M A) : M A :=
  match this_client with
  | Some _ => call
  | None =>
      throw ("Cannot read properties of undefined (reading '"
             ++ method ++ "')")
  end.

Record Query := mkVQuery {
  vq_text : string;
  vq_limit : Z
}.

(** The hit objects built by the adapter. *)
Record Hit := mkVHit {
  segment_id : string;
  vh_asset_id : string;
  vh_version_id : string;
  text : string;
  start_ms : Z;
  end_ms : Z;
  speaker : string;
  confidence : Q;
  score : Q;
  match_type : MatchType.t
}.

(** SQL [text LIKE pattern]: [%] stands for any run of characters, [_] for
    one character. *)
Fixpoint sql_like (pattern s : string) {struct pattern} : bool :=
  match pattern with
  | EmptyString => match s with EmptyString => true | _ => false end
  | String p pt =>
      if Ascii.eqb p "%" then
        (fix skip (s : string) : bool :=
           if sql_like pt s then true
           else match s with
                | EmptyString => false
                | String _ st => skip st
                end) s
      else match s with
           | EmptyString => false
           | String c st =>
               if Ascii.eqb p "_" || Ascii.eqb p c
               then sql_like pt st else false
           end
  end.

(** [query.limit || 100]. *)
Definition limit_or_100 (l : Z) : Z := if l =? 0 then 100 else l.

(** [row.speaker || '']. *)
Definition speaker_or_empty (o : option string) : string :=
  match o with Some s => s | None => "" end.

Definition keyword_hit (row : TranscriptSegment) : Hit :=
  mkVHit (s_segment_id row) (s_asset_id row) (s_version_id row) (s_text row)
         (s_start_ms row) (s_end_ms row) (speaker_or_empty (s_speaker row))
         (s_confidence row) 1 MatchType.keyword.

(** [SELECT * FROM transcript_segments
     WHERE visibility = 'ACTIVE' AND text LIKE '<query.text>'
     ORDER BY created_at DESC LIMIT <limit>]. *)
Definition keyword_sql (d : Db) (q : Query) : list TranscriptSegment :=
  firstn (Z.to_nat (limit_or_100 (vq_limit q)))
    (sort_desc (fun s => inject_Z (s_created_at s))
       (filter (fun s =>
                  Visibility.eqb (s_visibility s) Visibility.ACTIVE
                  && sql_like (vq_text q) (s_text s))
               (transcript_segments d))).

(** What a sidecar would answer: the rows of the statement; the engine
    rejects a negative [LIMIT]. *)
Definition executeQuery {A : Type} (limit : Z) (rows : list A) : M (list A) :=
  io ;;
  if limit <? 0 then throw "LIMIT must not be negative" else ret rows.

Definition searchKeyword (q : Query) : M (list Hit) :=
  try_catch
    (w <- get ;;
     results <- on_client "executeQuery"
                  (executeQuery (limit_or_100 (vq_limit q))
                                (keyword_sql (db w) q)) ;;
     ret (map keyword_hit results))
    (fun msg => throw ("Keyword search failed: " ++ msg)).

Section WithEngine.
Variable E : Engine.

(** [SELECT * FROM transcript_embeddings WHERE visibility = 'ACTIVE'
     ORDER BY array_cosine_distance(embedding, <vector>) LIMIT <limit>]. *)
Definition semantic_sql (d : Db) (q : Query) (queryEmbedding : list Q)
  : list TranscriptEmbedding :=
  firstn (Z.to_nat (limit_or_100 (vq_limit q)))
    (sort_desc (fun e => (- cosine_distance E (e_embedding e) queryEmbedding)%Q)
       (filter (fun e => Visibility.eqb (e_visibility e) Visibility.ACTIVE)
               (transcript_embeddings d))).

(** [getSegmentById]: a failed lookup is swallowed and gives [null]. *)
Definition getSegmentById (segmentId : string)
  : M (option TranscriptSegment) :=
  try_catch
    (on_client "selectById"
       (io ;;
        w <- get ;;
        ret (find (fun s => String.eqb (s_segment_id s) segmentId)
                  (transcript_segments (db w)))))
    (fun _ => ret None).

Fixpoint dot (v1 v2 : list Q) : Q :=
  match v1, v2 with
  | x :: t1, y :: t2 => (x * y + dot t1 t2)%Q
  | _, _ => 0%Q
  end.

Definition calculateCosineSimilarity (vec1 vec2 : list Q) : Q :=
  if negb (Nat.eqb (length vec1) (length vec2)) then 0%Q
  else
    let dotProduct := dot vec1 vec2 in
    let mag1 := dot vec1 vec1 in
    let mag2 := dot vec2 vec2 in
    if Qeq_bool mag1 0 || Qeq_bool mag2 0 then 0%Q
    else (dotProduct / (sqrt E mag1 * sqrt E mag2))%Q.

Definition semantic_hit (queryEmbedding : list Q) (row : TranscriptEmbedding)
  (segmentData : TranscriptSegment) : Hit :=
  mkVHit (e_segment_id row) (e_asset_id row) (e_version_id row)
         (s_text segmentData) (s_start_ms segmentData) (s_end_ms segmentData)
         (speaker_or_empty (s_speaker segmentData))
         (s_confidence segmentData)
         (calculateCosineSimilarity queryEmbedding (e_embedding row))
         MatchType.semantic.

(** The loop that joins each embedding row with its segment. *)
Fixpoint join_segments (queryEmbedding : list Q)
  (rows : list TranscriptEmbedding) : M (list Hit) :=
  match rows with
  | [] => ret []
  | row :: rest =>
      segmentData <- getSegmentById (e_segment_id row) ;;
      hits <- join_segments queryEmbedding rest ;;
      match segmentData with
      | Some sd => ret (semantic_hit queryEmbedding row sd :: hits)
      | None => ret hits
      end
  end.

Definition searchSemantic (q : Query) (queryEmbedding : list Q)
  : M (list Hit) :=
  try_catch
    (match queryEmbedding with
     | [] => throw "Query embedding required for semantic search"
     | _ =>
         w <- get ;;
         results <- on_client "executeQuery"
                      (executeQuery (limit_or_100 (vq_limit q))
                                    (semantic_sql (db w) q queryEmbedding)) ;;
         join_segments queryEmbedding results
     end)
    (fun msg => throw ("Semantic search failed: " ++ msg)).

Definition set_score (sc : Q) (h : Hit) : Hit :=
  mkVHit (segment_id h) (vh_asset_id h) (vh_version_id h) (text h)
         (start_ms h) (end_ms h) (speaker h) (confidence h) sc
         (match_type h).

Definition set_match_type (mt : MatchType.t) (h : Hit) : Hit :=
  mkVHit (segment_id h) (vh_asset_id h) (vh_version_id h) (text h)
         (start_ms h) (end_ms h) (speaker h) (confidence h) (score h) mt.

(** The body of the loop over [keywordHits]. *)
Definition add_keyword_hit (keywordWeight : Q)
  (hitMap : list (string * Hit)) (hit : Hit) : list (string * Hit) :=
  match map_get (segment_id hit) hitMap with
  | Some _ =>
      map_update (segment_id hit)
        (fun existingHit =>
           set_score (score existingHit + keywordWeight)%Q existingHit)
        hitMap
  | None => map_set (segment_id hit) (set_score keywordWeight hit) hitMap
  end.

(** What the loop over [semanticHits] makes of an entry that is already
    in the map ... *)
Definition hybridize (semanticWeight : Q) (hit existingHit : Hit) : Hit :=
  set_match_type MatchType.hybrid
    (set_score (score existingHit + score hit * semanticWeight)%Q existingHit).

(** ... and of a hit whose segment is not in the map yet. *)
Definition semantic_entry (semanticWeight : Q) (hit : Hit) : Hit :=
  set_match_type MatchType.hybrid
    (set_score (score hit * semanticWeight)%Q hit).

(** The body of the loop over [semanticHits]. *)
Definition add_semantic_hit (semanticWeight : Q)
  (hitMap : list (string * Hit)) (hit : Hit) : list (string * Hit) :=
  match map_get (segment_id hit) hitMap with
  | Some _ =>
      map_update (segment_id hit) (hybridize semanticWeight hit) hitMap
  | None =>
      map_set (segment_id hit) (semantic_entry semanticWeight hit) hitMap
  end.

(** [hitMap] after both loops. *)
Definition merge_hits (keywordWeight semanticWeight : Q)
  (keywordHits semanticHits : list Hit) : list (string * Hit) :=
  fold_left (add_semantic_hit semanticWeight) semanticHits
    (fold_left (add_keyword_hit keywordWeight) keywordHits []).

(** Merge, sort by score descending, apply the limit. *)
Definition fuse (keywordWeight semanticWeight : Q) (limit : Z)
  (keywordHits semanticHits : list Hit) : list Hit :=
  JS.slice 0 (limit_or_100 limit)
    (sort_desc score
       (map_values (merge_hits keywordWeight semanticWeight
                      keywordHits semanticHits))).

(** [searchHybrid]. Of the two searches started by [Promise.all] the
    keyword search is the first to reject, and its error is the one
    caught. *)
Definition searchHybrid (q : Query) (queryEmbedding : list Q)
  (keywordWeight semanticWeight : Q) : M (list Hit) :=
  try_catch
    (keywordHits <- searchKeyword q ;;
     semanticHits <- searchSemantic q queryEmbedding ;;
     ret (fuse keywordWeight semanticWeight (vq_limit q)
            keywordHits semanticHits))
    (fun msg => throw ("Hybrid search failed: " ++ msg)).
End WithEngine.

(** The row after the update built by the VAST adapter's
    [updateAssetStatus]: an option is written only when it is truthy
    ([attempt] when it is not [undefined]), so a [null] clears nothing. *)
Definition truthy_or_keep (o : option (option string)) (old : option string)
  : option string :=
  match o with
  | Some (Some s) => if JS.truthy s then Some s else old
  | _ => old
  end.

Definition apply_status (st : AssetStatus.t) (o : StatusOptions) (now : Z)
  (a : MediaAsset) : MediaAsset :=
  mkAsset (asset_id a) (lineage_id a) (bucket a) (object_key a)
          (current_version_id a) st
          (match o_triageState o with
           | Some (Some t) => Some t
           | _ => triage_state a
           end)
          (truthy_or_keep (o_recommendedAction o) (recommended_action a))
          (transcription_engine a)
          (truthy_or_keep (o_lastError o) (last_error a))
          (Postgres.or_keep (o_attempt o) (attempt a))
          (ingest_time a) now
          (file_size a) (content_type a) (etag a) (tombstone a)
          (codec_info a) (duration_ms a).

End VAST.

(* ===================================================================== *)
(** * The object store ([StoragePort.getObjectMetadata]) *)
(* ===================================================================== *)

Module Storage.

Definition lookup (bkt key : string)
  (objs : list (string * string * ObjectMetadata)) : option ObjectMetadata :=
  match find (fun o => String.eqb (fst (fst o)) bkt
                       && String.eqb (snd (fst o)) key) objs with
  | Some o => Some (snd o)
  | None => None
  end.

(** A [HeadObject] request; a missing object is an error. *)
Definition getObjectMetadata (bkt key : string) : M ObjectMetadata :=
  io ;;
  w <- get ;;
  match lookup bkt key (objects w) with
  | Some m => ret m
  | None => throw "NotFound"
  end.

End Storage.

(* ===================================================================== *)
(** * IngestService *)
(* ===================================================================== *)

Module Ingest.

Definition bump_created (s : Stats) : Stats :=
  mkStats (objectsCreated s + 1) (objectsRemoved s) (jobsEnqueued s + 1)
          (jobsFailed s) (jobsRetried s) (jobsDLQ s) (retriedCount s).

Definition bump_removed (s : Stats) : Stats :=
  mkStats (objectsCreated s) (objectsRemoved s + 1) (jobsEnqueued s)
          (jobsFailed s) (jobsRetried s) (jobsDLQ s) (retriedCount s).

(** [selectEngine()]. *)
Definition selectEngine : M ASREngine.t :=
  w <- get ;;
  let by_backend :=
    if opt_string_eqb (env_BACKEND w) "vast"
    then ASREngine.NVIDIA_NIMS else ASREngine.STUB in
  ret (match env_ASR_ENGINE w with
       | Some e =>
           let engineEnv := JS.toUpperCase e in
           if String.eqb engineEnv "NVIDIA_NIMS" then ASREngine.NVIDIA_NIMS
           else if String.eqb engineEnv "WHISPER" then ASREngine.WHISPER
           else if String.eqb engineEnv "BYO" then ASREngine.BYO
           else if String.eqb engineEnv "STUB" then ASREngine.STUB
           else by_backend
       | None => by_backend
       end).

(** Steps 5 and 6 of [handleObjectCreated]: the version row and the job. *)
Definition create_version_and_job (asset : MediaAsset) (versionId : string)
  (etag : string) (size : Z) : M unit :=
  now <- Date_now ;;
  Postgres.createVersion
    (mkVersion versionId (asset_id asset) AssetStatus.INGESTED
               Visibility.STAGING now etag size) ;;
  jobId <- randomUUID ;;
  now' <- Date_now ;;
  LocalQueue.enqueueJob
    (mkJob jobId (asset_id asset) versionId
           (mkPolicy (transcription_engine asset)
                     (diarization_enabled DEFAULT_ENGINE_POLICY)
                     (execution_mode DEFAULT_ENGINE_POLICY)
                     (compute_threshold_seconds DEFAULT_ENGINE_POLICY)
                     (force_chunking_strategy DEFAULT_ENGINE_POLICY))
           0
           (asset_id asset ++ ":" ++ versionId ++ ":0")
           now' now') ;;
  modify (with_stats bump_created).

(** The etag and size used after step 2: those of the event when both
    are given ([!etag || size === undefined] is false), else those of the
    fetched metadata. *)
Definition etag_and_size (etag : option string) (size : option Z)
  (metadata : ObjectMetadata) : string * Z :=
  match etag, size with
  | Some e, Some sz =>
      if JS.truthy e then (e, sz) else (m_etag metadata, m_size metadata)
  | _, _ => (m_etag metadata, m_size metadata)
  end.

(** [handleObjectCreated(bucket, objectKey, etag?, size?)]. *)
Definition handleObjectCreated (bkt objectKey : string)
  (etag : option string) (size : option Z) : M unit :=
  (* 1. Validate media format *)
  if negb (isSupportedMediaFormat objectKey) then ret tt
  else
    (* 2. Get object metadata *)
    metadata <- Storage.getObjectMetadata bkt objectKey ;;
    let etag' := fst (etag_and_size etag size metadata) in
    let size' := snd (etag_and_size etag size metadata) in
    (* 3. Compute strong version ID *)
    now <- Date_now ;;
    let versionId := computeVersionId etag' size' (m_lastModified metadata) now in
    (* 4. Check for existing asset *)
    asset <- Postgres.getAssetByKey bkt objectKey ;;
    tx <- Postgres.beginTransaction ;;
    Postgres.execute tx
      (match asset with
       | Some a =>
           existingVersion <- Postgres.getVersion versionId ;;
           match existingVersion with
           | Some _ => ret tt
           | None => create_version_and_job a versionId etag' size'
           end
       | None =>
           assetId <- randomUUID ;;
           lineageId <- randomUUID ;;
           eng <- selectEngine ;;
           t <- Date_now ;;
           a <- Postgres.upsertAsset
                  (mkAsset assetId lineageId bkt objectKey None
                           AssetStatus.INGESTED None None eng None 0 t t
                           size' (m_contentType metadata) etag' false
                           None None) ;;
           create_version_and_job a versionId etag' size'
       end).

(** [handleObjectRemoved(bucket, objectKey)]. *)
Definition handleObjectRemoved (bkt objectKey : string) : M unit :=
  asset <- Postgres.getAssetByKey bkt objectKey ;;
  match asset with
  | None => ret tt
  | Some a =>
      Postgres.tombstoneAsset (asset_id a) ;;
      Postgres.softDeleteSegments (asset_id a) ;;
      Postgres.softDeleteEmbeddings (asset_id a) ;;
      modify (with_stats bump_removed)
  end.

End Ingest.

(* ===================================================================== *)
(** * OrchestratorService: publication and failure handling *)
(* ===================================================================== *)

Module Orchestrator.

Definition bump_failed (s : Stats) : Stats :=
  mkStats (objectsCreated s) (objectsRemoved s) (jobsEnqueued s)
          (jobsFailed s + 1) (jobsRetried s) (jobsDLQ s) (retriedCount s).

Definition bump_retried (s : Stats) : Stats :=
  mkStats (objectsCreated s) (objectsRemoved s) (jobsEnqueued s)
          (jobsFailed s) (jobsRetried s + 1) (jobsDLQ s) (retriedCount s).

Definition bump_dlq (s : Stats) : Stats :=
  mkStats (objectsCreated s) (objectsRemoved s) (jobsEnqueued s)
          (jobsFailed s) (jobsRetried s) (jobsDLQ s + 1) (retriedCount s).

(** The function passed to [tx.execute] by [publishVersion]. *)
Definition publish_steps (assetId versionId : string) : M unit :=
  (* 1. Get current version (if any) *)
  asset <- Postgres.getAsset assetId ;;
  let previousVersionId :=
    match asset with
    | Some a => current_version_id a
    | None => None
    end in
  (* 2. Archive previous version's data *)
  (match previousVersionId with
   | Some prev =>
       if JS.truthy prev then
         Postgres.updateSegmentVisibility assetId prev Visibility.ARCHIVED ;;
         Postgres.updateEmbeddingVisibility assetId prev Visibility.ARCHIVED
       else ret tt
   | None => ret tt
   end) ;;
  (* 3. Promote new version to ACTIVE *)
  Postgres.updateSegmentVisibility assetId versionId Visibility.ACTIVE ;;
  Postgres.updateEmbeddingVisibility assetId versionId Visibility.ACTIVE ;;
  (* 4. Atomic pointer flip *)
  Postgres.setCurrentVersion assetId versionId ;;
  (* 5. Update asset status *)
  Postgres.updateAssetStatus assetId AssetStatus.INDEXED no_options.

(** [publishVersion(assetId, versionId)]. *)
Definition publishVersion (assetId versionId : string) : M unit :=
  tx <- Postgres.beginTransaction ;;
  try_catch
    (Postgres.execute tx (publish_steps assetId versionId))
    (fun error => throw error).

Definition any_includes (message : string) (needles : list string) : bool :=
  existsb (JS.includes message) needles.

(** [isRetryableError(error)], on [error.message]. *)
Definition isRetryableError (error_message : string) : bool :=
  let message := JS.toLowerCase error_message in
  if any_includes message ["codec"; "corrupt"; "invalid format"; "unsupported"]
  then false
  else if any_includes message
            ["timeout"; "network"; "connection"; "rate limit"; "busy";
             "unavailable"]
  then true
  else true.

(** [determineTriageState(error)]. *)
Definition determineTriageState (error_message : string) : TriageState.t :=
  let message := JS.toLowerCase error_message in
  if any_includes message ["codec"; "corrupt"; "invalid format"]
  then TriageState.NEEDS_MEDIA_FIX
  else if any_includes message ["engine"; "model"; "transcription"]
  then TriageState.NEEDS_ENGINE_TUNING
  else TriageState.QUARANTINED.

(** [getRecommendedAction(state)]. *)
Definition getRecommendedAction (state : TriageState.t) : string :=
  match state with
  | TriageState.NEEDS_MEDIA_FIX =>
      "Re-encode media file with supported codec or fix corruption"
  | TriageState.NEEDS_ENGINE_TUNING =>
      "Review ASR engine configuration or try alternative engine"
  | TriageState.QUARANTINED => "Manual investigation required"
  end.

(** The retry job built in the [else] branch of [handleJobError]. *)
Definition retry_job (job : TranscriptionJob) (newId : string)
  (newAttempt : Z) (scheduled : Z) : TranscriptionJob :=
  mkJob newId (j_asset_id job) (j_version_id job) (engine_policy job)
        newAttempt
        (j_asset_id job ++ ":" ++ j_version_id job ++ ":" ++ JS.num newAttempt)
        (enqueued_at job) scheduled.

(** [handleJobError(job, error)], on [error.message]. *)
Definition handleJobError (job : TranscriptionJob) (error_message : string)
  : M unit :=
  modify (with_stats bump_failed) ;;
  let isRetryable := isRetryableError error_message in
  let newAttempt := j_attempt job + 1 in
  if negb isRetryable || (newAttempt >=? MAX_RETRY_ATTEMPTS) then
    (* Move to DLQ *)
    let triageState := determineTriageState error_message in
    let recommendedAction := getRecommendedAction triageState in
    Postgres.updateAssetStatus (j_asset_id job) AssetStatus.QUARANTINED
      (mkOpts (Some (Some triageState)) (Some (Some error_message))
              (Some newAttempt) (Some (Some recommendedAction))) ;;
    LocalQueue.moveToDLQ job error_message ;;
    modify (with_stats bump_dlq)
  else
    (* Retry with exponential backoff *)
    r <- Math_random ;;
    let delay := calculateBackoffDelay newAttempt r in
    newId <- randomUUID ;;
    now <- Date_now ;;
    let retryJob := retry_job job newId newAttempt (now + delay) in
    Postgres.updateAssetStatus (j_asset_id job) AssetStatus.PENDING_RETRY
      (mkOpts None (Some (Some error_message)) (Some newAttempt) None) ;;
    LocalQueue.enqueueJobWithDelay retryJob delay ;;
    LocalQueue.ackJob (job_id job) ;;
    modify (with_stats bump_retried).

(** Step 4 of [processJob]: the segments to store and the strategy they
    are labelled with. [None] when a call of [createFixedWindowSegments]
    does not return. *)
Definition chunk (asrResult : Asr.ASRResult) (policy : EnginePolicy)
  : option (list (Asr.ASRSegment Z) * ChunkingStrategy.t) :=
  let durationSeconds := (inject_Z (Asr.duration_ms asrResult) / 1000)%Q in
  let over_threshold :=
    negb (Qle_bool durationSeconds
                   (inject_Z (compute_threshold_seconds policy))) in
  match (if over_threshold
         then Asr.createFixedWindowSegments (Asr.segments asrResult)
                Asr.FIXED_WINDOW_DURATION_MS
         else Some (Asr.segments asrResult)) with
  | None => None
  | Some segments =>
      let chunkingStrategy :=
        if over_threshold then ChunkingStrategy.FIXED_WINDOW
        else ChunkingStrategy.SENTENCE in
      match force_chunking_strategy policy with
      | Some ChunkingStrategy.FIXED_WINDOW =>
          match Asr.createFixedWindowSegments (Asr.segments asrResult)
                  Asr.FIXED_WINDOW_DURATION_MS with
          | Some windows => Some (windows, ChunkingStrategy.FIXED_WINDOW)
          | None => None
          end
      | Some ChunkingStrategy.SENTENCE =>
          Some (segments, ChunkingStrategy.SENTENCE)
      | None => Some (segments, chunkingStrategy)
      end
  end.

(** Step 5 of [processJob]: the rows for [upsertSegments];
    [now] is the reading of [new Date()]. *)
Definition transcript_rows (job : TranscriptionJob)
  (segments : list (Asr.ASRSegment Z)) (chunkingStrategy : ChunkingStrategy.t)
  (now : Z) : list TranscriptSegment :=
  map (fun p : nat * Asr.ASRSegment Z =>
         let (idx, seg) := p in
         mkSegment (j_version_id job ++ "_seg_" ++ JS.num (Z.of_nat idx))
                   (j_asset_id job) (j_version_id job)
                   (Asr.start_ms seg) (Asr.end_ms seg) (Asr.text seg)
                   (Asr.speaker seg) (Asr.confidence seg)
                   Visibility.STAGING chunkingStrategy now)
      (combine (seq 0 (length segments)) segments).

End Orchestrator.

(* ===================================================================== *)
(** * TriageService *)
(* ===================================================================== *)

Module Triage.

Definition bump_retriedCount (s : Stats) : Stats :=
  mkStats (objectsCreated s) (objectsRemoved s) (jobsEnqueued s)
          (jobsFailed s) (jobsRetried s) (jobsDLQ s) (retriedCount s + 1).

(** [engineOverride.toUpperCase()] is applied to a text the operator
    types, and its result is stored as it is: the case mapping of the
    runtime is a parameter. *)
Section WithCaseMapping.
Variable toUpperCase : string -> string.

(** The engine of the retry: the override, upper-cased, when one is
    given, else the engine recorded on the asset. *)
Definition engine_for (a : MediaAsset) (engineOverride : option string)
  : ASREngine.t :=
  match engineOverride with
  | Some o => if JS.truthy o then toUpperCase o else transcription_engine a
  | None => transcription_engine a
  end.

(** The job object built by [retryAsset]. *)
Definition fresh_job (jobId assetId versionId : string) (engine : ASREngine.t)
  (now : Z) : TranscriptionJob :=
  mkJob jobId assetId versionId
        (mkPolicy engine
                  (diarization_enabled DEFAULT_ENGINE_POLICY)
                  (execution_mode DEFAULT_ENGINE_POLICY)
                  (compute_threshold_seconds DEFAULT_ENGINE_POLICY)
                  (force_chunking_strategy DEFAULT_ENGINE_POLICY))
        0
        (assetId ++ ":" ++ versionId ++ ":retry:" ++ JS.num now)
        now now.

(** [retryAsset(assetId, engineOverride?)]. *)
Definition retryAsset (assetId : string) (engineOverride : option string)
  : M unit :=
  asset <- Postgres.getAsset assetId ;;
  match asset with
  | None => throw ("Asset " ++ assetId ++ " not found")
  | Some a =>
      if negb (AssetStatus.eqb (status a) AssetStatus.QUARANTINED) then
        throw ("Asset " ++ assetId ++ " is not quarantined (status: "
               ++ AssetStatus.to_string (status a) ++ ")")
      else
        (* Determine engine to use *)
        let engine := engine_for a engineOverride in
        (* Get the version that failed *)
        match current_version_id a with
        | None => throw ("Asset " ++ assetId ++ " has no version to retry")
        | Some versionId =>
            if negb (JS.truthy versionId) then
              throw ("Asset " ++ assetId ++ " has no version to retry")
            else
              jobId <- randomUUID ;;
              now <- Date_now ;;
              let job := fresh_job jobId assetId versionId engine now in
              (* Update asset status *)
              Postgres.updateAssetStatus assetId AssetStatus.PENDING_RETRY
                (mkOpts (Some None) (Some None) (Some 0) None) ;;
              (* Enqueue job *)
              LocalQueue.enqueueJob job ;;
              modify (with_stats bump_retriedCount)
        end
  end.
End WithCaseMapping.

End Triage.

(* ===================================================================== *)
(** * Bucket notifications by polling (LocalS3Adapter, VASTS3Adapter) *)
(* ===================================================================== *)

(** Both storage adapters find changes by listing the bucket and
    comparing the keys with those of the previous listing. The listing
    and the clock reading are arguments; the events are returned in the
    order in which the handler is called with them, for a handler that
    returns normally (the one of [IngestService] catches every error). *)
Module S3Notifications.

Record ObjectInfo := mkObjectInfo {
  key : string;
  size : Z;
  lastModified : Z;
  etag : string
}.

Inductive S3EventType := OBJECT_CREATED | OBJECT_REMOVED.

Record S3Event := mkEvent {
  event_type : S3EventType;
  ev_bucket : string;
  ev_object_key : string;
  ev_etag : option string;
  ev_size : option Z;
  ev_timestamp : Z
}.

(** [set.has(k)]. *)
Definition set_has (k : string) (set : list string) : bool :=
  existsb (String.eqb k) set.

(** [new Set(keys)]: the keys in the order of their first occurrence. *)
Definition set_add (set : list string) (k : string) : list string :=
  if set_has k set then set else (set ++ [k])%list.

Definition new_Set (keys : list string) : list string :=
  fold_left set_add keys [].

(** The known keys recorded by [subscribeToNotifications]. *)
Definition subscribed_keys (existingObjects : list ObjectInfo) : list string :=
  new_Set (map key existingObjects).

(** The first loop of [checkForChanges]: ObjectCreated events. *)
Definition created_events (bkt : string) (currentObjects : list ObjectInfo)
  (knownKeys : list string) : list S3Event :=
  flat_map (fun obj =>
    if negb (set_has (key obj) knownKeys)
    then [mkEvent OBJECT_CREATED bkt (key obj) (Some (etag obj))
                  (Some (size obj)) (lastModified obj)]
    else []) currentObjects.

(** The second loop: ObjectRemoved events. *)
Definition removed_events (bkt : string) (currentKeys knownKeys : list string)
  (now : Z) : list S3Event :=
  flat_map (fun k =>
    if negb (set_has k currentKeys)
    then [mkEvent OBJECT_REMOVED bkt k None None now]
    else []) knownKeys.

(** [checkForChanges(bucket, handler)]: the events handed to the handler
    and the known keys recorded at the end. [knownKeys] is
    [this.knownObjects.get(bucket)], [None] when the bucket has no
    entry. *)
Definition checkForChanges (bkt : string) (currentObjects : list ObjectInfo)
  (knownKeys : option (list string)) (now : Z)
  : list S3Event * list string :=
  let currentKeys := new_Set (map key currentObjects) in
  let known := match knownKeys with Some s => s | None => [] end in
  ((created_events bkt currentObjects known
    ++ removed_events bkt currentKeys known now)%list,
   currentKeys).

End S3Notifications.

(* ===================================================================== *)
(** * Search API: the parameters of GET /search *)
(* ===================================================================== *)

(** The handler of [/search] (search-api/src/index.ts) reads [q], [limit]
    and [offset] from the query string before it calls the service. *)
Module SearchApi.

Definition is_digit (c : ascii) : bool :=
  let n := nat_of_ascii c in Nat.leb 48 n && Nat.leb n 57.

Definition digit_value (c : ascii) : Z := Z.of_nat (nat_of_ascii c) - 48.

(** The value of the longest prefix of decimal digits; [acc] is [None]
    until a digit has been read. *)
Fixpoint digits_prefix (s : string) (acc : option Z) : option Z :=
  match s with
  | EmptyString => acc
  | String c t =>
      if is_digit c
      then digits_prefix t
             (Some (10 * match acc with Some a => a | None => 0 end
                    + digit_value c))
      else acc
  end.

(** [parseInt(s, 10)]: leading white space is skipped, one sign is read,
    then the digits up to the first other character; [None] is [NaN]. *)
Definition parseInt (s : string) : option Z :=
  match JS.trimStart s with
  | String "-" t => option_map Z.opp (digits_prefix t None)
  | String "+" t => digits_prefix t None
  | s' => digits_prefix s' None
  end.

(** [n || d] on the result of [parseInt]: [NaN] and zero are falsy. *)
Definition or_default (n : option Z) (d : Z) : Z :=
  match n with
  | Some v => if v =? 0 then d else v
  | None => d
  end.

(** [!q || q.trim().length === 0]: the request is answered with 400. *)
Definition query_missing (q : option string) : bool :=
  match q with
  | None => true
  | Some s => negb (JS.truthy s) || (JS.strlen (JS.trim s) =? 0)
  end.

(** [Math.min(parseInt(limit, 10) || 20, 100)], with [limit = '20'] when
    the parameter is absent. *)
Definition limitNum (limit : option string) : Z :=
  let limit := match limit with Some s => s | None => "20" end in
  Z.min (or_default (parseInt limit) 20) 100.

(** [parseInt(offset, 10) || 0], with [offset = '0'] when absent. *)
Definition offsetNum (offset : option string) : Z :=
  let offset := match offset with Some s => s | None => "0" end in
  or_default (parseInt offset) 0.

End SearchApi.

(* ===================================================================== *)
(** * Properties named by the specification *)
(* ===================================================================== *)

(** The same three filters on a joined row of the local schema, and a hit
    of the local adapter that was built from such a row. *)
Definition row_searchable (s : TranscriptSegment) (a : MediaAsset) : Prop :=
  s_asset_id s = asset_id a
  /\ s_visibility s = Visibility.ACTIVE
  /\ current_version_id a = Some (s_version_id s)
  /\ tombstone a = false.

Definition hit_of_searchable_row (d : Db) (h : SearchHit) : Prop :=
  exists s a,
    In s (transcript_segments d) /\ In a (media_assets d)
    /\ row_searchable s a
    /\ h_asset_id h = s_asset_id s
    /\ h_start_ms h = s_start_ms s /\ h_end_ms h = s_end_ms s
    /\ h_speaker h = s_speaker s
    /\ h_bucket h = bucket a /\ h_object_key h = object_key a.

(** A hit of the semantic search refers to an embedding as well: the
    embedding is ACTIVE, of the current version of its asset, the asset is
    not tombstoned, and the hit shows the segment the embedding belongs
    to. *)
Definition hit_of_searchable_embedding (d : Db) (h : SearchHit) : Prop :=
  exists e s a,
    In e (transcript_embeddings d) /\ In s (transcript_segments d)
    /\ In a (media_assets d)
    /\ e_asset_id e = asset_id a
    /\ e_asset_id e = s_asset_id s /\ e_version_id e = s_version_id s
    /\ e_segment_id e = s_segment_id s
    /\ e_visibility e = Visibility.ACTIVE
    /\ current_version_id a = Some (e_version_id e)
    /\ tombstone a = false
    /\ h_asset_id h = e_asset_id e
    /\ h_start_ms h = s_start_ms s /\ h_end_ms h = s_end_ms s.

(** The current-version pointer of every asset only points at ACTIVE
    rows. *)
Definition pointer_targets_active (d : Db) : Prop :=
  forall a v s,
    In a (media_assets d) -> current_version_id a = Some v ->
    In s (transcript_segments d) ->
    s_asset_id s = asset_id a -> s_version_id s = v ->
    s_visibility s = Visibility.ACTIVE.

(** The row of [media_assets] with this id / this bucket and key, as the
    adapter's [SELECT] finds it. *)
Definition asset_by_id (w : World) (assetId : string) : option MediaAsset :=
  find (fun a => String.eqb (asset_id a) assetId) (media_assets (db w)).

Definition asset_by_key (w : World) (bkt key : string) : option MediaAsset :=
  find (fun a => andb (String.eqb (bucket a) bkt)
                      (String.eqb (object_key a) key))
       (media_assets (db w)).

Definition version_by_id (w : World) (versionId : string)
  : option AssetVersion :=
  find (fun r => String.eqb (v_version_id r) versionId) (asset_versions (db w)).

(** The version that [publishVersion] archives: the current version of
    the asset, when there is one. *)
Definition previous_version (w : World) (assetId : string) : option string :=
  match asset_by_id w assetId with
  | Some a =>
      match current_version_id a with
      | Some p => if JS.truthy p then Some p else None
      | None => None
      end
  | None => None
  end.

(** All-or-nothing: a call that throws leaves the tables as they were. *)
Definition all_or_nothing {A : Type} (m : M A) : Prop :=
  forall w, match m w with
            | (Ok _, _) => True
            | (Throw _, w') => db w' = db w
            end.

(** The tables, the queues and the counters are those of [w]. *)
Definition same_state (w w' : World) : Prop :=
  db w' = db w /\ redis w' = redis w /\ stats w' = stats w.

(** The triage-state mapping of the specification (section 4.4): the
    triage state and the recommended action by kind of terminal error. *)
Inductive ErrorKind :=
| MEDIA_FORMAT | ENGINE_CONFIG | PERMANENT_DOWNSTREAM | TRANSIENT_EXHAUSTED.

Definition spec_classification (k : ErrorKind) : TriageState.t * string :=
  match k with
  | MEDIA_FORMAT =>
      (TriageState.NEEDS_MEDIA_FIX,
       "Re-encode with supported codec or repair corruption")
  | ENGINE_CONFIG =>
      (TriageState.NEEDS_ENGINE_TUNING,
       "Review engine configuration or choose alternative engine")
  | PERMANENT_DOWNSTREAM =>
      (TriageState.QUARANTINED, "Manual investigation required")
  | TRANSIENT_EXHAUSTED =>
      (TriageState.QUARANTINED, "Manual investigation — retries exhausted")
  end.

(** The delay interval as the specification words it: within 25% of
    [min(BASE * 2^attempt, MAX_DELAY)] for the failing job's [attempt],
    BASE = 1000 ms and MAX_DELAY = 300000 ms. *)
Definition spec_backoff_interval (attempt : Z) (delay : Z) : Prop :=
  let capped := Qmin (1000 * Qpower 2 attempt) 300000 in
  (((3 # 4) * capped <= inject_Z delay)%Q
   /\ (inject_Z delay <= (5 # 4) * capped)%Q).







(* ===================================================================== *)
(** * Scenarios *)
(* ===================================================================== *)

Module Scenario.

Definition T0 : Z := 1700000000000.

Definition zero_stats : Stats := mkStats 0 0 0 0 0 0 0.

(** An engine for closed examples: every text matches with rank 1. *)
Definition plain_engine : Engine :=
  mkEngine (fun _ _ => true) (fun _ _ => 1%Q) (fun t _ => t)
           (fun _ _ => 0%Q) (fun q => q).

Definition hello_meta : ObjectMetadata := mkMeta "E1" 1024 "audio/wav" T0.

(** Nothing ingested yet; [media/hello.wav] is in the object store. *)
Definition fresh_world : World :=
  mkWorld (mkDb [] [] [] []) (mkRedis [] [])
          [("media", "hello.wav", hello_meta)]
          None None (T0 + 123) 0 (1 # 2) None zero_stats.

Definition asset_a1 (current : option string) (st : AssetStatus.t)
  : MediaAsset :=
  mkAsset "a1" "l1" "media" "hello.wav" current st None None
          ASREngine.STUB None 0 T0 T0 1024 "audio/wav" "E1" false None None.

Definition seg (v : string) (txt : string) (vis : Visibility.t)
  : TranscriptSegment :=
  mkSegment (v ++ "_seg_0") "a1" v 0 1000 txt None (95 # 100) vis
            ChunkingStrategy.SENTENCE T0.

Definition emb (v : string) (vis : Visibility.t) : TranscriptEmbedding :=
  mkEmbedding (v ++ "_seg_0_emb") "a1" v (v ++ "_seg_0") [1 # 2; 1 # 2]
              "stub" 2 vis T0.

(** Version [v1] is published; version [v2] has been transcribed and
    waits at STAGING for its publication. *)
Definition overwrite_world : World :=
  mkWorld
    (mkDb [asset_a1 (Some "v1") AssetStatus.INDEXED]
          [mkVersion "v1" "a1" AssetStatus.TRANSCRIBED Visibility.STAGING T0 "E1" 1024;
           mkVersion "v2" "a1" AssetStatus.TRANSCRIBED Visibility.STAGING T0 "E2" 2048]
          [seg "v1" "hello world" Visibility.ACTIVE;
           seg "v2" "goodbye" Visibility.STAGING]
          [emb "v1" Visibility.ACTIVE; emb "v2" Visibility.STAGING])
    (mkRedis [] []) [("media", "hello.wav", hello_meta)]
    None None (T0 + 123) 0 (1 # 2) None zero_stats.

(** A second asset whose object was removed. *)
Definition asset_a2_removed : MediaAsset :=
  mkAsset "a2" "l2" "media" "bye.mp3" None AssetStatus.DELETED None None
          ASREngine.STUB None 0 T0 T0 10 "audio/mpeg" "E9" true None None.

Definition job1 : TranscriptionJob :=
  mkJob "job-1" "a1" "v1" DEFAULT_ENGINE_POLICY 0 "a1:v1:0" T0 T0.

(** A second job object for the same work: another job id, the same
    idempotency key. *)
Definition job1_again : TranscriptionJob :=
  mkJob "job-2" "a1" "v1" DEFAULT_ENGINE_POLICY 0 "a1:v1:0" T0 T0.

(** An asset quarantined after a failed job. *)
Definition quarantined_asset (current : option string) : MediaAsset :=
  mkAsset "a1" "l1" "media" "hello.wav" current
          AssetStatus.QUARANTINED (Some TriageState.NEEDS_MEDIA_FIX)
          (Some "Re-encode media file with supported codec or fix corruption")
          ASREngine.STUB (Some "corrupt stream") 1 T0 T0 1024
          "audio/wav" "E1" false None None.

Definition quarantined_world (current : option string) : World :=
  mkWorld
    (mkDb [quarantined_asset current] [] [] [])
    (mkRedis [] []) [] None None (T0 + 123) 0 (1 # 2) None zero_stats.



(** The job of the last permitted attempt ([MAX_RETRY_ATTEMPTS - 1]). *)
Definition job_last_attempt : TranscriptionJob :=
  mkJob "job-5" "a1" "v1" DEFAULT_ENGINE_POLICY 4 "a1:v1:4" T0 T0.

(** A published version with two segments and their embeddings. *)
Definition search_world : World :=
  mkWorld
    (mkDb [asset_a1 (Some "v1") AssetStatus.INDEXED] []
          [mkSegment "v1_seg_0" "a1" "v1" 0 1000 "hello world" None (95 # 100)
                     Visibility.ACTIVE ChunkingStrategy.SENTENCE (T0 + 1);
           mkSegment "v1_seg_1" "a1" "v1" 1000 2000 "other words" None
                     (9 # 10) Visibility.ACTIVE ChunkingStrategy.SENTENCE T0]
          [mkEmbedding "v1_seg_0_emb" "a1" "v1" "v1_seg_0" [1 # 2; 1 # 2]
                       "stub" 2 Visibility.ACTIVE T0;
           mkEmbedding "v1_seg_1_emb" "a1" "v1" "v1_seg_1" [1 # 2; 0 # 1]
                       "stub" 2 Visibility.ACTIVE T0])
    (mkRedis [] []) [] None None (T0 + 123) 0 (1 # 2) None zero_stats.

End Scenario.

(* ===================================================================== *)
(** * Theorems *)
(* ===================================================================== *)

Unset Implicit Arguments.

(** Reading the fields of a world that earlier steps have written. *)
Ltac run_world :=
  cbn [io_fault with_stats with_db with_redis with_uuid_next with_io_fault
       with_clock db redis clock stats uuid_next objects random
       env_ASR_ENGINE env_BACKEND media_assets asset_versions
       transcript_segments transcript_embeddings with_assets with_versions
       with_segments with_embeddings with_queue with_dlqQueue queue dlqQueue
       fst snd negb].

(** ** The version id *)

(** C3. [computeVersionId] is not a function of (etag, size, mtime) alone:
    the same arguments read at two wall-clock instants give two version
    ids, and the second ingest of an unchanged object therefore passes the
    [getVersion] check and adds a second version row and a second job. *)
Theorem C3_version_id_changes_with_clock :
  let t1 := Scenario.T0 + 123 in
  let t2 := Scenario.T0 + 60123 in
  computeVersionId "E1" 1024 Scenario.T0 t1
    <> computeVersionId "E1" 1024 Scenario.T0 t2
  /\
  let first := Ingest.handleObjectCreated "media" "hello.wav"
                 (Some "E1") (Some 1024) (with_clock t1 Scenario.fresh_world) in
  let second := Ingest.handleObjectCreated "media" "hello.wav"
                  (Some "E1") (Some 1024) (with_clock t2 (snd first)) in
  fst first = Ok tt /\ fst second = Ok tt
  /\ map v_version_id (asset_versions (db (snd first))) = ["v_7y3d27_loyw3v5n"]
  /\ map v_version_id (asset_versions (db (snd second)))
     = ["v_7y3d27_loyw3v5n"; "v_7y3d27_loyw55gb"]
  /\ length (media_assets (db (snd second))) = 1%nat
  /\ length (queue (redis (snd second))) = 2%nat.
Proof.
  vm_compute. split; [intro H; discriminate H | repeat split].
Qed.

(** The part of the id that comes from the arguments alone: the hash
    between the two underscores does not depend on the clock. *)
Lemma version_id_hash_part :
  forall etag size mtime now,
    computeVersionId etag size mtime now
    = "v_" ++ JS.toString36
                (Z.abs (hash_loop (etag ++ ":" ++ JS.num size ++ ":"
                                        ++ JS.num mtime) 0))
           ++ "_" ++ JS.toString36 now.
Proof. reflexivity. Qed.

(** ** The queue *)

(** C9. Two jobs that carry the same idempotency key under two job ids
    are both queued: BullMQ is given [jobId: job.job_id], and the
    idempotency key is only part of the payload. *)
Theorem C9_same_idempotency_key_queued_twice :
  let run := (LocalQueue.enqueueJob Scenario.job1 ;;
              LocalQueue.enqueueJob Scenario.job1_again) Scenario.fresh_world in
  idempotency_key Scenario.job1 = idempotency_key Scenario.job1_again
  /\ fst run = Ok tt
  /\ map (fun b => (b_id b, idempotency_key (b_data b)))
         (queue (redis (snd run)))
     = [("job-1", "a1:v1:0"); ("job-2", "a1:v1:0")].
Proof. vm_compute. repeat split; reflexivity. Qed.

(** What the adapter does guarantee: enqueueing under a job id that the
    queue already holds changes nothing. *)
Lemma enqueue_same_job_id_is_noop :
  forall (job : TranscriptionJob) (w : World),
    io_fault w = None ->
    LocalQueue.has_job (job_id job) (queue (redis w)) = true ->
    LocalQueue.enqueueJob job w = (Ok tt, w).
Proof.
  intros job w Hio Hhas.
  unfold LocalQueue.enqueueJob, bind, io, modify. rewrite Hio.
  unfold with_redis, with_queue, LocalQueue.bull_add. cbn.
  rewrite Hhas. destruct w as [d [q dq] o e1 e2 c u r f s]; reflexivity.
Qed.

(** ** The version publisher *)

(** C2. The cutover is not all-or-nothing. The statements of
    [publishVersion] run on pooled connections, outside the transaction
    that [beginTransaction] opened, so each takes effect at once. When the
    statement that promotes the new segments fails, the call throws, the
    [ROLLBACK] succeeds, and the tables keep the old version ARCHIVED
    under a current-version pointer that still names it: the pointer
    targets a version that is not ACTIVE and no version is searchable. *)
Theorem C2_interrupted_publish_is_partial :
  let w := with_io_fault (Some 5%nat) Scenario.overwrite_world in
  let run := Orchestrator.publishVersion "a1" "v2" w in
  pointer_targets_active (db w)
  /\ fst run = Throw "connection unavailable"
  /\ io_fault (snd run) = None
  /\ map (fun s => (s_version_id s, s_visibility s))
         (transcript_segments (db (snd run)))
     = [("v1", Visibility.ARCHIVED); ("v2", Visibility.STAGING)]
  /\ map (fun e => (e_version_id e, e_visibility e))
         (transcript_embeddings (db (snd run)))
     = [("v1", Visibility.ARCHIVED); ("v2", Visibility.STAGING)]
  /\ map current_version_id (media_assets (db (snd run))) = [Some "v1"]
  /\ ~ pointer_targets_active (db (snd run))
  /\ ~ all_or_nothing (Orchestrator.publishVersion "a1" "v2").
Proof.
  cbv zeta.
  assert (Hrun :
    Orchestrator.publishVersion "a1" "v2"
      (with_io_fault (Some 5%nat) Scenario.overwrite_world)
    = (Throw "connection unavailable",
       with_db (with_embeddings
                  (Postgres.update_where
                     (fun e => String.eqb (e_version_id e) "v1")
                     (Postgres.set_embedding_visibility Visibility.ARCHIVED)))
         (with_db (with_segments
                     (Postgres.update_where
                        (fun s => String.eqb (s_version_id s) "v1")
                        (Postgres.set_segment_visibility Visibility.ARCHIVED)))
            Scenario.overwrite_world)))
    by (vm_compute; reflexivity).
  rewrite Hrun. cbn [fst snd].
  split.
  { intros a v s Ha Hv Hs Hsa Hsv.
    cbn in Ha. destruct Ha as [Ha | []]; subst a. cbn in Hv.
    injection Hv as <-.
    cbn in Hs. destruct Hs as [Hs | [Hs | []]]; subst s; cbn in *;
      [reflexivity | discriminate]. }
  split; [reflexivity|]. split; [reflexivity|].
  split; [reflexivity|]. split; [reflexivity|]. split; [reflexivity|].
  split.
  { intro H.
    specialize (H (Scenario.asset_a1 (Some "v1") AssetStatus.INDEXED) "v1"
                  (Scenario.seg "v1" "hello world" Visibility.ARCHIVED)).
    cbn in H.
    assert (Habs : Visibility.ARCHIVED = Visibility.ACTIVE)
      by (apply H; auto).
    discriminate Habs. }
  intro H.
  specialize (H (with_io_fault (Some 5%nat) Scenario.overwrite_world)).
  rewrite Hrun in H. vm_compute in H. discriminate H.
Qed.

(** ** Helper lemmas: rows, queues, the monad *)

Lemma update_where_In :
  forall (A : Type) (p : A -> bool) (f : A -> A) (rows : list A) (x : A),
    In x (Postgres.update_where p f rows) ->
    exists r, In r rows /\ x = (if p r then f r else r).
Proof.
  intros A p f rows x H. unfold Postgres.update_where in H.
  apply in_map_iff in H. destruct H as (r & Hx & Hr).
  exists r. split; [assumption | symmetry; assumption].
Qed.

Lemma update_where_map_key :
  forall (A K : Type) (key : A -> K) (p : A -> bool) (f : A -> A)
         (rows : list A),
    (forall r, key (f r) = key r) ->
    map key (Postgres.update_where p f rows) = map key rows.
Proof.
  intros A K key p f rows Hf. unfold Postgres.update_where.
  rewrite map_map. apply map_ext. intro r. destruct (p r); auto.
Qed.

Lemma has_job_In :
  forall id q, LocalQueue.has_job id q = true <->
               exists b, In b q /\ b_id b = id.
Proof.
  intros id q. unfold LocalQueue.has_job. rewrite existsb_exists.
  split; intros (b & Hb & He); exists b; split; auto.
  - apply String.eqb_eq; assumption.
  - apply String.eqb_eq; assumption.
Qed.

Lemma bull_remove_absent :
  forall id q, LocalQueue.has_job id q = false -> LocalQueue.bull_remove id q = q.
Proof.
  intros id q. unfold LocalQueue.has_job, LocalQueue.bull_remove.
  induction q as [| b q IH]; cbn; [reflexivity|].
  intro H. apply orb_false_iff in H. destruct H as [Hb Hq].
  rewrite Hb. cbn. f_equal. apply IH; assumption.
Qed.

Lemma bull_remove_In :
  forall id q b, In b (LocalQueue.bull_remove id q) -> In b q /\ b_id b <> id.
Proof.
  intros id q b H. unfold LocalQueue.bull_remove in H.
  apply filter_In in H. destruct H as [Hin Hne]. split; [assumption|].
  intro He. rewrite He, String.eqb_refl in Hne. discriminate.
Qed.

Lemma bull_add_holds :
  forall b q, exists item, In item (LocalQueue.bull_add b q) /\ b_id item = b_id b.
Proof.
  intros b q. unfold LocalQueue.bull_add.
  destruct (LocalQueue.has_job (b_id b) q) eqn:E.
  - apply has_job_In in E. exact E.
  - exists b. split; [apply in_or_app; right; left; reflexivity | reflexivity].
Qed.

Lemma bull_add_fresh :
  forall b q, LocalQueue.has_job (b_id b) q = false ->
              LocalQueue.bull_add b q = (q ++ [b])%list.
Proof. intros b q H. unfold LocalQueue.bull_add. rewrite H. reflexivity. Qed.

(** The world with its fault field spelled out. *)
Lemma world_no_fault :
  forall w, io_fault w = None ->
    w = mkWorld (db w) (redis w) (objects w) (env_ASR_ENGINE w) (env_BACKEND w)
                (clock w) (uuid_next w) (random w) None (stats w).
Proof. intros [d r o e1 e2 c u rd f s] H. cbn in H. subst f. reflexivity. Qed.

(** ** Retry and quarantine *)

(** A status that the SQL type lists passes the server's check. *)
Lemma check_asset_status_accepts :
  forall (st : AssetStatus.t) (w : World),
    array_includes Postgres.asset_status_values (AssetStatus.to_string st)
    = true ->
    Postgres.check_asset_status st w = (Ok tt, w).
Proof.
  intros st w H. unfold Postgres.check_asset_status. rewrite H. reflexivity.
Qed.

(** [updateAssetStatus] with a status of the SQL type, and with one that
    the type does not list. *)
Lemma updateAssetStatus_accepted :
  forall (assetId : string) (st : AssetStatus.t) (o : StatusOptions)
         (w : World),
    io_fault w = None ->
    array_includes Postgres.asset_status_values (AssetStatus.to_string st)
    = true ->
    Postgres.updateAssetStatus assetId st o w
    = (Ok tt,
       with_db (with_assets
                  (Postgres.update_where
                     (fun a => String.eqb (asset_id a) assetId)
                     (Postgres.apply_status st o (clock w)))) w).
Proof.
  intros assetId st o w Hio Hst.
  unfold Postgres.updateAssetStatus, bind, io, get, modify.
  rewrite Hio. rewrite (check_asset_status_accepts st w Hst). reflexivity.
Qed.

Lemma updateAssetStatus_rejected :
  forall (assetId : string) (st : AssetStatus.t) (o : StatusOptions)
         (w : World),
    io_fault w = None ->
    array_includes Postgres.asset_status_values (AssetStatus.to_string st)
    = false ->
    Postgres.updateAssetStatus assetId st o w
    = (Throw ("invalid input value for enum asset_status: "
              ++ JS.quoted (AssetStatus.to_string st)), w).
Proof.
  intros assetId st o w Hio Hst.
  unfold Postgres.updateAssetStatus, bind, io.
  rewrite Hio. unfold Postgres.check_asset_status. rewrite Hst. reflexivity.
Qed.


(** The two statuses of the TypeScript enum that the SQL type does not
    list. *)
Lemma asset_status_not_in_sql_type :
  forall st : AssetStatus.t,
    array_includes Postgres.asset_status_values (AssetStatus.to_string st)
    = false
    <-> (st = AssetStatus.PENDING_RETRY \/ st = AssetStatus.FAILED).
Proof.
  intro st. split.
  - destruct st; vm_compute; intro H; try discriminate H; auto.
  - intros [-> | ->]; reflexivity.
Qed.

(** What [handleJobError] does with a failure that is not retried. *)
Lemma handleJobError_terminal :
  forall (job : TranscriptionJob) (msg : string) (w : World),
    io_fault w = None ->
    (JS.includes (JS.toLowerCase msg) "codec"
     || JS.includes (JS.toLowerCase msg) "corrupt"
     || JS.includes (JS.toLowerCase msg) "invalid format"
     || JS.includes (JS.toLowerCase msg) "unsupported" = true
     \/ 5 <= j_attempt job + 1) ->
    exists w',
      Orchestrator.handleJobError job msg w = (Ok tt, w')
      /\ (exists item, In item (dlqQueue (redis w'))
                       /\ b_id item = "dlq_" ++ job_id job)
      /\ (LocalQueue.has_job ("dlq_" ++ job_id job) (dlqQueue (redis w)) = false ->
          exists item, In item (dlqQueue (redis w'))
                       /\ b_id item = "dlq_" ++ job_id job
                       /\ b_data item = job
                       /\ b_error_message item = Some msg)
      /\ map asset_id (media_assets (db w')) = map asset_id (media_assets (db w))
      /\ (forall a, In a (media_assets (db w')) -> asset_id a = j_asset_id job ->
            status a = AssetStatus.QUARANTINED
            /\ last_error a = Some msg
            /\ attempt a = j_attempt job + 1
            /\ if JS.includes (JS.toLowerCase msg) "codec"
                  || JS.includes (JS.toLowerCase msg) "corrupt"
                  || JS.includes (JS.toLowerCase msg) "invalid format"
               then triage_state a = Some TriageState.NEEDS_MEDIA_FIX
                    /\ recommended_action a
                       = Some "Re-encode media file with supported codec or fix corruption"
               else if JS.includes (JS.toLowerCase msg) "engine"
                       || JS.includes (JS.toLowerCase msg) "model"
                       || JS.includes (JS.toLowerCase msg) "transcription"
               then triage_state a = Some TriageState.NEEDS_ENGINE_TUNING
                    /\ recommended_action a
                       = Some "Review ASR engine configuration or try alternative engine"
               else triage_state a = Some TriageState.QUARANTINED
                    /\ recommended_action a
                       = Some "Manual investigation required")
      /\ queue (redis w') = LocalQueue.bull_remove (job_id job) (queue (redis w)).
Proof.
  intros job msg w Hio Hterm.
  assert (Hcond : negb (Orchestrator.isRetryableError msg)
                  || (j_attempt job + 1 >=? MAX_RETRY_ATTEMPTS) = true).
  { destruct Hterm as [H | H].
    - unfold Orchestrator.isRetryableError, Orchestrator.any_includes.
      cbn [existsb]. rewrite orb_false_r, !orb_assoc. rewrite H. reflexivity.
    - apply orb_true_iff. right. apply Z.geb_le. exact H. }
  unfold Orchestrator.handleJobError, bind, modify.
  rewrite Hcond.
  rewrite updateAssetStatus_accepted; [| exact Hio | reflexivity].
  rewrite (world_no_fault w Hio).
  unfold LocalQueue.moveToDLQ, bind, io, get, modify, ret.
  run_world.
  destruct (LocalQueue.has_job (job_id job) (queue (redis w))) eqn:Hq;
    run_world;
    eexists; (split; [reflexivity|]);
    run_world.
  all: split; [apply bull_add_holds|].
  all: split;
    [ intro Hfresh; rewrite bull_add_fresh by exact Hfresh;
      eexists; split; [apply in_or_app; right; left; reflexivity|];
      cbn; auto |].
  all: split; [apply update_where_map_key; reflexivity|].
  all: split;
    [ intros a Ha Hid; apply update_where_In in Ha;
      destruct Ha as (r & _ & ->);
      destruct (String.eqb (asset_id r) (j_asset_id job)) eqn:E;
      [ cbn [status last_error attempt triage_state recommended_action
             Postgres.apply_status Postgres.or_keep o_triageState
             o_lastError o_attempt o_recommendedAction];
        split; [reflexivity|]; split; [reflexivity|]; split; [reflexivity|];
        unfold Orchestrator.determineTriageState, Orchestrator.any_includes;
        cbn [existsb]; rewrite !orb_false_r, !orb_assoc;
        destruct (JS.includes (JS.toLowerCase msg) "codec"
                  || JS.includes (JS.toLowerCase msg) "corrupt"
                  || JS.includes (JS.toLowerCase msg) "invalid format");
        [ split; reflexivity |];
        destruct (JS.includes (JS.toLowerCase msg) "engine"
                  || JS.includes (JS.toLowerCase msg) "model"
                  || JS.includes (JS.toLowerCase msg) "transcription");
        split; reflexivity
      | apply String.eqb_neq in E; contradiction ] |].
  - reflexivity.
  - symmetry. apply bull_remove_absent. assumption.
Qed.

(** C4 (amended). A job that fails with a non-retryable error (its
    lower-cased message mentions codec, corrupt, invalid format or
    unsupported), or with any error once [attempt + 1] reaches
    [MAX_RETRY_ATTEMPTS] = 5, is parked in the dead-letter queue and
    nothing is added to the job queue. Its asset is set to QUARANTINED
    with the error and the incremented attempt, and with the triage state
    and recommended action of the code's own table: NEEDS_MEDIA_FIX for
    codec, corrupt or invalid format; else NEEDS_ENGINE_TUNING for
    engine, model or transcription; else QUARANTINED, each with its fixed
    text. *)
Theorem C4_terminal_failure_goes_to_dlq :
  forall (job : TranscriptionJob) (msg : string) (w : World),
    io_fault w = None ->
    (JS.includes (JS.toLowerCase msg) "codec"
     || JS.includes (JS.toLowerCase msg) "corrupt"
     || JS.includes (JS.toLowerCase msg) "invalid format"
     || JS.includes (JS.toLowerCase msg) "unsupported" = true
     \/ 5 <= j_attempt job + 1) ->
    exists w',
      Orchestrator.handleJobError job msg w = (Ok tt, w')
      /\ (exists item, In item (dlqQueue (redis w'))
                       /\ b_id item = "dlq_" ++ job_id job)
      /\ (LocalQueue.has_job ("dlq_" ++ job_id job) (dlqQueue (redis w)) = false ->
          exists item, In item (dlqQueue (redis w'))
                       /\ b_id item = "dlq_" ++ job_id job
                       /\ b_data item = job
                       /\ b_error_message item = Some msg)
      /\ map asset_id (media_assets (db w')) = map asset_id (media_assets (db w))
      /\ (forall a, In a (media_assets (db w')) -> asset_id a = j_asset_id job ->
            status a = AssetStatus.QUARANTINED
            /\ last_error a = Some msg
            /\ attempt a = j_attempt job + 1
            /\ if JS.includes (JS.toLowerCase msg) "codec"
                  || JS.includes (JS.toLowerCase msg) "corrupt"
                  || JS.includes (JS.toLowerCase msg) "invalid format"
               then triage_state a = Some TriageState.NEEDS_MEDIA_FIX
                    /\ recommended_action a
                       = Some "Re-encode media file with supported codec or fix corruption"
               else if JS.includes (JS.toLowerCase msg) "engine"
                       || JS.includes (JS.toLowerCase msg) "model"
                       || JS.includes (JS.toLowerCase msg) "transcription"
               then triage_state a = Some TriageState.NEEDS_ENGINE_TUNING
                    /\ recommended_action a
                       = Some "Review ASR engine configuration or try alternative engine"
               else triage_state a = Some TriageState.QUARANTINED
                    /\ recommended_action a
                       = Some "Manual investigation required")
      /\ queue (redis w') = LocalQueue.bull_remove (job_id job) (queue (redis w)).
Proof.
  intros job msg w Hio Hterm.
  destruct (handleJobError_terminal job msg w Hio Hterm) as (w' & H).
  exists w'. exact H.
Qed.

Lemma has_job_app :
  forall id q b, b_id b <> id ->
    LocalQueue.has_job id (q ++ [b]) = LocalQueue.has_job id q.
Proof.
  intros id q b Hne. unfold LocalQueue.has_job. rewrite existsb_app. cbn.
  apply String.eqb_neq in Hne. rewrite Hne. rewrite !orb_false_r. reflexivity.
Qed.

Lemma bull_remove_app :
  forall id q b, b_id b <> id ->
    LocalQueue.bull_remove id (q ++ [b])
    = (LocalQueue.bull_remove id q ++ [b])%list.
Proof.
  intros id q b Hne. unfold LocalQueue.bull_remove. rewrite filter_app. cbn.
  apply String.eqb_neq in Hne. rewrite Hne. reflexivity.
Qed.

(** The capped delay is a whole number of milliseconds, a multiple of 4. *)
Lemma capped_delay_integral :
  forall n : Z, 0 <= n ->
    (Qmin (inject_Z 1000 * Qpower 2 n) (inject_Z 300000)
     == inject_Z (4 * Z.min (250 * 2 ^ n) 75000))%Q.
Proof.
  intros n Hn.
  assert (Hp : (inject_Z 1000 * Qpower 2 n == inject_Z (1000 * 2 ^ n))%Q).
  { rewrite inject_Z_mult. rewrite (Zpower_Qpower 2 n Hn). reflexivity. }
  rewrite Hp.
  destruct (Z.min_spec (250 * 2 ^ n) 75000) as [[Hlt ->] | [Hle ->]].
  - rewrite Q.min_l.
    + apply inject_Z_injective. lia.
    + rewrite <- Zle_Qle. lia.
  - rewrite Q.min_r.
    + apply inject_Z_injective. lia.
    + rewrite <- Zle_Qle. lia.
Qed.

(** [calculateBackoffDelay n r] stays within 25% of the capped delay
    [min(1000 * 2^n, 300000)], the floor included. *)
Lemma backoff_within_quarter :
  forall (n : Z) (r : Q),
    0 <= n -> (0 <= r)%Q -> (r < 1)%Q ->
    spec_backoff_interval n (calculateBackoffDelay n r).
Proof.
  intros n r Hn Hr0 Hr1.
  unfold spec_backoff_interval, calculateBackoffDelay,
    calculateBackoffDelay_with.
  set (m := Z.min (250 * 2 ^ n) 75000).
  assert (Hm : 0 < m).
  { unfold m. assert (0 < 2 ^ n) by (apply Z.pow_pos_nonneg; lia). lia. }
  pose proof (capped_delay_integral n Hn) as Hc. fold m in Hc.
  assert (HmQ : (inject_Z 0 < inject_Z m)%Q)
    by (rewrite <- Zlt_Qlt; assumption).
  change (inject_Z 0) with 0%Q in HmQ.
  rewrite inject_Z_mult in Hc.
  set (c := Qmin (inject_Z 1000 * Qpower 2 n) (inject_Z 300000)) in *.
  change (1000%Q) with (inject_Z 1000).
  change (300000%Q) with (inject_Z 300000).
  fold c.
  set (x := (c + c * (1 # 4) * (r * 2 - 1))%Q).
  assert (Hlo : (inject_Z (3 * m) <= x)%Q).
  { unfold x. rewrite Hc, inject_Z_mult.
    change (inject_Z 3) with 3%Q. change (inject_Z 4) with 4%Q. nra. }
  assert (Hhi : (x <= (5 # 4) * c)%Q).
  { unfold x. rewrite Hc. change (inject_Z 4) with 4%Q. nra. }
  split.
  - apply Qle_trans with (inject_Z (3 * m)).
    + rewrite Hc, inject_Z_mult.
      change (inject_Z 3) with 3%Q. change (inject_Z 4) with 4%Q. lra.
    + rewrite <- Zle_Qle. rewrite <- (Qfloor_Z (3 * m)).
      apply Qfloor_resp_le. exact Hlo.
  - apply Qle_trans with x; [apply Qfloor_le | exact Hhi].
Qed.


(** Witness of C4: the job of attempt 4 fails with a retryable error. *)
Lemma C4_witness :
  let job := Scenario.job_last_attempt in
  let msg := "connection timeout" in
  let w := Scenario.overwrite_world in
  io_fault w = None
  /\ 5 <= j_attempt job + 1
  /\ exists w',
      Orchestrator.handleJobError job msg w = (Ok tt, w')
      /\ map b_id (dlqQueue (redis w')) = ["dlq_job-5"]
      /\ queue (redis w') = []
      /\ forall a, In a (media_assets (db w')) -> asset_id a = "a1" ->
           status a = AssetStatus.QUARANTINED
           /\ triage_state a = Some TriageState.QUARANTINED
           /\ recommended_action a = Some "Manual investigation required"
           /\ attempt a = 5.
Proof.
  cbv zeta. split; [reflexivity|]. split; [vm_compute; discriminate|].
  destruct (C4_terminal_failure_goes_to_dlq Scenario.job_last_attempt
              "connection timeout" Scenario.overwrite_world eq_refl)
    as (w' & Hrun & _ & Hdlq & _ & Hasset & Hqueue).
  { right. vm_compute. discriminate. }
  exists w'. split; [exact Hrun|].
  assert (Hw : exists w0,
             Orchestrator.handleJobError Scenario.job_last_attempt
               "connection timeout" Scenario.overwrite_world = (Ok tt, w0)
             /\ map b_id (dlqQueue (redis w0)) = ["dlq_job-5"]).
  { eexists. split; vm_compute; reflexivity. }
  destruct Hw as (w0 & Hrun0 & Hids). rewrite Hrun in Hrun0.
  injection Hrun0 as <-.
  split; [exact Hids|]. split; [exact Hqueue|].
  intros a Ha Hid. destruct (Hasset a Ha Hid) as (H1 & _ & H3 & H4).
  vm_compute in H4. destruct H4 as [H4 H5].
  repeat split; assumption.
Defined.

(** Counterexample to C4 as stated: the recommended actions are not
    those of the specification's table. A job whose retries are exhausted
    (attempt 4, a timeout) leaves the asset with "Manual investigation
    required", where the table has its own text for exhausted retries;
    and a codec error leaves it with the code's text for NEEDS_MEDIA_FIX,
    which is not the table's. *)
Lemma C4_counterexample :
  let exhausted := Orchestrator.handleJobError Scenario.job_last_attempt
                     "connection timeout" Scenario.overwrite_world in
  let media := Orchestrator.handleJobError Scenario.job1
                 "Unsupported codec: corrupt stream" Scenario.overwrite_world in
  fst exhausted = Ok tt
  /\ map (fun a => (status a, triage_state a, recommended_action a))
         (media_assets (db (snd exhausted)))
     = [(AssetStatus.QUARANTINED, Some TriageState.QUARANTINED,
         Some "Manual investigation required")]
  /\ "Manual investigation required"
     <> snd (spec_classification TRANSIENT_EXHAUSTED)
  /\ fst media = Ok tt
  /\ map (fun a => (status a, triage_state a, recommended_action a))
         (media_assets (db (snd media)))
     = [(AssetStatus.QUARANTINED, Some TriageState.NEEDS_MEDIA_FIX,
         Some "Re-encode media file with supported codec or fix corruption")]
  /\ fst (spec_classification MEDIA_FORMAT) = TriageState.NEEDS_MEDIA_FIX
  /\ "Re-encode media file with supported codec or fix corruption"
     <> snd (spec_classification MEDIA_FORMAT).
Proof.
  cbv zeta.
  split; [vm_compute; reflexivity|]. split; [vm_compute; reflexivity|].
  split; [intro H; discriminate H|].
  split; [vm_compute; reflexivity|]. split; [vm_compute; reflexivity|].
  split; [reflexivity|]. intro H; discriminate H.
Qed.

(** The classification functions on some messages: the retryable error
    of the scenarios; a format error; an error that is retryable by
    default; "unsupported", which is not retried but is not sent to
    NEEDS_MEDIA_FIX either; a timeout that names the engine. *)
Example classification_examples :
  Orchestrator.isRetryableError "connection timeout" = true
  /\ Orchestrator.isRetryableError "Unsupported codec: corrupt stream" = false
  /\ Orchestrator.isRetryableError "ASR failed: permission denied" = true
  /\ Orchestrator.determineTriageState "Unsupported codec: corrupt stream"
     = TriageState.NEEDS_MEDIA_FIX
  /\ Orchestrator.determineTriageState "connection timeout"
     = TriageState.QUARANTINED
  /\ Orchestrator.isRetryableError "Unsupported media type" = false
  /\ Orchestrator.determineTriageState "Unsupported media type"
     = TriageState.QUARANTINED
  /\ Orchestrator.determineTriageState "engine timeout"
     = TriageState.NEEDS_ENGINE_TUNING.
Proof. vm_compute. repeat split; reflexivity. Qed.



(** ** Object removal *)

(** Counterexample to C7 as stated: the three updates of
    [handleObjectRemoved] are not enclosed in a transaction. When the
    soft-delete of the segments fails, the call throws with the asset
    already tombstoned and the segments and embeddings still ACTIVE. *)
Lemma C7_counterexample :
  let w := with_io_fault (Some 2%nat) Scenario.overwrite_world in
  let run := Ingest.handleObjectRemoved "media" "hello.wav" w in
  fst run = Throw "connection unavailable"
  /\ map (fun a => (tombstone a, current_version_id a, status a))
         (media_assets (db (snd run)))
     = [(true, None, AssetStatus.DELETED)]
  /\ map s_visibility (transcript_segments (db (snd run)))
     = [Visibility.ACTIVE; Visibility.STAGING]
  /\ map e_visibility (transcript_embeddings (db (snd run)))
     = [Visibility.ACTIVE; Visibility.STAGING]
  /\ ~ all_or_nothing (Ingest.handleObjectRemoved "media" "hello.wav").
Proof.
  cbv zeta. split; [vm_compute; reflexivity|].
  split; [vm_compute; reflexivity|]. split; [vm_compute; reflexivity|].
  split; [vm_compute; reflexivity|].
  intro H.
  specialize (H (with_io_fault (Some 2%nat) Scenario.overwrite_world)).
  vm_compute in H. discriminate H.
Qed.

(** C7 (amended). When its statements succeed, [handleObjectRemoved] for
    an existing key tombstones the asset, clears its current-version
    pointer, sets its status to DELETED and turns every segment and every
    embedding of the asset to SOFT_DELETED, leaving all other rows as they
    are; for a key without an asset it returns without any change. *)
Theorem C7_object_removed :
  forall (bkt key : string) (w : World),
    io_fault w = None ->
    match asset_by_key w bkt key with
    | None => Ingest.handleObjectRemoved bkt key w = (Ok tt, w)
    | Some a =>
        exists w',
          Ingest.handleObjectRemoved bkt key w = (Ok tt, w')
          /\ media_assets (db w')
             = Postgres.update_where
                 (fun r => String.eqb (asset_id r) (asset_id a))
                 (Postgres.tombstone_row (clock w)) (media_assets (db w))
          /\ transcript_segments (db w')
             = Postgres.update_where
                 (fun s => String.eqb (s_asset_id s) (asset_id a))
                 (Postgres.set_segment_visibility Visibility.SOFT_DELETED)
                 (transcript_segments (db w))
          /\ transcript_embeddings (db w')
             = Postgres.update_where
                 (fun e => String.eqb (e_asset_id e) (asset_id a))
                 (Postgres.set_embedding_visibility Visibility.SOFT_DELETED)
                 (transcript_embeddings (db w))
          /\ asset_versions (db w') = asset_versions (db w)
          /\ redis w' = redis w
          /\ (forall r, In r (media_assets (db w')) ->
                asset_id r = asset_id a ->
                tombstone r = true /\ current_version_id r = None
                /\ status r = AssetStatus.DELETED)
          /\ (forall s, In s (transcript_segments (db w')) ->
                s_asset_id s = asset_id a ->
                s_visibility s = Visibility.SOFT_DELETED)
          /\ (forall e, In e (transcript_embeddings (db w')) ->
                e_asset_id e = asset_id a ->
                e_visibility e = Visibility.SOFT_DELETED)
    end.
Proof.
  intros bkt key w Hio.
  unfold asset_by_key.
  unfold Ingest.handleObjectRemoved, Postgres.getAssetByKey, bind, io, get, ret.
  rewrite Hio.
  destruct (find _ (media_assets (db w))) as [a|] eqn:Hfind; [|reflexivity].
  unfold Postgres.tombstoneAsset, Postgres.softDeleteSegments,
    Postgres.softDeleteEmbeddings, bind, io, get, modify, ret.
  rewrite Hio.
  cbn [io_fault with_stats with_db with_redis db redis clock stats].
  rewrite Hio.
  cbn [io_fault with_stats with_db with_redis db redis clock stats].
  rewrite Hio.
  eexists. split; [reflexivity|].
  cbn [db redis stats with_stats with_db with_redis with_assets with_segments
       with_embeddings with_versions media_assets transcript_segments
       transcript_embeddings asset_versions].
  repeat (split; [reflexivity|]).
  split; [|split].
  - intros r Hr Hid. apply update_where_In in Hr. destruct Hr as (r0 & _ & ->).
    destruct (String.eqb (asset_id r0) (asset_id a)) eqn:E.
    + cbn. auto.
    + apply String.eqb_neq in E. contradiction.
  - intros s Hs Hid. apply update_where_In in Hs. destruct Hs as (s0 & _ & ->).
    destruct (String.eqb (s_asset_id s0) (asset_id a)) eqn:E.
    + reflexivity.
    + apply String.eqb_neq in E. contradiction.
  - intros e He Hid. apply update_where_In in He. destruct He as (e0 & _ & ->).
    destruct (String.eqb (e_asset_id e0) (asset_id a)) eqn:E.
    + reflexivity.
    + apply String.eqb_neq in E. contradiction.
Qed.

(** Witness of C7: removal of the published [media/hello.wav]. *)
Lemma C7_witness :
  let bkt := "media" in
  let key := "hello.wav" in
  let w := Scenario.overwrite_world in
  io_fault w = None
  /\ match asset_by_key w bkt key with
     | None => Ingest.handleObjectRemoved bkt key w = (Ok tt, w)
     | Some a =>
         exists w',
           Ingest.handleObjectRemoved bkt key w = (Ok tt, w')
           /\ media_assets (db w')
              = Postgres.update_where
                  (fun r => String.eqb (asset_id r) (asset_id a))
                  (Postgres.tombstone_row (clock w)) (media_assets (db w))
           /\ transcript_segments (db w')
              = Postgres.update_where
                  (fun s => String.eqb (s_asset_id s) (asset_id a))
                  (Postgres.set_segment_visibility Visibility.SOFT_DELETED)
                  (transcript_segments (db w))
           /\ transcript_embeddings (db w')
              = Postgres.update_where
                  (fun e => String.eqb (e_asset_id e) (asset_id a))
                  (Postgres.set_embedding_visibility Visibility.SOFT_DELETED)
                  (transcript_embeddings (db w))
           /\ asset_versions (db w') = asset_versions (db w)
           /\ redis w' = redis w
           /\ (forall r, In r (media_assets (db w')) ->
                 asset_id r = asset_id a ->
                 tombstone r = true /\ current_version_id r = None
                 /\ status r = AssetStatus.DELETED)
           /\ (forall s, In s (transcript_segments (db w')) ->
                 s_asset_id s = asset_id a ->
                 s_visibility s = Visibility.SOFT_DELETED)
           /\ (forall e, In e (transcript_embeddings (db w')) ->
                 e_asset_id e = asset_id a ->
                 e_visibility e = Visibility.SOFT_DELETED)
     end.
Proof.
  cbv zeta. split; [reflexivity|].
  apply (C7_object_removed "media" "hello.wav" Scenario.overwrite_world).
  reflexivity.
Defined.

(** ** Object creation *)

Lemma split_nonempty :
  forall sep s, JS.split sep s <> [].
Proof.
  intros sep s. destruct s as [| c t]; cbn; [discriminate|].
  destruct (Ascii.eqb c sep); [discriminate|].
  destruct (JS.split sep t); discriminate.
Qed.

Lemma split_without_sep :
  forall sep s, JS.has_char sep s = false -> JS.split sep s = [s].
Proof.
  intros sep s. induction s as [| c t IH]; cbn; [reflexivity|].
  intro H. apply orb_false_iff in H. destruct H as [Hc Ht].
  rewrite Hc, (IH Ht). reflexivity.
Qed.

Lemma split_app_sep :
  forall sep base rest,
    exists h r,
      JS.split sep (base ++ String sep rest) = ((h :: r) ++ JS.split sep rest)%list.
Proof.
  intros sep base rest. induction base as [| c t IH]; cbn.
  - rewrite Ascii.eqb_refl. exists EmptyString, []. reflexivity.
  - destruct IH as (h & r & IH). rewrite IH.
    destruct (Ascii.eqb c sep).
    + exists EmptyString, (h :: r). reflexivity.
    + exists (String c h), r. reflexivity.
Qed.

Lemma pop_app_last :
  forall l x, JS.pop (l ++ [x]) = Some x.
Proof. intros l x. unfold JS.pop. rewrite rev_app_distr. reflexivity. Qed.

(** X22. The extension test, for a key with a dot: the text after the last dot
    is lower-cased and looked up in the seven supported formats. *)
Lemma supported_format_by_extension :
  forall base ext,
    JS.has_char "." ext = false ->
    isSupportedMediaFormat (base ++ "." ++ ext)
    = array_includes ["wav"; "mp3"; "aac"; "flac"; "mp4"; "mov"; "mxf"]
                     (JS.toLowerCase ext).
Proof.
  intros base ext Hext. unfold isSupportedMediaFormat.
  change ("." ++ ext) with (String "." ext).
  destruct (split_app_sep "." base ext) as (h & r & Hs). rewrite Hs.
  rewrite (split_without_sep "." ext Hext).
  rewrite pop_app_last.
  destruct ext as [| c t]; reflexivity.
Qed.

(** Upper case is accepted; other extensions are not; a key without any
    dot is taken whole as its extension. *)
Example supported_format_examples :
  isSupportedMediaFormat "talk.WAV" = true
  /\ isSupportedMediaFormat "a.b/clip.Mp4" = true
  /\ isSupportedMediaFormat "notes.txt" = false
  /\ isSupportedMediaFormat "archive.wav.gz" = false
  /\ isSupportedMediaFormat "noextension" = false
  /\ isSupportedMediaFormat "wav" = true.
Proof. vm_compute. repeat split; reflexivity. Qed.



(** ** Triage *)

(** The guard of [retryAsset]: without an asset of that id that is
    QUARANTINED and has a current version, the call throws and changes
    nothing. An asset whose current-version pointer is null is therefore
    never retried. *)
Lemma retryAsset_guard :
  forall (toUpperCase : string -> string) (assetId : string)
         (engineOverride : option string) (w : World),
    io_fault w = None ->
    (forall a v, asset_by_id w assetId = Some a ->
                 status a = AssetStatus.QUARANTINED ->
                 current_version_id a = Some v -> v = "") ->
    exists msg,
      Triage.retryAsset toUpperCase assetId engineOverride w = (Throw msg, w).
Proof.
  intros toUpperCase assetId engineOverride w Hio.
  unfold asset_by_id.
  unfold Triage.retryAsset, Postgres.getAsset, bind, io, get, ret.
  rewrite Hio.
  destruct (find _ (media_assets (db w))) as [a|] eqn:Hfind;
    [| intros _; eexists; reflexivity].
  destruct (AssetStatus.eqb (status a) AssetStatus.QUARANTINED) eqn:Hst;
    [| intros _; eexists; reflexivity].
  cbn [negb].
  assert (Hq : status a = AssetStatus.QUARANTINED).
  { unfold AssetStatus.eqb in Hst.
    destruct (AssetStatus.eq_dec (status a) AssetStatus.QUARANTINED);
      [assumption | discriminate]. }
  destruct (current_version_id a) as [v|] eqn:Hcur;
    [| intros _; eexists; reflexivity].
  destruct v as [| c t]; [intros _; eexists; reflexivity|].
  intro H. specialize (H a (String c t) eq_refl Hq Hcur). discriminate H.
Qed.

(** Past the guard, the status PENDING_RETRY is refused by the database:
    the call throws after it has drawn a job id, the asset stays
    QUARANTINED with its triage state and last error, and no job is
    enqueued. *)
Lemma retryAsset_rejected_by_schema :
  forall (toUpperCase : string -> string) (assetId : string)
         (engineOverride : option string) (w : World) (a : MediaAsset)
         (v : string),
    io_fault w = None ->
    asset_by_id w assetId = Some a ->
    status a = AssetStatus.QUARANTINED ->
    current_version_id a = Some v -> v <> "" ->
    Triage.retryAsset toUpperCase assetId engineOverride w
    = (Throw ("invalid input value for enum asset_status: "
              ++ JS.quoted "PENDING_RETRY"),
       with_uuid_next (S (uuid_next w)) w).
Proof.
  intros toUpperCase assetId engineOverride w a v Hio Ha Hq Hcur Hne.
  unfold asset_by_id in Ha.
  unfold Triage.retryAsset, Postgres.getAsset.
  unfold bind at 1. unfold bind at 1. unfold io at 1. rewrite Hio.
  unfold bind at 1. unfold get at 1. unfold ret at 1.
  rewrite Ha, Hq, Hcur.
  assert (Heqb : AssetStatus.eqb AssetStatus.QUARANTINED
                   AssetStatus.QUARANTINED = true) by reflexivity.
  rewrite Heqb. cbn [negb].
  destruct v as [| c t]; [contradiction Hne; reflexivity|].
  cbn [JS.truthy negb].
  unfold bind at 1. unfold randomUUID at 1.
  unfold bind at 1. unfold Date_now at 1.
  unfold bind at 1.
  rewrite updateAssetStatus_rejected; [reflexivity | | reflexivity].
  destruct w; exact Hio.
Qed.

(** C10. The retry of a quarantined asset never goes through on the local
    schema. For the quarantined asset of the scenario, which has a
    current version, [retryAsset] passes its guard and then asks for
    status PENDING_RETRY, which the SQL type [asset_status] does not
    list: the call throws, whatever the engine override, the asset stays
    QUARANTINED with its triage state and last error, and no job is
    enqueued. *)
Theorem C10_triage_retry_is_refused :
  forall (toUpperCase : string -> string) (engineOverride : option string),
    let w := Scenario.quarantined_world (Some "v1") in
    let run := Triage.retryAsset toUpperCase "a1" engineOverride w in
    fst run = Throw ("invalid input value for enum asset_status: "
                     ++ JS.quoted "PENDING_RETRY")
    /\ db (snd run) = db w
    /\ redis (snd run) = redis w
    /\ stats (snd run) = stats w
    /\ map (fun a => (status a, triage_state a, last_error a))
           (media_assets (db (snd run)))
       = [(AssetStatus.QUARANTINED, Some TriageState.NEEDS_MEDIA_FIX,
           Some "corrupt stream")]
    /\ queue (redis (snd run)) = []
    /\ array_includes Postgres.asset_status_values "PENDING_RETRY" = false
    /\ array_includes Postgres.asset_status_values "ERROR_RETRYABLE" = true.
Proof.
  intros toUpperCase engineOverride. cbv zeta.
  rewrite (retryAsset_rejected_by_schema toUpperCase "a1" engineOverride
             (Scenario.quarantined_world (Some "v1"))
             (Scenario.quarantined_asset (Some "v1")) "v1");
    [| reflexivity | reflexivity | reflexivity | reflexivity
     | intro H; discriminate H].
  cbn [fst snd]. repeat split; reflexivity.
Qed.

(** ** Hybrid fusion *)






Section SortFacts.
Variable A : Type.
Variable score : A -> Q.

Let ge (a b : A) : Prop := (score b <= score a)%Q.

Lemma insert_desc_perm :
  forall x l, Permutation (x :: l) (insert_desc score x l).
Proof.
  intros x l. induction l as [| y t IH]; cbn; [apply Permutation_refl|].
  destruct (Qle_bool (score y) (score x)); [apply Permutation_refl|].
  eapply Permutation_trans; [apply perm_swap|].
  apply perm_skip. exact IH.
Qed.

Lemma sort_desc_perm :
  forall l, Permutation l (sort_desc score l).
Proof.
  induction l as [| x t IH]; cbn; [constructor|].
  eapply Permutation_trans; [apply perm_skip; exact IH|].
  apply insert_desc_perm.
Qed.

Lemma insert_desc_hd :
  forall x y l, ge y x -> HdRel ge y l -> HdRel ge y (insert_desc score x l).
Proof.
  intros x y l Hyx Hhd. destruct l as [| z t]; cbn.
  - constructor. exact Hyx.
  - destruct (Qle_bool (score z) (score x)).
    + constructor. exact Hyx.
    + constructor. inversion Hhd; assumption.
Qed.

Lemma insert_desc_sorted :
  forall x l, Sorted ge l -> Sorted ge (insert_desc score x l).
Proof.
  intros x l Hs. induction Hs as [| y t Hs IH Hhd]; cbn.
  - repeat constructor.
  - destruct (Qle_bool (score y) (score x)) eqn:E.
    + constructor; [constructor; assumption|].
      constructor. apply Qle_bool_iff. exact E.
    + constructor; [exact IH|].
      apply insert_desc_hd; [| exact Hhd].
      unfold ge. apply Qlt_le_weak. apply Qnot_le_lt. intro Hle.
      apply Qle_bool_iff in Hle. rewrite Hle in E. discriminate E.
Qed.

Lemma sort_desc_sorted :
  forall l, Sorted ge (sort_desc score l).
Proof.
  induction l as [| x t IH]; cbn; [constructor|].
  apply insert_desc_sorted. exact IH.
Qed.


End SortFacts.













(** ** The query layer on PostgreSQL *)

Lemma visibility_eqb_eq :
  forall x y, Visibility.eqb x y = true -> x = y.
Proof.
  intros x y. unfold Visibility.eqb.
  destruct (Visibility.eq_dec x y); [auto | discriminate].
Qed.

Lemma opt_string_eqb_eq :
  forall o s, opt_string_eqb o s = true -> o = Some s.
Proof.
  intros [x|] s; cbn; [|discriminate].
  intro H. apply String.eqb_eq in H. subst. reflexivity.
Qed.

Lemma sort_desc_In :
  forall (A : Type) (score : A -> Q) (l : list A) (x : A),
    In x (sort_desc score l) -> In x l.
Proof.
  intros A score l x H.
  apply (Permutation_in x (Permutation_sym (sort_desc_perm A score l))).
  exact H.
Qed.

Lemma firstn_In :
  forall (A : Type) (n : nat) (l : list A) (x : A),
    In x (firstn n l) -> In x l.
Proof.
  intros A n l x H. rewrite <- (firstn_skipn n l).
  apply in_or_app. left. exact H.
Qed.

Lemma skipn_In :
  forall (A : Type) (n : nat) (l : list A) (x : A),
    In x (skipn n l) -> In x l.
Proof.
  intros A n l x H. rewrite <- (firstn_skipn n l).
  apply in_or_app. right. exact H.
Qed.

Lemma limit_offset_In :
  forall (A : Type) (l o : Z) (rows : list A) (x : A),
    In x (PgSearch.limit_offset l o rows) -> In x rows.
Proof.
  intros A l o rows x H. unfold PgSearch.limit_offset in H.
  apply firstn_In in H. apply skipn_In in H. exact H.
Qed.

Lemma slice_In :
  forall (A : Type) (a b : Z) (l : list A) (x : A),
    In x (JS.slice a b l) -> In x l.
Proof.
  intros A a b l x H. unfold JS.slice in H.
  apply firstn_In in H. apply skipn_In in H. exact H.
Qed.

(** Every row of [search_keyword] passed the three filters. *)
Lemma pg_keyword_rows_searchable :
  forall (E : Engine) (d : Db) (query_text : string)
         (limit offset : Z) (bkt spk : option string) (h : SearchHit),
    In h (PgSearch.search_keyword E d query_text limit offset bkt spk) ->
    hit_of_searchable_row d h.
Proof.
  intros E d query_text limit offset bkt spk h H.
  unfold PgSearch.search_keyword in H.
  apply limit_offset_In, sort_desc_In in H.
  unfold PgSearch.keyword_rows in H.
  apply in_flat_map in H. destruct H as (s & Hs & H).
  apply in_flat_map in H. destruct H as (a & Ha & H).
  destruct (String.eqb (s_asset_id s) (asset_id a)) eqn:Hid; cbn in H;
    [| contradiction].
  destruct (PgSearch.keyword_where E query_text bkt spk s a) eqn:Hw;
    [| contradiction].
  destruct H as [<- | []].
  unfold PgSearch.keyword_where in Hw.
  repeat (apply andb_true_iff in Hw; destruct Hw as [Hw ?]).
  exists s, a. unfold row_searchable. cbn.
  repeat split; auto.
  - apply String.eqb_eq; assumption.
  - apply visibility_eqb_eq; assumption.
  - apply opt_string_eqb_eq; assumption.
  - apply negb_true_iff; assumption.
Qed.

(** Every row of [search_semantic] passed the three filters, with an
    ACTIVE embedding of the current version. *)
Lemma pg_semantic_rows_searchable :
  forall (E : Engine) (d : Db) (query_embedding : list Q)
         (limit offset : Z) (bkt spk : option string) (h : SearchHit),
    In h (PgSearch.search_semantic E d query_embedding limit offset bkt spk) ->
    hit_of_searchable_row d h
    /\ exists e a,
         In e (transcript_embeddings d) /\ In a (media_assets d)
         /\ e_asset_id e = asset_id a /\ h_asset_id h = e_asset_id e
         /\ e_visibility e = Visibility.ACTIVE
         /\ current_version_id a = Some (e_version_id e)
         /\ tombstone a = false.
Proof.
  intros E d query_embedding limit offset bkt spk h H.
  unfold PgSearch.search_semantic in H.
  apply limit_offset_In, sort_desc_In in H.
  unfold PgSearch.semantic_rows in H.
  apply in_flat_map in H. destruct H as (e & He & H).
  apply in_flat_map in H. destruct H as (s & Hs & H).
  apply in_flat_map in H. destruct H as (a & Ha & H).
  destruct (PgSearch.semantic_on e s) eqn:Hon; cbn in H; [| contradiction].
  destruct (String.eqb (e_asset_id e) (asset_id a)) eqn:Hid; cbn in H;
    [| contradiction].
  destruct (PgSearch.semantic_where bkt spk e s a) eqn:Hw; [| contradiction].
  destruct H as [<- | []].
  unfold PgSearch.semantic_where in Hw.
  repeat (apply andb_true_iff in Hw; destruct Hw as [Hw ?]).
  unfold PgSearch.semantic_on in Hon.
  repeat (apply andb_true_iff in Hon; destruct Hon as [Hon ?]).
  apply String.eqb_eq in Hid, Hon.
  match goal with H : String.eqb (e_version_id e) _ = true |- _ =>
    apply String.eqb_eq in H; rename H into Hver end.
  match goal with H : opt_string_eqb _ _ = true |- _ =>
    apply opt_string_eqb_eq in H; rename H into Hcur end.
  match goal with H : negb _ = true |- _ =>
    apply negb_true_iff in H; rename H into Htomb end.
  match goal with H : Visibility.eqb (s_visibility s) _ = true |- _ =>
    apply visibility_eqb_eq in H; rename H into Hsvis end.
  apply visibility_eqb_eq in Hw.
  split.
  - exists s, a. unfold row_searchable. cbn.
    repeat split; auto; congruence.
  - exists e, a. repeat split; auto.
Qed.

(** Each entry of the score map of [searchHybrid] holds a hit of one of
    the two result lists. *)
Lemma pg_score_map_hits :
  forall (Wk Ws : Q) (kw sem : list SearchHit) (e : SearchHit * Q),
    In e (map_values
            (fold_left (PgSearch.add_semantic_hit Ws) sem
               (fold_left (PgSearch.add_keyword_hit Wk) kw []))) ->
    In (fst e) kw \/ In (fst e) sem.
Proof.
  intros Wk Ws kw sem.
  assert (Hset : forall (m : list (string * (SearchHit * Q))) k v e,
             In e (map_values (map_set k v m)) ->
             e = v \/ In e (map_values m)).
  { induction m as [| [k' v'] t IH]; cbn; intros k v e H.
    - destruct H as [H | []]. left. auto.
    - destruct (String.eqb k' k); cbn in H.
      + destruct H as [H | H]; [left; auto | right; right; exact H].
      + destruct H as [H | H]; [right; left; exact H|].
        destruct (IH k v e H) as [Hv | Hm]; [left | right; right]; assumption. }
  assert (Hupd : forall (m : list (string * (SearchHit * Q))) k f e,
             (forall v, fst (f v) = fst v) ->
             In e (map_values (map_update k f m)) ->
             exists e0, In e0 (map_values m) /\ fst e = fst e0).
  { induction m as [| [k' v'] t IH]; cbn; intros k f e Hf H; [contradiction|].
    destruct (String.eqb k' k); cbn in H.
    - destruct H as [H | H].
      + exists v'. split; [left; reflexivity | rewrite <- H; apply Hf].
      + exists e. split; [right; exact H | reflexivity].
    - destruct H as [H | H].
      + exists e. split; [left; exact H | reflexivity].
      + destruct (IH k f e Hf H) as (e0 & H0 & H1).
        exists e0. split; [right; exact H0 | exact H1]. }
  assert (Hkw : forall kw' m e,
             In e (map_values (fold_left (PgSearch.add_keyword_hit Wk) kw' m)) ->
             In (fst e) kw' \/ exists e0, In e0 (map_values m) /\ fst e = fst e0).
  { induction kw' as [| k rest IH]; cbn; intros m e H.
    - right. exists e. split; [exact H | reflexivity].
    - destruct (IH _ _ H) as [Hin | (e0 & H0 & H1)]; [left; right; exact Hin|].
      unfold PgSearch.add_keyword_hit in H0.
      destruct (Hset _ _ _ _ H0) as [Hv | Hm].
      + left. left. rewrite H1, Hv. reflexivity.
      + right. exists e0. split; assumption. }
  assert (Hsem : forall sem' m e,
             In e (map_values (fold_left (PgSearch.add_semantic_hit Ws) sem' m)) ->
             In (fst e) sem' \/ exists e0, In e0 (map_values m) /\ fst e = fst e0).
  { induction sem' as [| s rest IH]; cbn; intros m e H.
    - right. exists e. split; [exact H | reflexivity].
    - destruct (IH _ _ H) as [Hin | (e0 & H0 & H1)]; [left; right; exact Hin|].
      unfold PgSearch.add_semantic_hit in H0.
      destruct (map_get (PgSearch.score_key s) m).
      + apply Hupd in H0; [| intros v; reflexivity].
        destruct H0 as (e1 & H2 & H3). right. exists e1.
        split; [exact H2 | congruence].
      + destruct (Hset _ _ _ _ H0) as [Hv | Hm].
        * left. left. rewrite H1, Hv. reflexivity.
        * right. exists e0. split; assumption. }
  intros e H.
  destruct (Hsem _ _ _ H) as [Hin | (e0 & H0 & H1)]; [right; exact Hin|].
  destruct (Hkw _ _ _ H0) as [Hin | (e1 & [] & _)].
  left. rewrite H1. exact Hin.
Qed.

(** The hits of the three search methods come from searchable rows. *)
Lemma pg_search_hits_searchable :
  forall (E : Engine) (q : SearchQuery) (emb : list Q) (Wk Ws : Q)
         (w w' : World) (hits : list SearchHit),
    (PgSearch.searchKeyword E q w = (Ok hits, w')
     \/ PgSearch.searchSemantic E q emb w = (Ok hits, w')
     \/ PgSearch.searchHybrid E q emb Wk Ws w = (Ok hits, w')) ->
    forall h, In h hits -> hit_of_searchable_row (db w) h.
Proof.
  assert (Hio : forall w o w1, io w = (o, w1) -> db w1 = db w).
  { intros w o w1. unfold io.
    destruct (io_fault w) as [[| n]|]; intro H; injection H as _ <-;
      reflexivity. }
  assert (Hkw : forall E q w w' hits,
             PgSearch.searchKeyword E q w = (Ok hits, w') ->
             db w' = db w
             /\ forall h, In h hits -> hit_of_searchable_row (db w) h).
  { intros E q w w' hits. unfold PgSearch.searchKeyword, bind, get, ret.
    destruct (io w) as [[[]| e] w1] eqn:E1; [| discriminate].
    apply Hio in E1. unfold PgSearch.check_limit_offset, throw, ret.
    destruct ((q_limit q <? 0) || (q_offset q <? 0)); [discriminate|].
    intro H. injection H as <- <-. split; [exact E1|].
    intros h Hh. rewrite E1 in Hh. eapply pg_keyword_rows_searchable.
    exact Hh. }
  assert (Hsem : forall E q emb w w' hits,
             PgSearch.searchSemantic E q emb w = (Ok hits, w') ->
             db w' = db w
             /\ forall h, In h hits -> hit_of_searchable_row (db w) h).
  { intros E q emb w w' hits. unfold PgSearch.searchSemantic, bind, get, ret.
    destruct (io w) as [[[]| e] w1] eqn:E1; [| discriminate].
    apply Hio in E1. unfold PgSearch.check_limit_offset, throw, ret.
    destruct ((q_limit q <? 0) || (q_offset q <? 0)); [discriminate|].
    intro H. injection H as <- <-. split; [exact E1|].
    intros h Hh. rewrite E1 in Hh.
    eapply pg_semantic_rows_searchable. exact Hh. }
  intros E q emb Wk Ws w w' hits [H | [H | H]] h Hh.
  - exact (proj2 (Hkw _ _ _ _ _ H) h Hh).
  - exact (proj2 (Hsem _ _ _ _ _ _ H) h Hh).
  - unfold PgSearch.searchHybrid, bind, ret in H.
    destruct (PgSearch.searchKeyword E _ w) as [[kw | e] w1] eqn:E1;
      [| discriminate].
    destruct (PgSearch.searchSemantic E _ emb w1) as [[sem | e] w2] eqn:E2;
      [| discriminate].
    injection H as <- <-.
    destruct (Hkw _ _ _ _ _ E1) as [Hdb1 Hk].
    destruct (Hsem _ _ _ _ _ _ E2) as [_ Hs]. rewrite Hdb1 in Hs.
    unfold PgSearch.hybrid_merge in Hh.
    apply in_map_iff in Hh. destruct Hh as (e & <- & He).
    apply slice_In, sort_desc_In in He.
    assert (Hsrc : hit_of_searchable_row (db w) (fst e)).
    { destruct (pg_score_map_hits _ _ _ _ _ He) as [Hin | Hin];
        [apply Hk | apply Hs]; exact Hin. }
    destruct Hsrc as (s & a & Hs' & Ha' & Hrow & H1 & H2 & H3 & H4 & H5 & H6).
    exists s, a. cbn. repeat split; auto; apply Hrow.
Qed.

(** X19. On the local adapter, all three query modes return only hits built
    from searchable rows: ACTIVE, of the current version, of an asset
    that is not tombstoned. *)
Theorem pg_query_layer_filters :
  forall (E : Engine) (q : SearchQuery) (emb : list Q) (Wk Ws : Q)
         (w w' : World) (hits : list SearchHit),
    (PgSearch.searchKeyword E q w = (Ok hits, w')
     \/ PgSearch.searchSemantic E q emb w = (Ok hits, w')
     \/ PgSearch.searchHybrid E q emb Wk Ws w = (Ok hits, w')) ->
    forall h, In h hits -> hit_of_searchable_row (db w) h.
Proof.
  intros E q emb Wk Ws w w' hits Hrun h Hh.
  eapply pg_search_hits_searchable; eassumption.
Qed.

(** ** The query layer: both adapters *)

(** Every row of [search_semantic] was built from an embedding that
    passed the filters, joined with its segment. *)
Lemma pg_semantic_rows_embedding :
  forall (E : Engine) (d : Db) (query_embedding : list Q)
         (limit offset : Z) (bkt spk : option string) (h : SearchHit),
    In h (PgSearch.search_semantic E d query_embedding limit offset bkt spk) ->
    hit_of_searchable_embedding d h.
Proof.
  intros E d query_embedding limit offset bkt spk h H.
  unfold PgSearch.search_semantic in H.
  apply limit_offset_In, sort_desc_In in H.
  unfold PgSearch.semantic_rows in H.
  apply in_flat_map in H. destruct H as (e & He & H).
  apply in_flat_map in H. destruct H as (s & Hs & H).
  apply in_flat_map in H. destruct H as (a & Ha & H).
  destruct (PgSearch.semantic_on e s) eqn:Hon; cbn in H; [| contradiction].
  destruct (String.eqb (e_asset_id e) (asset_id a)) eqn:Hid; cbn in H;
    [| contradiction].
  destruct (PgSearch.semantic_where bkt spk e s a) eqn:Hw; [| contradiction].
  destruct H as [<- | []].
  unfold PgSearch.semantic_where in Hw.
  repeat (apply andb_true_iff in Hw; destruct Hw as [Hw ?]).
  unfold PgSearch.semantic_on in Hon.
  apply andb_true_iff in Hon. destruct Hon as [Hon Hsid].
  apply andb_true_iff in Hon. destruct Hon as [Has Hver].
  apply String.eqb_eq in Hid, Has, Hver, Hsid.
  match goal with H : opt_string_eqb _ _ = true |- _ =>
    apply opt_string_eqb_eq in H; rename H into Hcur end.
  match goal with H : negb _ = true |- _ =>
    apply negb_true_iff in H; rename H into Htomb end.
  apply visibility_eqb_eq in Hw.
  exists e, s, a. cbn. repeat split; auto.
Qed.

(** The search methods of the VAST adapter never return: [this.client]
    is [undefined], so each of them throws before a query is sent. *)
Lemma vast_searchKeyword_throws :
  forall (q : VAST.Query) (w : World),
    VAST.searchKeyword q w
    = (Throw "Keyword search failed: Cannot read properties of undefined (reading 'executeQuery')",
       w).
Proof. reflexivity. Qed.

Lemma vast_searchSemantic_throws :
  forall (E : Engine) (q : VAST.Query) (emb : list Q) (w : World),
    VAST.searchSemantic E q emb w
    = (Throw (match emb with
              | [] => "Semantic search failed: Query embedding required for semantic search"
              | _ => "Semantic search failed: Cannot read properties of undefined (reading 'executeQuery')"
              end), w).
Proof. intros E q [| x emb] w; reflexivity. Qed.

Lemma vast_searchHybrid_throws :
  forall (E : Engine) (q : VAST.Query) (emb : list Q) (Wk Ws : Q) (w : World),
    VAST.searchHybrid E q emb Wk Ws w
    = (Throw "Hybrid search failed: Keyword search failed: Cannot read properties of undefined (reading 'executeQuery')",
       w).
Proof. reflexivity. Qed.

(** C1. Every hit that the query layer returns, in any of the three
    modes, is built from a segment that is ACTIVE, belongs to the current
    version of its asset, and whose asset is not tombstoned; every
    embedding that the semantic search reads, on its own or for a hybrid
    search, passes the same filters. This is the local adapter, whose SQL
    functions carry the filters. The VAST adapter returns no hit at all:
    each of its three search methods throws. *)
Theorem C1_query_layer_returns_searchable_rows :
  forall (E : Engine) (q : SearchQuery) (emb : list Q) (Wk Ws : Q)
         (w w' : World) (hits : list SearchHit),
    (PgSearch.searchKeyword E q w = (Ok hits, w')
     \/ PgSearch.searchSemantic E q emb w = (Ok hits, w')
     \/ PgSearch.searchHybrid E q emb Wk Ws w = (Ok hits, w')) ->
    (forall h, In h hits -> hit_of_searchable_row (db w) h)
    /\ (PgSearch.searchSemantic E q emb w = (Ok hits, w') ->
        forall h, In h hits -> hit_of_searchable_embedding (db w) h)
    /\ (forall (l o : Z) (b sp : option string) (s : SearchHit),
          In s (PgSearch.search_semantic E (db w) emb l o b sp) ->
          hit_of_searchable_embedding (db w) s)
    /\ (forall (vq : VAST.Query) (w0 : World),
          (exists msg, VAST.searchKeyword vq w0 = (Throw msg, w0))
          /\ (exists msg, VAST.searchSemantic E vq emb w0 = (Throw msg, w0))
          /\ (exists msg,
                VAST.searchHybrid E vq emb Wk Ws w0 = (Throw msg, w0))).
Proof.
  intros E q emb Wk Ws w w' hits Hrun.
  split; [intros h Hh; eapply pg_search_hits_searchable; eassumption|].
  split.
  { intros Hsem h Hh.
    unfold PgSearch.searchSemantic, bind, get, ret in Hsem.
    unfold io in Hsem.
    destruct (io_fault w) as [[| n]|] eqn:Hio; [discriminate Hsem | |];
      unfold PgSearch.check_limit_offset, throw, ret in Hsem;
      destruct ((q_limit q <? 0) || (q_offset q <? 0));
      try discriminate Hsem;
      injection Hsem as <- _;
      destruct w; cbn in Hh |- *;
      eapply pg_semantic_rows_embedding; exact Hh. }
  split; [intros l o b sp s Hs; eapply pg_semantic_rows_embedding; exact Hs|].
  intros vq w0. split; [| split]; eexists.
  - apply vast_searchKeyword_throws.
  - apply vast_searchSemantic_throws.
  - apply vast_searchHybrid_throws.
Qed.

(** Witness of C1: a keyword search and a semantic search on the
    published version of the scenario. *)
Lemma C1_witness :
  let w := Scenario.search_world in
  let kw := [mkHit "a1" 0 1000 "hello world" 1 None "media" "hello.wav"] in
  PgSearch.searchKeyword Scenario.plain_engine
    (mkQuery "hello" None None 1 0) w = (Ok kw, w)
  /\ (forall h, In h kw -> hit_of_searchable_row (db w) h)
  /\ (forall s,
        In s (PgSearch.search_semantic Scenario.plain_engine (db w)
                [1 # 2; 1 # 2] 10 0 None None) ->
        hit_of_searchable_embedding (db w) s)
  /\ length (PgSearch.search_semantic Scenario.plain_engine (db w)
               [1 # 2; 1 # 2] 10 0 None None) = 2%nat.
Proof.
  cbv zeta.
  assert (Hrun : PgSearch.searchKeyword Scenario.plain_engine
                   (mkQuery "hello" None None 1 0) Scenario.search_world
                 = (Ok [mkHit "a1" 0 1000 "hello world" 1 None "media"
                              "hello.wav"], Scenario.search_world))
    by (vm_compute; reflexivity).
  split; [exact Hrun|].
  destruct (C1_query_layer_returns_searchable_rows Scenario.plain_engine
              (mkQuery "hello" None None 1 0) [1 # 2; 1 # 2] (1 # 2) (1 # 2)
              Scenario.search_world Scenario.search_world
              [mkHit "a1" 0 1000 "hello world" 1 None "media" "hello.wav"]
              (or_introl Hrun))
    as (Hrow & _ & Hemb & _).
  split; [exact Hrow|].
  split; [intros s Hs; exact (Hemb 10 0 None None s Hs)|].
  vm_compute. reflexivity.
Defined.

(** ** Publication without failure *)

(** What a cutover without any failure writes. *)
Lemma publishVersion_effect :
  forall (assetId versionId : string) (w : World),
    io_fault w = None ->
    exists w',
      Orchestrator.publishVersion assetId versionId w = (Ok tt, w')
      /\ asset_versions (db w') = asset_versions (db w)
      /\ redis w' = redis w
      /\ map asset_id (media_assets (db w')) = map asset_id (media_assets (db w))
      /\ (forall a, In a (media_assets (db w')) -> asset_id a = assetId ->
            current_version_id a = Some versionId
            /\ status a = AssetStatus.INDEXED)
      /\ (forall s, In s (transcript_segments (db w')) ->
            s_asset_id s = assetId -> s_version_id s = versionId ->
            s_visibility s = Visibility.ACTIVE)
      /\ (forall e, In e (transcript_embeddings (db w')) ->
            e_asset_id e = assetId -> e_version_id e = versionId ->
            e_visibility e = Visibility.ACTIVE)
      /\ (forall p s, previous_version w assetId = Some p -> p <> versionId ->
            In s (transcript_segments (db w')) ->
            s_asset_id s = assetId -> s_version_id s = p ->
            s_visibility s = Visibility.ARCHIVED)
      /\ (forall p e, previous_version w assetId = Some p -> p <> versionId ->
            In e (transcript_embeddings (db w')) ->
            e_asset_id e = assetId -> e_version_id e = p ->
            e_visibility e = Visibility.ARCHIVED).
Proof.
  intros assetId versionId w Hio.
  unfold previous_version, asset_by_id.
  unfold Orchestrator.publishVersion, Postgres.beginTransaction,
    Postgres.execute, Orchestrator.publish_steps, Postgres.getAsset,
    try_catch, bind, io, get, ret.
  repeat (rewrite Hio; cbn beta iota).
  set (prev := match find _ (media_assets (db w)) with
               | Some a => current_version_id a
               | None => None
               end).
  assert (Hprev : match find (fun a => String.eqb (asset_id a) assetId)
                               (media_assets (db w)) with
                  | Some a =>
                      match current_version_id a with
                      | Some p => if JS.truthy p then Some p else None
                      | None => None
                      end
                  | None => None
                  end
                  = match prev with
                    | Some p => if JS.truthy p then Some p else None
                    | None => None
                    end).
  { unfold prev. destruct (find _ (media_assets (db w))); reflexivity. }
  rewrite Hprev. clearbody prev. clear Hprev.
  unfold Postgres.updateSegmentVisibility, Postgres.updateEmbeddingVisibility,
    Postgres.setCurrentVersion, Postgres.updateAssetStatus, bind, io, get,
    modify, ret.
  change (Postgres.check_asset_status AssetStatus.INDEXED)
    with (@ret unit tt).
  unfold ret.
  assert (Hseg : forall (p : string) (vis : Visibility.t) rows s,
             In s (Postgres.update_where
                     (fun s => String.eqb (s_asset_id s) assetId
                               && String.eqb (s_version_id s) p)
                     (Postgres.set_segment_visibility vis) rows) ->
             (s_asset_id s = assetId /\ s_version_id s = p
              /\ s_visibility s = vis)
             \/ (In s rows /\ ~ (s_asset_id s = assetId /\ s_version_id s = p))).
  { intros p vis rows s Hs. apply update_where_In in Hs.
    destruct Hs as (r & Hr & ->).
    destruct (String.eqb (s_asset_id r) assetId) eqn:E1;
      destruct (String.eqb (s_version_id r) p) eqn:E2; cbn [andb].
    - left. apply String.eqb_eq in E1, E2. cbn. auto.
    - right. split; [exact Hr|]. apply String.eqb_neq in E2. tauto.
    - right. split; [exact Hr|]. apply String.eqb_neq in E1. tauto.
    - right. split; [exact Hr|]. apply String.eqb_neq in E1. tauto. }
  assert (Hemb : forall (p : string) (vis : Visibility.t) rows e,
             In e (Postgres.update_where
                     (fun e => String.eqb (e_asset_id e) assetId
                               && String.eqb (e_version_id e) p)
                     (Postgres.set_embedding_visibility vis) rows) ->
             (e_asset_id e = assetId /\ e_version_id e = p
              /\ e_visibility e = vis)
             \/ (In e rows /\ ~ (e_asset_id e = assetId /\ e_version_id e = p))).
  { intros p vis rows e He. apply update_where_In in He.
    destruct He as (r & Hr & ->).
    destruct (String.eqb (e_asset_id r) assetId) eqn:E1;
      destruct (String.eqb (e_version_id r) p) eqn:E2; cbn [andb].
    - left. apply String.eqb_eq in E1, E2. cbn. auto.
    - right. split; [exact Hr|]. apply String.eqb_neq in E2. tauto.
    - right. split; [exact Hr|]. apply String.eqb_neq in E1. tauto.
    - right. split; [exact Hr|]. apply String.eqb_neq in E1. tauto. }
  assert (Hasset : forall rows a,
             In a (Postgres.update_where
                     (fun a => String.eqb (asset_id a) assetId)
                     (Postgres.apply_status AssetStatus.INDEXED no_options
                        (clock w))
                     (Postgres.update_where
                        (fun a => String.eqb (asset_id a) assetId)
                        (Postgres.set_current_row versionId (clock w)) rows)) ->
             asset_id a = assetId ->
             current_version_id a = Some versionId
             /\ status a = AssetStatus.INDEXED).
  { intros rows a Ha Hid. apply update_where_In in Ha.
    destruct Ha as (r & Hr & ->). apply update_where_In in Hr.
    destruct Hr as (r0 & _ & ->).
    destruct (String.eqb (asset_id r0) assetId) eqn:E.
    - cbn. rewrite E. cbn. auto.
    - rewrite E in *. apply String.eqb_neq in E. contradiction. }
  destruct prev as [p|]; [destruct (JS.truthy p) eqn:Ht|];
    repeat (cbn [io_fault with_stats with_db with_redis db redis clock stats];
            rewrite ?Hio);
    eexists; (split; [reflexivity|]);
    cbn [db redis stats with_stats with_db with_redis with_assets
         with_segments with_embeddings with_versions media_assets
         transcript_segments transcript_embeddings asset_versions];
    (split; [reflexivity|]); (split; [reflexivity|]);
    (split; [rewrite !update_where_map_key by reflexivity; reflexivity|]);
    (split; [apply Hasset|]).
  - (* a previous version was archived first *)
    split; [| split; [| split]].
    + intros s Hs Ha Hv. apply Hseg in Hs.
      destruct Hs as [(_ & _ & Hvis) | (_ & Hn)]; [exact Hvis | tauto].
    + intros e He Ha Hv. apply Hemb in He.
      destruct He as [(_ & _ & Hvis) | (_ & Hn)]; [exact Hvis | tauto].
    + intros p' s Hp Hne Hs Ha Hv. injection Hp as <-.
      apply Hseg in Hs. destruct Hs as [(_ & Hv' & _) | (Hs & _)].
      * congruence.
      * apply Hseg in Hs.
        destruct Hs as [(_ & _ & Hvis) | (_ & Hn)]; [exact Hvis | tauto].
    + intros p' e Hp Hne He Ha Hv. injection Hp as <-.
      apply Hemb in He. destruct He as [(_ & Hv' & _) | (He & _)].
      * congruence.
      * apply Hemb in He.
        destruct He as [(_ & _ & Hvis) | (_ & Hn)]; [exact Hvis | tauto].
  - split; [| split; [| split]]; try (intros ? ? Hp; discriminate Hp).
    + intros s Hs Ha Hv. apply Hseg in Hs.
      destruct Hs as [(_ & _ & Hvis) | (_ & Hn)]; [exact Hvis | tauto].
    + intros e He Ha Hv. apply Hemb in He.
      destruct He as [(_ & _ & Hvis) | (_ & Hn)]; [exact Hvis | tauto].
  - split; [| split; [| split]]; try (intros ? ? Hp; discriminate Hp).
    + intros s Hs Ha Hv. apply Hseg in Hs.
      destruct Hs as [(_ & _ & Hvis) | (_ & Hn)]; [exact Hvis | tauto].
    + intros e He Ha Hv. apply Hemb in He.
      destruct He as [(_ & _ & Hvis) | (_ & Hn)]; [exact Hvis | tauto].
Qed.


(** ** Remarks on the other paths *)

(** On the VAST adapter the options [triageState: null, lastError: null]
    of [retryAsset] leave the triage state and the last error of the
    asset in place. *)
Lemma vast_status_update_ignores_null :
  let a := Scenario.quarantined_asset (Some "v1") in
  let a' := VAST.apply_status AssetStatus.PENDING_RETRY
              (mkOpts (Some None) (Some None) (Some 0) None)
              (Scenario.T0 + 123) a in
  status a' = AssetStatus.PENDING_RETRY
  /\ attempt a' = 0
  /\ triage_state a' = Some TriageState.NEEDS_MEDIA_FIX
  /\ last_error a' = Some "corrupt stream".
Proof. vm_compute. repeat split; reflexivity. Qed.

(** The rounds given to [toString36] suffice: the loop has stopped by
    itself before they are used up, so more rounds change nothing. *)
Lemma toString36_aux_spare_round :
  forall (fuel : nat) (n : Z) (acc : string),
    (1 <= fuel)%nat -> 0 <= n < 2 ^ Z.of_nat fuel ->
    JS.toString36_aux (S fuel) n acc = JS.toString36_aux fuel n acc.
Proof.
  induction fuel as [| f IH]; intros n acc Hf Hn; [lia|].
  change (JS.toString36_aux (S (S f)) n acc)
    with (if n / 36 =? 0 then String (JS.digit36 (n mod 36)) acc
          else JS.toString36_aux (S f) (n / 36)
                 (String (JS.digit36 (n mod 36)) acc)).
  change (JS.toString36_aux (S f) n acc)
    with (if n / 36 =? 0 then String (JS.digit36 (n mod 36)) acc
          else JS.toString36_aux f (n / 36)
                 (String (JS.digit36 (n mod 36)) acc)).
  destruct (n / 36 =? 0) eqn:E; [reflexivity|].
  apply Z.eqb_neq in E.
  assert (H36 : 36 <= n).
  { destruct (Z_lt_le_dec n 36) as [Hlt | Hge]; [| exact Hge].
    exfalso. apply E. apply Z.div_small. lia. }
  destruct f as [| f'].
  { cbn in Hn. lia. }
  apply IH; [lia|].
  split; [apply Z.div_pos; lia|].
  apply Z.div_lt_upper_bound; [lia|].
  rewrite Nat2Z.inj_succ, Z.pow_succ_r in Hn by lia.
  assert (0 < 2 ^ Z.of_nat (S f')) by (apply Z.pow_pos_nonneg; lia).
  lia.
Qed.

Lemma toString36_fuel_suffices :
  forall (n : Z) (extra : nat),
    0 <= n ->
    JS.toString36_aux (extra + S (Z.to_nat (Z.log2 n))) n EmptyString
    = JS.toString36 n.
Proof.
  intros n extra Hn. unfold JS.toString36.
  assert (Hlt : n < 2 ^ Z.of_nat (S (Z.to_nat (Z.log2 n)))).
  { rewrite Nat2Z.inj_succ, Z2Nat.id by apply Z.log2_nonneg.
    destruct (Z.eq_dec n 0) as [-> | Hnz]; [reflexivity|].
    apply Z.log2_spec. lia. }
  induction extra as [| k IH]; [reflexivity|].
  cbn [Nat.add]. rewrite toString36_aux_spare_round; [exact IH | lia |].
  split; [exact Hn|].
  eapply Z.lt_le_trans; [exact Hlt|].
  apply Z.pow_le_mono_r; lia.
Qed.

Lemma digit36_value_digit36 :
  forall d, 0 <= d < 36 -> JS.digit36_value (JS.digit36 d) = d.
Proof.
  intros d Hd.
  assert (H : exists k : nat, (k < 36)%nat /\ d = Z.of_nat k).
  { exists (Z.to_nat d). split; lia. }
  destruct H as (k & Hk & ->). clear Hd.
  do 36 (destruct k as [| k]; [vm_compute; reflexivity|]).
  lia.
Qed.

(** Reading back what [toString36_aux] wrote in front of [acc]. *)
Lemma parse36_toString36_aux :
  forall (fuel : nat) (n : Z) (acc : string),
    (1 <= fuel)%nat -> 0 <= n < 2 ^ Z.of_nat fuel ->
    JS.parse36_from 0 (JS.toString36_aux fuel n acc) = JS.parse36_from n acc.
Proof.
  induction fuel as [| f IH]; intros n acc Hf Hn; [lia|].
  change (JS.toString36_aux (S f) n acc)
    with (if n / 36 =? 0 then String (JS.digit36 (n mod 36)) acc
          else JS.toString36_aux f (n / 36)
                 (String (JS.digit36 (n mod 36)) acc)).
  assert (Hmod : 0 <= n mod 36 < 36) by (apply Z.mod_pos_bound; lia).
  destruct (n / 36 =? 0) eqn:E.
  - apply Z.eqb_eq in E. cbn [JS.parse36_from].
    rewrite digit36_value_digit36 by exact Hmod.
    f_equal. pose proof (Z.div_mod n 36). lia.
  - apply Z.eqb_neq in E.
    assert (H36 : 36 <= n).
    { destruct (Z_lt_le_dec n 36) as [Hlt | Hge]; [| exact Hge].
      exfalso. apply E. apply Z.div_small. lia. }
    destruct f as [| f']; [cbn in Hn; lia|].
    rewrite IH.
    + cbn [JS.parse36_from].
      rewrite digit36_value_digit36 by exact Hmod.
      f_equal. pose proof (Z.div_mod n 36). lia.
    + lia.
    + split; [apply Z.div_pos; lia|].
      apply Z.div_lt_upper_bound; [lia|].
      rewrite Nat2Z.inj_succ, Z.pow_succ_r in Hn by lia.
      assert (0 < 2 ^ Z.of_nat (S f')) by (apply Z.pow_pos_nonneg; lia).
      lia.
Qed.

(** Round trip: the radix-36 rendering of a non-negative integer reads
    back as that integer. *)
Lemma parse36_toString36 :
  forall n, 0 <= n -> JS.parse36 (JS.toString36 n) = n.
Proof.
  intros n Hn. unfold JS.parse36, JS.toString36.
  rewrite parse36_toString36_aux; [reflexivity | lia |].
  split; [exact Hn|].
  rewrite Nat2Z.inj_succ, Z2Nat.id by apply Z.log2_nonneg.
  destruct (Z.eq_dec n 0) as [-> | Hnz]; [reflexivity|].
  apply Z.log2_spec. lia.
Qed.

Lemma string_app_inv_head :
  forall s a b : string, s ++ a = s ++ b -> a = b.
Proof.
  induction s as [| c t IH]; cbn; intros a b H; [exact H|].
  injection H as H. apply IH. exact H.
Qed.

(** X21. For the same etag, size and modification time, two readings of the
    clock give the same version id only when they are the same reading. *)
Lemma version_id_same_only_at_same_instant :
  forall (etag : string) (size mtime now1 now2 : Z),
    0 <= now1 -> 0 <= now2 ->
    computeVersionId etag size mtime now1
    = computeVersionId etag size mtime now2 ->
    now1 = now2.
Proof.
  intros etag size mtime now1 now2 H1 H2 H.
  rewrite !version_id_hash_part in H.
  apply string_app_inv_head in H. apply string_app_inv_head in H.
  apply string_app_inv_head in H.
  rewrite <- (parse36_toString36 now1 H1), <- (parse36_toString36 now2 H2).
  rewrite H. reflexivity.
Qed.

(* ===================================================================== *)
(** * Re-segmentation of the ASR output (asr.port.ts) *)
(* ===================================================================== *)

(** ** Fixed windows *)

Lemma window_segment_bounds :
  forall segs ws we r,
    Asr.window_segment segs ws we = Some r ->
    Asr.start_ms r = ws /\ Asr.end_ms r = we.
Proof.
  intros segs ws we r. unfold Asr.window_segment.
  destruct (filter (Asr.overlaps ws we) segs); [discriminate|].
  intro H. injection H as <-. split; reflexivity.
Qed.

Lemma window_segment_some :
  forall segs ws we s,
    In s segs -> Asr.overlaps ws we s = true ->
    exists r, Asr.window_segment segs ws we = Some r.
Proof.
  intros segs ws we s Hin Hov. unfold Asr.window_segment.
  destruct (filter (Asr.overlaps ws we) segs) as [| x l] eqn:E.
  - assert (H : In s (filter (Asr.overlaps ws we) segs))
      by (apply filter_In; split; assumption).
    rewrite E in H. destruct H.
  - eexists. reflexivity.
Qed.

(** The loop started at [ws] with a positive window: what it returns. *)
Lemma window_loop_spec :
  forall (f : nat) (segs : list (Asr.ASRSegment Z)) (w e ws : Z)
         (res : list (Asr.ASRSegment Z)),
    0 < w ->
    Asr.window_loop f segs w e ws = Some res ->
    (forall r, In r res ->
       ws <= Asr.start_ms r < Asr.end_ms r
       /\ Asr.end_ms r = Z.min (Asr.start_ms r + w) e
       /\ (w | Asr.start_ms r - ws)
       /\ Asr.window_segment segs (Asr.start_ms r) (Asr.end_ms r) = Some r)
    /\ StronglySorted (fun a b => Asr.end_ms a <= Asr.start_ms b) res
    /\ (forall s t, In s segs -> Asr.start_ms s <= t < Asr.end_ms s ->
          ws <= t < e ->
          exists r, In r res /\ Asr.start_ms r <= t < Asr.end_ms r
                    /\ Asr.overlaps (Asr.start_ms r) (Asr.end_ms r) s = true).
Proof.
  induction f as [| f IH]; intros segs w e ws res Hw H; cbn [Asr.window_loop] in H.
  - destruct (ws <? e) eqn:E; [discriminate|]. injection H as <-.
    apply Z.ltb_ge in E.
    split; [intros r []|]. split; [constructor|]. intros; lia.
  - destruct (ws <? e) eqn:E.
    2:{ injection H as <-. apply Z.ltb_ge in E.
        split; [intros r []|]. split; [constructor|]. intros; lia. }
    apply Z.ltb_lt in E.
    destruct (Asr.window_loop f segs w e (ws + w)) as [rest|] eqn:Hrest;
      [| discriminate].
    injection H as <-.
    destruct (IH segs w e (ws + w) rest Hw Hrest) as (Hgeo & Hsorted & Hcov).
    assert (Hrest_geo : forall r, In r rest ->
       ws <= Asr.start_ms r < Asr.end_ms r
       /\ Asr.end_ms r = Z.min (Asr.start_ms r + w) e
       /\ (w | Asr.start_ms r - ws)
       /\ Asr.window_segment segs (Asr.start_ms r) (Asr.end_ms r) = Some r).
    { intros r Hr. destruct (Hgeo r Hr) as (H1 & H2 & H3 & H4).
      repeat split; try lia; try assumption.
      replace (Asr.start_ms r - ws) with (Asr.start_ms r - (ws + w) + w) by lia.
      apply Z.divide_add_r; [exact H3 | apply Z.divide_refl]. }
    destruct (Asr.window_segment segs ws (Z.min (ws + w) e)) as [r0|] eqn:Hseg.
    + destruct (window_segment_bounds _ _ _ _ Hseg) as [Hs He].
      split; [| split].
      * intros r [<- | Hr]; [| apply Hrest_geo; exact Hr].
        rewrite Hs, He. repeat split; try lia.
        -- rewrite Z.sub_diag. apply Z.divide_0_r.
        -- exact Hseg.
      * constructor; [exact Hsorted|].
        apply Forall_forall. intros x Hx.
        destruct (Hgeo x Hx) as (H1 & _). lia.
      * intros s t Hin Ht Hrange.
        destruct (Z_lt_le_dec t (ws + w)) as [Hlt | Hge].
        -- exists r0. split; [left; reflexivity|]. rewrite Hs, He.
           split; [lia|]. unfold Asr.overlaps.
           apply andb_true_iff. split; apply Z.ltb_lt; lia.
        -- destruct (Hcov s t Hin Ht ltac:(lia)) as (r & Hr & Hr').
           exists r. split; [right; exact Hr | exact Hr'].
    + split; [exact Hrest_geo|]. split; [exact Hsorted|].
      intros s t Hin Ht Hrange.
      destruct (Z_lt_le_dec t (ws + w)) as [Hlt | Hge].
      * exfalso.
        destruct (window_segment_some segs ws (Z.min (ws + w) e) s Hin)
          as (r & Hr); [| congruence].
        unfold Asr.overlaps. apply andb_true_iff.
        split; apply Z.ltb_lt; lia.
      * destruct (Hcov s t Hin Ht ltac:(lia)) as (r & Hr & Hr').
        exists r. split; [exact Hr | exact Hr'].
Qed.

(** With a positive window the loop ends within [e - ws] rounds. *)
Lemma window_loop_returns :
  forall (f : nat) (segs : list (Asr.ASRSegment Z)) (w e ws : Z),
    0 < w -> e - ws <= Z.of_nat f ->
    exists res, Asr.window_loop f segs w e ws = Some res.
Proof.
  induction f as [| f IH]; intros segs w e ws Hw Hf; cbn [Asr.window_loop].
  - destruct (ws <? e) eqn:E; [apply Z.ltb_lt in E; lia|]. eexists; reflexivity.
  - destruct (ws <? e) eqn:E; [| eexists; reflexivity].
    destruct (IH segs w e (ws + w) Hw ltac:(lia)) as (rest & ->).
    eexists; reflexivity.
Qed.

(** More rounds than the loop needs change nothing. *)
Lemma window_loop_more_fuel :
  forall (f : nat) (segs : list (Asr.ASRSegment Z)) (w e ws : Z) res,
    Asr.window_loop f segs w e ws = Some res ->
    forall k, Asr.window_loop (f + k) segs w e ws = Some res.
Proof.
  induction f as [| f IH]; intros segs w e ws res H k.
  - cbn [Asr.window_loop] in H. destruct (ws <? e) eqn:E; [discriminate|].
    destruct k; cbn [Nat.add Asr.window_loop]; rewrite E; exact H.
  - cbn [Nat.add Asr.window_loop] in *. destruct (ws <? e); [| exact H].
    destruct (Asr.window_loop f segs w e (ws + w)) as [rest|] eqn:Hrest;
      [| discriminate].
    rewrite (IH _ _ _ _ _ Hrest k). exact H.
Qed.

(** X1. fixed windows tile the span. For a window of one millisecond or
    more [createFixedWindowSegments] returns; every segment it returns is
    a window that starts a whole number of windows after the start of the
    first input segment, is at most one window long, ends no later than
    the end of the last input segment, and the windows come in increasing
    order without overlap. *)
Theorem fixed_windows_tile_the_span :
  forall (segments : list (Asr.ASRSegment Z)) (w : Z),
    0 < w ->
    exists res,
      Asr.createFixedWindowSegments segments w = Some res
      /\ (forall r, In r res ->
            Asr.first_start segments <= Asr.start_ms r < Asr.end_ms r
            /\ Asr.end_ms r
               = Z.min (Asr.start_ms r + w) (Asr.last_end segments)
            /\ (w | Asr.start_ms r - Asr.first_start segments))
      /\ StronglySorted (fun a b => Asr.end_ms a <= Asr.start_ms b) res.
Proof.
  intros segments w Hw. unfold Asr.createFixedWindowSegments.
  destruct segments as [| s0 l].
  - exists []. split; [reflexivity|]. split; [intros r []| constructor].
  - cbn [Asr.first_start Asr.last_end].
    destruct (window_loop_returns
                (Z.to_nat (Asr.end_ms (last (s0 :: l) s0) - Asr.start_ms s0))
                (s0 :: l) w (Asr.end_ms (last (s0 :: l) s0)) (Asr.start_ms s0)
                Hw ltac:(lia)) as (res & Hres).
    exists res. split; [exact Hres|].
    destruct (window_loop_spec _ _ _ _ _ _ Hw Hres) as (Hgeo & Hsorted & _).
    split; [| exact Hsorted].
    intros r Hr. destruct (Hgeo r Hr) as (H1 & H2 & H3 & _).
    repeat split; try lia; assumption.
Qed.

Lemma fixed_windows_tile_the_span_witness :
  exists res,
    Asr.createFixedWindowSegments
      [Asr.mkASRSegment 0 3000 "a b" (Some "A") (9 # 10);
       Asr.mkASRSegment 3000 12000 "c" (Some "B") (8 # 10)] 5000 = Some res
    /\ (forall r, In r res ->
          0 <= Asr.start_ms r < Asr.end_ms r
          /\ Asr.end_ms r = Z.min (Asr.start_ms r + 5000) 12000
          /\ (5000 | Asr.start_ms r - 0))
    /\ StronglySorted (fun a b => Asr.end_ms a <= Asr.start_ms b) res.
Proof.
  exact (fixed_windows_tile_the_span
           [Asr.mkASRSegment 0 3000 "a b" (Some "A") (9 # 10);
            Asr.mkASRSegment 3000 12000 "c" (Some "B") (8 # 10)] 5000
           eq_refl).
Defined.

(** X2. no speech inside the span is lost. Every instant at which some
    input segment is spoken, between the start of the first segment and
    the end of the last, falls in a returned window; that segment is one
    of those the window was built from, and the window's text is the
    texts of the segments that overlap it, in input order, joined by
    single spaces and trimmed. *)
Theorem fixed_windows_cover_speech :
  forall (segments res : list (Asr.ASRSegment Z)) (w : Z)
         (s : Asr.ASRSegment Z) (t : Z),
    0 < w ->
    Asr.createFixedWindowSegments segments w = Some res ->
    In s segments ->
    Asr.start_ms s <= t < Asr.end_ms s ->
    Asr.first_start segments <= t < Asr.last_end segments ->
    exists r,
      In r res /\ Asr.start_ms r <= t < Asr.end_ms r
      /\ In s (filter (Asr.overlaps (Asr.start_ms r) (Asr.end_ms r)) segments)
      /\ Asr.text r
         = JS.trim (JS.join " "
             (map (@Asr.text Z)
                (filter (Asr.overlaps (Asr.start_ms r) (Asr.end_ms r))
                        segments))).
Proof.
  intros segments res w s t Hw Hres Hin Ht Hrange.
  unfold Asr.createFixedWindowSegments in Hres.
  destruct segments as [| s0 l]; [destruct Hin|].
  cbn [Asr.first_start Asr.last_end] in Hrange.
  destruct (window_loop_spec _ _ _ _ _ _ Hw Hres) as (Hgeo & _ & Hcov).
  destruct (Hcov s t Hin Ht Hrange) as (r & Hr & Hrt & Hov).
  exists r. split; [exact Hr|]. split; [exact Hrt|].
  split; [apply filter_In; split; assumption|].
  destruct (Hgeo r Hr) as (_ & _ & _ & Hseg).
  unfold Asr.window_segment in Hseg.
  destruct (filter (Asr.overlaps (Asr.start_ms r) (Asr.end_ms r)) (s0 :: l))
    as [| x xs]; [discriminate|].
  injection Hseg as Hseg. rewrite <- Hseg at 1. reflexivity.
Qed.

Lemma fixed_windows_cover_speech_witness :
  exists r,
    In r [Asr.mkASRSegment 0 3000 "a b" (Some "A") (9 # 10)]
    /\ Asr.start_ms r <= 1000 < Asr.end_ms r
    /\ In (Asr.mkASRSegment 0 3000 "a b" (Some "A") (9 # 10))
          (filter (Asr.overlaps (Asr.start_ms r) (Asr.end_ms r))
                  [Asr.mkASRSegment 0 3000 "a b" (Some "A") (9 # 10)])
    /\ Asr.text r
       = JS.trim (JS.join " "
           (map (@Asr.text Z)
              (filter (Asr.overlaps (Asr.start_ms r) (Asr.end_ms r))
                      [Asr.mkASRSegment 0 3000 "a b" (Some "A") (9 # 10)]))).
Proof.
  apply (fixed_windows_cover_speech
           [Asr.mkASRSegment 0 3000 "a b" (Some "A") (9 # 10)]
           [Asr.mkASRSegment 0 3000 "a b" (Some "A") (9 # 10)]
           5000 (Asr.mkASRSegment 0 3000 "a b" (Some "A") (9 # 10)) 1000).
  - reflexivity.
  - vm_compute. reflexivity.
  - left. reflexivity.
  - cbn. lia.
  - cbn. lia.
Defined.

(** X4. a window that cannot advance never ends. With a window of zero or
    less and a first segment that starts before the last one ends, the
    loop of [createFixedWindowSegments] is still running after any number
    of rounds: the call does not return. *)
Theorem fixed_windows_need_a_positive_window :
  forall (segments : list (Asr.ASRSegment Z)) (w : Z) (rounds : nat),
    w <= 0 ->
    Asr.first_start segments < Asr.last_end segments ->
    Asr.window_loop rounds segments w
      (Asr.last_end segments) (Asr.first_start segments) = None
    /\ Asr.createFixedWindowSegments segments w = None.
Proof.
  intros segments w rounds Hw Hspan.
  assert (H : forall f ws, ws < Asr.last_end segments ->
            Asr.window_loop f segments w (Asr.last_end segments) ws = None).
  { induction f as [| f IH]; intros ws Hws; cbn [Asr.window_loop];
      (destruct (ws <? Asr.last_end segments) eqn:E;
       [| apply Z.ltb_ge in E; lia]); [reflexivity|].
    rewrite IH by lia. reflexivity. }
  split; [apply H; exact Hspan|].
  destruct segments as [| s0 l]; [cbn in Hspan; lia|].
  unfold Asr.createFixedWindowSegments. apply H. exact Hspan.
Qed.

Lemma fixed_windows_need_a_positive_window_witness :
  Asr.window_loop 1000
    [Asr.mkASRSegment 0 3000 "a b" (Some "A") (9 # 10)] 0 3000 0 = None
  /\ Asr.createFixedWindowSegments
       [Asr.mkASRSegment 0 3000 "a b" (Some "A") (9 # 10)] 0 = None.
Proof.
  apply (fixed_windows_need_a_positive_window
           [Asr.mkASRSegment 0 3000 "a b" (Some "A") (9 # 10)] 0 1000).
  - lia.
  - cbn. lia.
Defined.

Section SortAscFacts.
Variable A : Type.
Variable key : A -> Z.

Lemma insert_asc_In :
  forall x l y, In y (Asr.insert_asc key x l) <-> y = x \/ In y l.
Proof.
  intros x l y. induction l as [| a t IH]; cbn.
  - intuition.
  - destruct (key x <=? key a); cbn; [intuition|]. rewrite IH. intuition.
Qed.

Lemma sort_asc_In :
  forall l y, In y (Asr.sort_asc key l) <-> In y l.
Proof.
  intros l y. induction l as [| a t IH]; cbn; [reflexivity|].
  rewrite insert_asc_In, IH. intuition.
Qed.

Lemma insert_asc_sorted :
  forall x l,
    StronglySorted (fun a b => key a <= key b) l ->
    StronglySorted (fun a b => key a <= key b) (Asr.insert_asc key x l).
Proof.
  intros x l H. induction H as [| a t Ht IH Ha]; cbn.
  - constructor; [constructor | constructor].
  - destruct (key x <=? key a) eqn:E.
    + apply Z.leb_le in E. constructor; [constructor; assumption|].
      constructor; [exact E|].
      rewrite Forall_forall in Ha |- *. intros y Hy.
      specialize (Ha y Hy). lia.
    + apply Z.leb_gt in E. constructor; [exact IH|].
      apply Forall_forall. intros y Hy.
      apply insert_asc_In in Hy. destruct Hy as [-> | Hy]; [lia|].
      rewrite Forall_forall in Ha. apply Ha. exact Hy.
Qed.

Lemma sort_asc_sorted :
  forall l, StronglySorted (fun a b => key a <= key b) (Asr.sort_asc key l).
Proof.
  induction l as [| a t IH]; cbn; [constructor|].
  apply insert_asc_sorted. exact IH.
Qed.
End SortAscFacts.

Lemma pop_cons :
  forall a b t, JS.pop (a :: b :: t) = JS.pop (b :: t).
Proof.
  intros a b t. unfold JS.pop. cbn [rev].
  destruct (rev t ++ [b])%list as [| y r] eqn:E.
  - destruct (rev t); discriminate.
  - reflexivity.
Qed.

Lemma pop_of_sorted :
  forall (key : string -> Z) (l : list string) (x : string),
    StronglySorted (fun a b => key a <= key b) l ->
    JS.pop l = Some x ->
    In x l /\ forall y, In y l -> key y <= key x.
Proof.
  intros key l x H. induction H as [| a t Ht IH Ha]; intro Hpop.
  - discriminate.
  - destruct t as [| b t'].
    + injection Hpop as <-. split; [left; reflexivity|].
      intros y [<- | []]. lia.
    + rewrite pop_cons in Hpop. destruct (IH Hpop) as [Hin Hmax].
      split; [right; exact Hin|].
      intros y [<- | Hy]; [| apply Hmax; exact Hy].
      rewrite Forall_forall in Ha. apply Ha. exact Hin.
Qed.

Lemma most_common_speaker_spec :
  forall (speakers : list string),
    match Asr.most_common_speaker speakers with
    | None => speakers = []
    | Some x =>
        In x speakers
        /\ forall y, In y speakers ->
             Asr.count_of speakers y <= Asr.count_of speakers x
    end.
Proof.
  intro speakers. unfold Asr.most_common_speaker.
  destruct speakers as [| s0 l]; [reflexivity|].
  set (sp := s0 :: l).
  destruct (JS.pop (Asr.sort_asc (Asr.count_of sp) sp)) as [x|] eqn:E.
  - destruct (pop_of_sorted (Asr.count_of sp) _ x
                (sort_asc_sorted _ (Asr.count_of sp) sp) E) as [Hin Hmax].
    split; [apply sort_asc_In in Hin; exact Hin|].
    intros y Hy. apply Hmax. apply sort_asc_In. exact Hy.
  - exfalso. unfold JS.pop in E.
    destruct (rev (Asr.sort_asc (Asr.count_of sp) sp)) as [| y r] eqn:R;
      [| discriminate].
    assert (Hin : In s0 (Asr.sort_asc (Asr.count_of sp) sp))
      by (apply sort_asc_In; left; reflexivity).
    apply in_rev in Hin. rewrite R in Hin. destruct Hin.
Qed.

(** X3. the speaker of a window. The speaker given to a returned window is
    one that is named (not null, not empty) on the most segments among
    those overlapping the window; it is null exactly when no overlapping
    segment names a speaker. *)
Theorem fixed_window_speaker_is_most_common :
  forall (segments res : list (Asr.ASRSegment Z)) (w : Z)
         (r : Asr.ASRSegment Z),
    0 < w ->
    Asr.createFixedWindowSegments segments w = Some res ->
    In r res ->
    let speakers :=
      Asr.named_speakers
        (filter (Asr.overlaps (Asr.start_ms r) (Asr.end_ms r)) segments) in
    match Asr.speaker r with
    | None => speakers = []
    | Some x =>
        In x speakers
        /\ forall y, In y speakers ->
             Asr.count_of speakers y <= Asr.count_of speakers x
    end.
Proof.
  intros segments res w r Hw Hres Hr.
  unfold Asr.createFixedWindowSegments in Hres.
  destruct segments as [| s0 l].
  { injection Hres as <-. destruct Hr. }
  destruct (window_loop_spec _ _ _ _ _ _ Hw Hres) as (Hgeo & _ & _).
  destruct (Hgeo r Hr) as (_ & _ & _ & Hseg).
  unfold Asr.window_segment in Hseg. cbv zeta.
  destruct (filter (Asr.overlaps (Asr.start_ms r) (Asr.end_ms r)) (s0 :: l))
    as [| x xs]; [discriminate|].
  apply (f_equal (option_map (@Asr.speaker Z))) in Hseg.
  cbn [option_map Asr.speaker] in Hseg. injection Hseg as Hseg.
  rewrite <- Hseg. apply most_common_speaker_spec.
Qed.

Lemma fixed_window_speaker_is_most_common_witness :
  let r := Asr.mkASRSegment 0 5000 "a b c" (Some "B") (2700 # 3000) in
  let speakers :=
    Asr.named_speakers
      (filter (Asr.overlaps (Asr.start_ms r) (Asr.end_ms r))
         [Asr.mkASRSegment 0 1000 "a" (Some "B") (9 # 10);
          Asr.mkASRSegment 1000 2000 "b" (Some "A") (9 # 10);
          Asr.mkASRSegment 2000 5000 "c" (Some "B") (9 # 10)]) in
  match Asr.speaker r with
  | None => speakers = []
  | Some x =>
      In x speakers
      /\ forall y, In y speakers ->
           Asr.count_of speakers y <= Asr.count_of speakers x
  end.
Proof.
  apply (fixed_window_speaker_is_most_common
           [Asr.mkASRSegment 0 1000 "a" (Some "B") (9 # 10);
            Asr.mkASRSegment 1000 2000 "b" (Some "A") (9 # 10);
            Asr.mkASRSegment 2000 5000 "c" (Some "B") (9 # 10)]
           [Asr.mkASRSegment 0 5000 "a b c" (Some "B") (2700 # 3000)]
           5000).
  - reflexivity.
  - vm_compute. reflexivity.
  - left. reflexivity.
Defined.

(** ** Bucket notifications by polling *)

Lemma set_has_In :
  forall k set, S3Notifications.set_has k set = true <-> In k set.
Proof.
  intros k set. unfold S3Notifications.set_has. rewrite existsb_exists.
  split.
  - intros (x & Hx & E). apply String.eqb_eq in E. subst. exact Hx.
  - intro H. exists k. split; [exact H | apply String.eqb_refl].
Qed.

Lemma set_add_In :
  forall set k x,
    In x (S3Notifications.set_add set k) <-> In x set \/ x = k.
Proof.
  intros set k x. unfold S3Notifications.set_add.
  destruct (S3Notifications.set_has k set) eqn:E.
  - apply set_has_In in E. split; [intro H; left; exact H|].
    intros [H | ->]; assumption.
  - rewrite in_app_iff. cbn. intuition.
Qed.

Lemma new_Set_from_In :
  forall keys acc x,
    In x (fold_left S3Notifications.set_add keys acc) <-> In x acc \/ In x keys.
Proof.
  induction keys as [| k t IH]; intros acc x; cbn [fold_left].
  - cbn. intuition.
  - rewrite IH, set_add_In. cbn. intuition.
Qed.

Lemma new_Set_In :
  forall keys x, In x (S3Notifications.new_Set keys) <-> In x keys.
Proof.
  intros keys x. unfold S3Notifications.new_Set.
  rewrite new_Set_from_In. cbn. intuition.
Qed.

Lemma flat_map_nil :
  forall (A B : Type) (f : A -> list B) (l : list A),
    (forall x, In x l -> f x = []) -> flat_map f l = [].
Proof.
  intros A B f l H. induction l as [| a t IH]; [reflexivity|].
  cbn. rewrite (H a (or_introl eq_refl)). apply IH.
  intros x Hx. apply H. right. exact Hx.
Qed.

(** X8. The events of a poll are exactly the differences between the keys
    listed and the keys known: an ObjectCreated event is raised for a key
    if and only if the key is listed and was not known, an ObjectRemoved
    event if and only if the key was known and is no longer listed; and
    the bucket of every event is the polled one. *)
Theorem poll_events_are_the_key_differences :
  forall (bkt : string) (current : list S3Notifications.ObjectInfo)
         (known : list string) (now : Z) (k : string),
    let events :=
      fst (S3Notifications.checkForChanges bkt current (Some known) now) in
    ((exists e, In e events
                /\ S3Notifications.event_type e = S3Notifications.OBJECT_CREATED
                /\ S3Notifications.ev_object_key e = k)
     <-> (In k (map S3Notifications.key current) /\ ~ In k known))
    /\ ((exists e, In e events
                   /\ S3Notifications.event_type e = S3Notifications.OBJECT_REMOVED
                   /\ S3Notifications.ev_object_key e = k)
        <-> (In k known /\ ~ In k (map S3Notifications.key current)))
    /\ (forall e, In e events -> S3Notifications.ev_bucket e = bkt).
Proof.
  intros bkt current known now k events. subst events.
  unfold S3Notifications.checkForChanges. cbn [fst].
  unfold S3Notifications.created_events, S3Notifications.removed_events.
  split; [| split].
  - split.
    + intros (e & He & Hty & Hk). apply in_app_iff in He.
      destruct He as [He | He]; apply in_flat_map in He;
        destruct He as (x & Hx & He).
      * destruct (S3Notifications.set_has (S3Notifications.key x) known) eqn:E;
          cbn [negb] in He; [destruct He|].
        destruct He as [<- | []]. cbn in Hk. subst k.
        split; [apply in_map; exact Hx|].
        intro Hin. apply set_has_In in Hin. congruence.
      * destruct (S3Notifications.set_has x _); cbn [negb] in He;
          [destruct He|]. destruct He as [<- | []]. discriminate.
    + intros (Hin & Hnot). apply in_map_iff in Hin.
      destruct Hin as (obj & <- & Hobj).
      eexists. split.
      * apply in_app_iff. left. apply in_flat_map. exists obj.
        split; [exact Hobj|].
        destruct (S3Notifications.set_has (S3Notifications.key obj) known) eqn:E;
          [apply set_has_In in E; destruct (Hnot E)|].
        left. reflexivity.
      * split; reflexivity.
  - split.
    + intros (e & He & Hty & Hk). apply in_app_iff in He.
      destruct He as [He | He]; apply in_flat_map in He;
        destruct He as (x & Hx & He).
      * destruct (S3Notifications.set_has _ known); cbn [negb] in He;
          [destruct He|]. destruct He as [<- | []]. discriminate.
      * destruct (S3Notifications.set_has x _) eqn:E; cbn [negb] in He;
          [destruct He|]. destruct He as [<- | []]. cbn in Hk. subst x.
        split; [exact Hx|]. intro Hin.
        apply (proj2 (new_Set_In _ _)) in Hin.
        apply (proj2 (set_has_In _ _)) in Hin. congruence.
    + intros (Hin & Hnot). eexists. split.
      * apply in_app_iff. right. apply in_flat_map. exists k.
        split; [exact Hin|].
        destruct (S3Notifications.set_has k _) eqn:E.
        -- apply set_has_In in E. apply (proj1 (new_Set_In _ _)) in E.
           destruct (Hnot E).
        -- left. reflexivity.
      * split; reflexivity.
  - intros e He. apply in_app_iff in He.
    destruct He as [He | He]; apply in_flat_map in He;
      destruct He as (x & Hx & He).
    + destruct (S3Notifications.set_has _ known); cbn [negb] in He;
        [destruct He|]. destruct He as [<- | []]. reflexivity.
    + destruct (S3Notifications.set_has x _); cbn [negb] in He;
        [destruct He|]. destruct He as [<- | []]. reflexivity.
Qed.

(** X9. An object replaced under its key raises no event. After a poll, or
    after the subscription, a listing with the same keys gives no event
    at all, whatever the etags, sizes and modification times it carries:
    polling sees a new object and a removed object, never an overwritten
    one. *)
Theorem poll_does_not_see_overwrites :
  forall (bkt : string) (before after : list S3Notifications.ObjectInfo)
         (known : option (list string)) (now now' : Z),
    map S3Notifications.key after = map S3Notifications.key before ->
    fst (S3Notifications.checkForChanges bkt after
           (Some (snd (S3Notifications.checkForChanges bkt before known now)))
           now') = []
    /\ fst (S3Notifications.checkForChanges bkt after
              (Some (S3Notifications.subscribed_keys before)) now') = [].
Proof.
  intros bkt before after known now now' Hkeys.
  assert (H : fst (S3Notifications.checkForChanges bkt after
                     (Some (S3Notifications.new_Set
                              (map S3Notifications.key before))) now') = []).
  { unfold S3Notifications.checkForChanges. cbn [fst].
    unfold S3Notifications.created_events, S3Notifications.removed_events.
    rewrite Hkeys.
    rewrite flat_map_nil, flat_map_nil; [reflexivity | |].
    - intros x Hx.
      destruct (S3Notifications.set_has x _) eqn:E; [reflexivity|].
      apply set_has_In in Hx. congruence.
    - intros obj Hobj.
      destruct (S3Notifications.set_has (S3Notifications.key obj) _) eqn:E;
        [reflexivity|].
      assert (Hin : In (S3Notifications.key obj)
                       (S3Notifications.new_Set (map S3Notifications.key before))).
      { apply new_Set_In. rewrite <- Hkeys. apply in_map. exact Hobj. }
      apply set_has_In in Hin. congruence. }
  split; exact H.
Qed.

Lemma poll_does_not_see_overwrites_witness :
  let before := [S3Notifications.mkObjectInfo "hello.wav" 1024 1 "E1"] in
  let after := [S3Notifications.mkObjectInfo "hello.wav" 2048 2 "E2"] in
  fst (S3Notifications.checkForChanges "media" after
         (Some (snd (S3Notifications.checkForChanges "media" before None 5)))
         9) = []
  /\ fst (S3Notifications.checkForChanges "media" after
            (Some (S3Notifications.subscribed_keys before)) 9) = [].
Proof.
  apply (poll_does_not_see_overwrites "media"
           [S3Notifications.mkObjectInfo "hello.wav" 1024 1 "E1"]
           [S3Notifications.mkObjectInfo "hello.wav" 2048 2 "E2"]
           None 5 9).
  reflexivity.
Defined.

(** ** Ingest of a created object *)


Lemma find_none_existsb :
  forall (A : Type) (p : A -> bool) (l : list A),
    find p l = None -> existsb p l = false.
Proof.
  intros A p l. induction l as [| a t IH]; cbn; [reflexivity|].
  destruct (p a); [discriminate | exact IH].
Qed.

Lemma find_some_existsb :
  forall (A : Type) (p : A -> bool) (l : list A) (x : A),
    find p l = Some x -> existsb p l = true.
Proof.
  intros A p l x. induction l as [| a t IH]; cbn; [discriminate|].
  destruct (p a); [reflexivity | exact IH].
Qed.

(** X10. The first ingest of an object. For a supported key that is in the
    object store and has no asset yet, and with the generated ids unused,
    [handleObjectCreated] adds exactly one asset row (INGESTED, no current
    version, not tombstoned), one version row (STAGING) under the computed
    version id and one job (attempt 0, idempotency key
    asset:version:0) to the queue, and leaves the transcript tables and
    the dead-letter queue as they were. *)
Theorem first_ingest_creates_asset_version_and_job :
  forall (bkt key : string) (etag : option string) (size : option Z)
         (meta : ObjectMetadata) (w : World),
    io_fault w = None ->
    isSupportedMediaFormat key = true ->
    Storage.lookup bkt key (objects w) = Some meta ->
    asset_by_key w bkt key = None ->
    let assetId := "uuid-" ++ JS.num (Z.of_nat (uuid_next w)) in
    let lineageId := "uuid-" ++ JS.num (Z.of_nat (S (uuid_next w))) in
    let jobId := "uuid-" ++ JS.num (Z.of_nat (S (S (uuid_next w)))) in
    let etag' := fst (Ingest.etag_and_size etag size meta) in
    let size' := snd (Ingest.etag_and_size etag size meta) in
    let versionId :=
      computeVersionId etag' size' (m_lastModified meta) (clock w) in
    asset_by_id w assetId = None ->
    version_by_id w versionId = None ->
    LocalQueue.has_job jobId (queue (redis w)) = false ->
    exists w' eng,
      Ingest.handleObjectCreated bkt key etag size w = (Ok tt, w')
      /\ Ingest.selectEngine w = (Ok eng, w)
      /\ media_assets (db w')
         = (media_assets (db w)
            ++ [mkAsset assetId lineageId bkt key None AssetStatus.INGESTED
                        None None eng None 0 (clock w) (clock w) size'
                        (m_contentType meta) etag' false None None])%list
      /\ asset_versions (db w')
         = (asset_versions (db w)
            ++ [mkVersion versionId assetId AssetStatus.INGESTED
                          Visibility.STAGING (clock w) etag' size'])%list
      /\ queue (redis w')
         = (queue (redis w)
            ++ [mkBull jobId jobId
                  (mkJob jobId assetId versionId
                     (mkPolicy eng true ExecutionMode.GPU 300 None) 0
                     (assetId ++ ":" ++ versionId ++ ":0")
                     (clock w) (clock w))
                  0 None None])%list
      /\ dlqQueue (redis w') = dlqQueue (redis w)
      /\ transcript_segments (db w') = transcript_segments (db w)
      /\ transcript_embeddings (db w') = transcript_embeddings (db w).
Proof.
  intros bkt key etag size meta w Hio Hfmt Hmeta Hkey
         assetId lineageId jobId etag' size' versionId Hid Hver Hjob.
  unfold asset_by_key in Hkey. unfold asset_by_id in Hid.
  unfold version_by_id in Hver.
  destruct w as [[assets versions segs embs] [q dq] objs e1 e2 c u rd f st].
  cbn [db redis objects clock uuid_next io_fault stats env_ASR_ENGINE
       env_BACKEND media_assets asset_versions transcript_segments
       transcript_embeddings queue dlqQueue] in *.
  subst f.
  assert (Hsame : forall a,
            bucket a = bkt -> object_key a = key ->
            find (Postgres.same_key a) assets = None).
  { intros a Hb Hk. rewrite <- Hkey. clear - Hb Hk.
    induction assets as [| x t IH]; [reflexivity|].
    cbn [find]. unfold Postgres.same_key at 1. rewrite Hb, Hk.
    rewrite (String.eqb_sym bkt), (String.eqb_sym key).
    destruct (String.eqb (bucket x) bkt && String.eqb (object_key x) key);
      [reflexivity | exact IH]. }
  unfold Ingest.handleObjectCreated. rewrite Hfmt. cbn [negb].
  unfold Storage.getObjectMetadata, Date_now, Postgres.getAssetByKey,
    Postgres.beginTransaction, Postgres.execute, try_catch, bind, io, get,
    ret.
  run_world. rewrite Hmeta. run_world. rewrite Hkey. run_world.
  fold etag' size'. fold versionId.
  unfold randomUUID, Ingest.selectEngine, Postgres.upsertAsset,
    Ingest.create_version_and_job, Postgres.createVersion,
    LocalQueue.enqueueJob, Date_now, bind, io, get, modify, ret, throw.
  run_world. fold assetId lineageId.
  rewrite Hsame by reflexivity. run_world.
  cbn [asset_id]. rewrite (find_none_existsb _ _ _ Hid). run_world.
  cbn [v_version_id]. rewrite (find_none_existsb _ _ _ Hver). run_world.
  cbn [v_asset_id Postgres.stamp_inserted asset_id].
  rewrite existsb_app. cbn [existsb asset_id]. rewrite String.eqb_refl.
  rewrite orb_true_r. run_world.
  cbn [transcription_engine]. fold jobId.
  eexists. eexists.
  split; [reflexivity|].
  split; [reflexivity|].
  run_world.
  split; [reflexivity|]. split; [reflexivity|].
  split; [| repeat split; reflexivity].
  rewrite bull_add_fresh by exact Hjob. reflexivity.
Qed.

Lemma first_ingest_creates_asset_version_and_job_witness :
  exists w' eng,
    Ingest.handleObjectCreated "media" "hello.wav" None None
      Scenario.fresh_world = (Ok tt, w')
    /\ Ingest.selectEngine Scenario.fresh_world
       = (Ok eng, Scenario.fresh_world)
    /\ length (media_assets (db w')) = 1%nat
    /\ length (asset_versions (db w')) = 1%nat
    /\ length (queue (redis w')) = 1%nat.
Proof.
  destruct (first_ingest_creates_asset_version_and_job
              "media" "hello.wav" None None Scenario.hello_meta
              Scenario.fresh_world
              eq_refl eq_refl eq_refl eq_refl eq_refl eq_refl eq_refl)
    as (w' & eng & H1 & H2 & H3 & H4 & H5 & _).
  exists w', eng. rewrite H3, H4, H5.
  repeat split; try assumption; reflexivity.
Defined.

(** X11. A new version of a known object. When the key already has an asset
    and the computed version id is new, [handleObjectCreated] adds one
    version row (STAGING) and one job for that asset and changes nothing
    else: the asset row keeps its current-version pointer, status, etag
    and tombstone flag, and the transcript tables are untouched, so what
    was searchable before is searchable after. *)
Theorem ingest_of_new_version_leaves_asset_untouched :
  forall (bkt key : string) (etag : option string) (size : option Z)
         (meta : ObjectMetadata) (a : MediaAsset) (w : World),
    io_fault w = None ->
    isSupportedMediaFormat key = true ->
    Storage.lookup bkt key (objects w) = Some meta ->
    asset_by_key w bkt key = Some a ->
    let jobId := "uuid-" ++ JS.num (Z.of_nat (uuid_next w)) in
    let etag' := fst (Ingest.etag_and_size etag size meta) in
    let size' := snd (Ingest.etag_and_size etag size meta) in
    let versionId :=
      computeVersionId etag' size' (m_lastModified meta) (clock w) in
    version_by_id w versionId = None ->
    LocalQueue.has_job jobId (queue (redis w)) = false ->
    exists w',
      Ingest.handleObjectCreated bkt key etag size w = (Ok tt, w')
      /\ media_assets (db w') = media_assets (db w)
      /\ asset_versions (db w')
         = (asset_versions (db w)
            ++ [mkVersion versionId (asset_id a) AssetStatus.INGESTED
                          Visibility.STAGING (clock w) etag' size'])%list
      /\ queue (redis w')
         = (queue (redis w)
            ++ [mkBull jobId jobId
                  (mkJob jobId (asset_id a) versionId
                     (mkPolicy (transcription_engine a) true
                               ExecutionMode.GPU 300 None) 0
                     (asset_id a ++ ":" ++ versionId ++ ":0")
                     (clock w) (clock w))
                  0 None None])%list
      /\ dlqQueue (redis w') = dlqQueue (redis w)
      /\ transcript_segments (db w') = transcript_segments (db w)
      /\ transcript_embeddings (db w') = transcript_embeddings (db w).
Proof.
  intros bkt key etag size meta a w Hio Hfmt Hmeta Hkey
         jobId etag' size' versionId Hver Hjob.
  unfold asset_by_key in Hkey. unfold version_by_id in Hver.
  destruct w as [[assets versions segs embs] [q dq] objs e1 e2 c u rd f st].
  cbn [db redis objects clock uuid_next io_fault stats env_ASR_ENGINE
       env_BACKEND media_assets asset_versions transcript_segments
       transcript_embeddings queue dlqQueue] in *.
  subst f.
  assert (Hfk : existsb (fun r => String.eqb (asset_id r) (asset_id a))
                        assets = true).
  { apply find_some in Hkey. destruct Hkey as [Hin _].
    apply existsb_exists. exists a. split; [exact Hin|].
    apply String.eqb_refl. }
  unfold Ingest.handleObjectCreated. rewrite Hfmt. cbn [negb].
  unfold Storage.getObjectMetadata, Date_now, Postgres.getAssetByKey,
    Postgres.beginTransaction, Postgres.execute, Postgres.getVersion,
    try_catch, bind, io, get, ret.
  run_world. rewrite Hmeta. run_world. rewrite Hkey. run_world.
  fold etag' size'. fold versionId.
  rewrite Hver. run_world.
  unfold randomUUID, Ingest.create_version_and_job, Postgres.createVersion,
    LocalQueue.enqueueJob, Date_now, bind, io, get, modify, ret, throw.
  run_world.
  cbn [v_version_id]. rewrite (find_none_existsb _ _ _ Hver). run_world.
  cbn [v_asset_id]. rewrite Hfk. run_world.
  fold jobId.
  eexists. split; [reflexivity|]. run_world.
  split; [reflexivity|]. split; [reflexivity|].
  split; [| repeat split; reflexivity].
  rewrite bull_add_fresh by exact Hjob. reflexivity.
Qed.

Lemma ingest_of_new_version_leaves_asset_untouched_witness :
  exists w',
    Ingest.handleObjectCreated "media" "hello.wav" (Some "E2") (Some 2048)
      Scenario.overwrite_world = (Ok tt, w')
    /\ media_assets (db w') = media_assets (db Scenario.overwrite_world)
    /\ transcript_segments (db w')
       = transcript_segments (db Scenario.overwrite_world).
Proof.
  destruct (ingest_of_new_version_leaves_asset_untouched
              "media" "hello.wav" (Some "E2") (Some 2048) Scenario.hello_meta
              (Scenario.asset_a1 (Some "v1") AssetStatus.INDEXED)
              Scenario.overwrite_world
              eq_refl eq_refl eq_refl eq_refl eq_refl eq_refl)
    as (w' & H1 & H2 & _ & _ & _ & H6 & _).
  exists w'. repeat split; assumption.
Defined.

(** ** The asset table *)







(** ** The job queue *)

(** X13. Enqueue and acknowledge. A job whose id the queue does not hold is
    added by [enqueueJob] and removed again by [ackJob] under that id,
    which leaves both queues and the tables as they were before;
    acknowledging an id that the queue does not hold changes nothing. *)
Theorem enqueue_then_ack_restores_the_queue :
  forall (job : TranscriptionJob) (w : World),
    io_fault w = None ->
    LocalQueue.has_job (job_id job) (queue (redis w)) = false ->
    LocalQueue.ackJob (job_id job) w = (Ok tt, w)
    /\ exists w1 w2,
         LocalQueue.enqueueJob job w = (Ok tt, w1)
         /\ LocalQueue.has_job (job_id job) (queue (redis w1)) = true
         /\ LocalQueue.ackJob (job_id job) w1 = (Ok tt, w2)
         /\ w2 = w.
Proof.
  intros job w Hio Hfresh.
  destruct w as [d [q dq] objs e1 e2 c u rd f st].
  cbn [io_fault redis queue] in *. subst f.
  split.
  - unfold LocalQueue.ackJob, bind, io, get, ret. run_world.
    rewrite Hfresh. reflexivity.
  - assert (Hhas : LocalQueue.has_job (job_id job)
                     (q ++ [mkBull (job_id job) (job_id job) job 0 None None])
                   = true).
    { apply has_job_In. eexists. split; [apply in_or_app; right; left;
                                         reflexivity | reflexivity]. }
    eexists. eexists. split.
    { unfold LocalQueue.enqueueJob, bind, io, modify. run_world.
      unfold with_redis, with_queue. run_world.
      rewrite (bull_add_fresh
                 (mkBull (job_id job) (job_id job) job 0 None None) q Hfresh).
      reflexivity. }
    run_world. split; [exact Hhas|].
    unfold LocalQueue.ackJob, bind, io, get, modify, ret. run_world.
    rewrite Hhas. run_world. unfold with_redis, with_queue. run_world.
    unfold LocalQueue.bull_remove. rewrite filter_app. cbn [filter b_id].
    rewrite String.eqb_refl. cbn [negb]. rewrite app_nil_r.
    fold (LocalQueue.bull_remove (job_id job) q).
    rewrite (bull_remove_absent _ _ Hfresh). split; reflexivity.
Qed.

Lemma enqueue_then_ack_restores_the_queue_witness :
  LocalQueue.ackJob "job-1" Scenario.fresh_world = (Ok tt, Scenario.fresh_world)
  /\ exists w1 w2,
       LocalQueue.enqueueJob Scenario.job1 Scenario.fresh_world = (Ok tt, w1)
       /\ LocalQueue.has_job "job-1" (queue (redis w1)) = true
       /\ LocalQueue.ackJob "job-1" w1 = (Ok tt, w2)
       /\ w2 = Scenario.fresh_world.
Proof.
  apply (enqueue_then_ack_restores_the_queue Scenario.job1
           Scenario.fresh_world); reflexivity.
Defined.

(** ** Status updates of the two database adapters *)

(** X14. The VAST adapter never clears a column. Whatever options
    [updateAssetStatus] is given, the row written by the VAST adapter
    keeps a triage state, last error and recommended action wherever the
    row had one; the row that the PostgreSQL adapter's UPDATE builds for
    the options of [retryAsset] (triage state and last error null) has
    both cleared. *)
Theorem vast_status_update_never_clears :
  forall (st : AssetStatus.t) (o : StatusOptions) (now : Z) (a : MediaAsset),
    (triage_state a <> None ->
     triage_state (VAST.apply_status st o now a) <> None)
    /\ (last_error a <> None ->
        last_error (VAST.apply_status st o now a) <> None)
    /\ (recommended_action a <> None ->
        recommended_action (VAST.apply_status st o now a) <> None)
    /\ status (VAST.apply_status st o now a) = st
    /\ triage_state (Postgres.apply_status st
                       (mkOpts (Some None) (Some None) (Some 0) None) now a)
       = None
    /\ last_error (Postgres.apply_status st
                     (mkOpts (Some None) (Some None) (Some 0) None) now a)
       = None.
Proof.
  intros st [ts le at_ ra] now a.
  unfold VAST.apply_status, VAST.truthy_or_keep, Postgres.apply_status.
  cbn [triage_state last_error recommended_action status o_triageState
       o_lastError o_recommendedAction o_attempt Postgres.or_keep].
  repeat split.
  - intro H. destruct ts as [[t|]|]; [discriminate | exact H | exact H].
  - intro H. destruct le as [[s|]|]; try exact H.
    destruct (JS.truthy s); [discriminate | exact H].
  - intro H. destruct ra as [[s|]|]; try exact H.
    destruct (JS.truthy s); [discriminate | exact H].
Qed.

(** ** Bounds of the retry delay *)

(** X15. The delay between retries is bounded. For an attempt number from 0
    on, [calculateBackoffDelay] waits between 750 ms and 375 s; from the
    ninth attempt on the cap of 300 s applies, so at least 225 s; and an
    attempt number below [MAX_RETRY_ATTEMPTS], the only ones the
    orchestrator retries with, never waits more than 20 s: the cap is out
    of its reach. *)
Theorem backoff_delay_bounds :
  forall (n : Z) (r : Q),
    0 <= n -> (0 <= r)%Q -> (r < 1)%Q ->
    750 <= calculateBackoffDelay n r <= 375000
    /\ (1 <= n -> 1500 <= calculateBackoffDelay n r)
    /\ (9 <= n -> 225000 <= calculateBackoffDelay n r)
    /\ (n < MAX_RETRY_ATTEMPTS -> calculateBackoffDelay n r <= 20000).
Proof.
  intros n r Hn Hr0 Hr1.
  destruct (backoff_within_quarter n r Hn Hr0 Hr1) as [Hlo Hhi].
  pose proof (capped_delay_integral n Hn) as Hc.
  change (Qmin (1000 * Qpower 2 n) 300000)
    with (Qmin (inject_Z 1000 * Qpower 2 n) (inject_Z 300000)) in Hlo, Hhi.
  rewrite Hc in Hlo, Hhi.
  set (m := Z.min (250 * 2 ^ n) 75000) in *.
  set (d := calculateBackoffDelay n r) in *.
  assert (Hlo' : 3 * m <= d).
  { rewrite Zle_Qle. rewrite inject_Z_mult in *.
    change (inject_Z 3) with 3%Q. change (inject_Z 4) with 4%Q in *. lra. }
  assert (Hhi' : d <= 5 * m).
  { rewrite Zle_Qle. rewrite inject_Z_mult in *.
    change (inject_Z 5) with 5%Q. change (inject_Z 4) with 4%Q in *. lra. }
  assert (Hp : 1 <= 2 ^ n).
  { assert (0 < 2 ^ n) by (apply Z.pow_pos_nonneg; lia). lia. }
  unfold MAX_RETRY_ATTEMPTS. repeat split.
  - unfold m. lia.
  - unfold m. lia.
  - intro H1. assert (2 ^ 1 <= 2 ^ n) by (apply Z.pow_le_mono_r; lia).
    change (2 ^ 1) with 2 in *. unfold m. lia.
  - intro H9. assert (2 ^ 9 <= 2 ^ n) by (apply Z.pow_le_mono_r; lia).
    change (2 ^ 9) with 512 in *. unfold m. lia.
  - intro H5. assert (2 ^ n <= 2 ^ 4) by (apply Z.pow_le_mono_r; lia).
    change (2 ^ 4) with 16 in *. unfold m. lia.
Qed.

Lemma backoff_delay_bounds_witness :
  750 <= calculateBackoffDelay 3 (1 # 2) <= 375000
  /\ (1 <= 3 -> 1500 <= calculateBackoffDelay 3 (1 # 2))
  /\ (9 <= 3 -> 225000 <= calculateBackoffDelay 3 (1 # 2))
  /\ (3 < MAX_RETRY_ATTEMPTS -> calculateBackoffDelay 3 (1 # 2) <= 20000).
Proof.
  apply (backoff_delay_bounds 3 (1 # 2)).
  - lia.
  - vm_compute. discriminate.
  - vm_compute. reflexivity.
Defined.

(** ** Instances of the general statements above *)

Lemma pg_query_layer_filters_witness :
  hit_of_searchable_row (db Scenario.search_world)
    (mkHit "a1" 0 1000 "hello world" 1 None "media" "hello.wav").
Proof.
  apply (pg_query_layer_filters Scenario.plain_engine
           (mkQuery "hello" None None 1 0) [] (1 # 2) (1 # 2)
           Scenario.search_world Scenario.search_world
           [mkHit "a1" 0 1000 "hello world" 1 None "media" "hello.wav"]).
  - left. vm_compute. reflexivity.
  - left. reflexivity.
Defined.


Lemma version_id_same_only_at_same_instant_witness :
  Scenario.T0 + 123 = Scenario.T0 + 123.
Proof.
  apply (version_id_same_only_at_same_instant "E1" 1024 Scenario.T0
           (Scenario.T0 + 123) (Scenario.T0 + 123)).
  - vm_compute. discriminate.
  - vm_compute. discriminate.
  - reflexivity.
Defined.

Lemma supported_format_by_extension_witness :
  isSupportedMediaFormat ("a.b/talk" ++ "." ++ "WAV")
  = array_includes ["wav"; "mp3"; "aac"; "flac"; "mp4"; "mov"; "mxf"]
                   (JS.toLowerCase "WAV").
Proof.
  apply (supported_format_by_extension "a.b/talk" "WAV"). reflexivity.
Defined.

(** ** The parameters of GET /search *)


(** Readings of [parseInt] and of the handler's test of [q]. *)
Example search_parameter_examples :
  SearchApi.parseInt "  42abc" = Some 42
  /\ SearchApi.parseInt "-5" = Some (-5)
  /\ SearchApi.parseInt "+7" = Some 7
  /\ SearchApi.parseInt "abc" = None
  /\ SearchApi.parseInt "" = None
  /\ SearchApi.parseInt "0x10" = Some 0
  /\ SearchApi.limitNum (Some "500") = 100
  /\ SearchApi.limitNum (Some "0") = 20
  /\ SearchApi.limitNum (Some "-5") = -5
  /\ SearchApi.offsetNum (Some "x") = 0
  /\ SearchApi.query_missing (Some "   ") = true
  /\ SearchApi.query_missing (Some " a ") = false.
Proof. vm_compute. repeat split; reflexivity. Qed.

(** ** The rows built for a job *)

Lemma to_int_not_nil :
  forall z, Z.to_int z <> Decimal.Pos Decimal.Nil
            /\ Z.to_int z <> Decimal.Neg Decimal.Nil.
Proof.
  intro z. split; intro H;
    pose proof (DecimalZ.of_to z) as Hz; rewrite H in Hz; cbn in Hz;
    subst z; discriminate H.
Qed.

(** The decimal rendering of an integer determines it. *)
Lemma num_injective :
  forall a b, JS.num a = JS.num b -> a = b.
Proof.
  intros a b H. unfold JS.num in H.
  apply DecimalZ.to_int_inj.
  destruct (to_int_not_nil a) as [Ha1 Ha2].
  destruct (to_int_not_nil b) as [Hb1 Hb2].
  pose proof (NilZero.isi (Z.to_int a) Ha1 Ha2) as Ia.
  pose proof (NilZero.isi (Z.to_int b) Hb1 Hb2) as Ib.
  rewrite H in Ia. rewrite Ia in Ib. injection Ib as Ib. exact Ib.
Qed.

Lemma fixed_windows_default_returns :
  forall segs, exists r,
    Asr.createFixedWindowSegments segs Asr.FIXED_WINDOW_DURATION_MS = Some r.
Proof.
  intros [| s0 l]; [eexists; reflexivity|].
  unfold Asr.createFixedWindowSegments.
  apply window_loop_returns; [reflexivity | lia].
Qed.

Lemma map_combine_seq :
  forall (A B : Type) (f : nat -> B) (l : list A) (k : nat),
    map (fun p : nat * A => f (fst p)) (combine (seq k (length l)) l)
    = map f (seq k (length l)).
Proof.
  intros A B f l. induction l as [| x t IH]; intro k; [reflexivity|].
  cbn. f_equal. apply IH.
Qed.

(** X18. The rows stored for a job. Step 4 of [processJob] always yields
    segments and a label; a forced strategy is the label, also when the
    segments were cut into fixed windows because the media is longer than
    the threshold (forcing the sentence strategy on long media stores
    fixed windows labelled as sentences); and the rows built from them
    are as many as the segments, carry pairwise different segment ids,
    the asset and version of the job, STAGING visibility and that
    label. *)
Theorem job_rows_are_staged_and_distinct :
  forall (job : TranscriptionJob) (asrResult : Asr.ASRResult)
         (policy : EnginePolicy) (now : Z),
    exists segments strategy,
      Orchestrator.chunk asrResult policy = Some (segments, strategy)
      /\ (forall forced, force_chunking_strategy policy = Some forced ->
            strategy = forced)
      /\ (force_chunking_strategy policy = Some ChunkingStrategy.SENTENCE ->
          (inject_Z (compute_threshold_seconds policy)
           < inject_Z (Asr.duration_ms asrResult) / 1000)%Q ->
          Asr.createFixedWindowSegments (Asr.segments asrResult) 5000
          = Some segments)
      /\ length (Orchestrator.transcript_rows job segments strategy now)
         = length segments
      /\ NoDup (map s_segment_id
                  (Orchestrator.transcript_rows job segments strategy now))
      /\ (forall r,
            In r (Orchestrator.transcript_rows job segments strategy now) ->
            s_visibility r = Visibility.STAGING
            /\ s_asset_id r = j_asset_id job
            /\ s_version_id r = j_version_id job
            /\ s_chunking_strategy r = strategy).
Proof.
  intros job asrResult policy now.
  assert (Hrows : forall segments strategy,
    length (Orchestrator.transcript_rows job segments strategy now)
    = length segments
    /\ NoDup (map s_segment_id
                (Orchestrator.transcript_rows job segments strategy now))
    /\ (forall r,
          In r (Orchestrator.transcript_rows job segments strategy now) ->
          s_visibility r = Visibility.STAGING
          /\ s_asset_id r = j_asset_id job
          /\ s_version_id r = j_version_id job
          /\ s_chunking_strategy r = strategy)).
  { intros segments strategy. unfold Orchestrator.transcript_rows.
    split; [rewrite length_map, length_combine, length_seq; lia|].
    split.
    - rewrite map_map.
      rewrite (map_ext _ (fun p : nat * Asr.ASRSegment Z =>
                 j_version_id job ++ "_seg_" ++ JS.num (Z.of_nat (fst p))))
        by (intros [idx seg]; reflexivity).
      rewrite (map_combine_seq _ _
                 (fun idx => j_version_id job ++ "_seg_"
                             ++ JS.num (Z.of_nat idx)) segments 0).
      apply Injective_map_NoDup; [| apply seq_NoDup].
      intros x y Hxy.
      apply string_app_inv_head in Hxy.
      apply (string_app_inv_head "_seg_") in Hxy.
      apply num_injective in Hxy. lia.
    - intros r Hr. apply in_map_iff in Hr.
      destruct Hr as ([idx seg] & <- & _). repeat split. }
  unfold Orchestrator.chunk.
  destruct (fixed_windows_default_returns (Asr.segments asrResult))
    as (windows & Hw).
  rewrite Hw.
  set (over := negb (Qle_bool (inject_Z (Asr.duration_ms asrResult) / 1000)
                       (inject_Z (compute_threshold_seconds policy)))).
  destruct (force_chunking_strategy policy) as [[|]|] eqn:Hforce.
  - destruct over eqn:Hover.
    + exists windows, ChunkingStrategy.SENTENCE.
      split; [reflexivity|].
      split; [intros forced H; injection H as <-; reflexivity|].
      split; [intros _ _; exact Hw|]. apply Hrows.
    + exists (Asr.segments asrResult), ChunkingStrategy.SENTENCE.
      split; [reflexivity|].
      split; [intros forced H; injection H as <-; reflexivity|].
      split; [| apply Hrows].
      intros _ Hlong. exfalso. unfold over in Hover.
      apply negb_false_iff, Qle_bool_iff in Hover. lra.
  - exists windows, ChunkingStrategy.FIXED_WINDOW.
    assert (Hc : (if over then Some windows
                  else Some (Asr.segments asrResult))
                 = Some (if over then windows else Asr.segments asrResult))
      by (destruct over; reflexivity).
    rewrite Hc.
    split; [reflexivity|].
    split; [intros forced H; injection H as <-; reflexivity|].
    split; [intro H; discriminate H | apply Hrows].
  - destruct over.
    + exists windows, ChunkingStrategy.FIXED_WINDOW.
      split; [reflexivity|]. split; [intros forced H; discriminate H|].
      split; [intro H; discriminate H | apply Hrows].
    + exists (Asr.segments asrResult), ChunkingStrategy.SENTENCE.
      split; [reflexivity|]. split; [intros forced H; discriminate H|].
      split; [intro H; discriminate H | apply Hrows].
Qed.

(** ** What a search finds after a removal and after a cutover *)

Lemma handleObjectRemoved_effect :
  forall (bkt key : string) (a : MediaAsset) (w : World),
    io_fault w = None ->
    asset_by_key w bkt key = Some a ->
    exists w1,
      Ingest.handleObjectRemoved bkt key w = (Ok tt, w1)
      /\ io_fault w1 = None
      /\ media_assets (db w1)
         = Postgres.update_where
             (fun r => String.eqb (asset_id r) (asset_id a))
             (Postgres.tombstone_row (clock w)) (media_assets (db w)).
Proof.
  intros bkt key a w Hio Hkey. unfold asset_by_key in Hkey.
  destruct w as [[assets versions segs embs] [q dq] objs e1 e2 c u rd f st].
  cbn [db io_fault media_assets clock] in *. subst f.
  unfold Ingest.handleObjectRemoved, Postgres.getAssetByKey,
    Postgres.tombstoneAsset, Postgres.softDeleteSegments,
    Postgres.softDeleteEmbeddings, bind, io, get, modify, ret.
  run_world. rewrite Hkey. run_world.
  eexists. split; [reflexivity|]. run_world. split; reflexivity.
Qed.

(** X23. A removed object is no longer found. After [handleObjectRemoved] has
    run for the key of an asset, no keyword, semantic or hybrid search of
    the local adapter returns a hit of that asset, whatever the query. *)
Theorem removed_object_is_never_found :
  forall (bkt key : string) (a : MediaAsset) (w : World),
    io_fault w = None ->
    asset_by_key w bkt key = Some a ->
    exists w1,
      Ingest.handleObjectRemoved bkt key w = (Ok tt, w1)
      /\ forall (E : Engine) (q : SearchQuery) (emb : list Q) (Wk Ws : Q)
                (w2 : World) (hits : list SearchHit),
           (PgSearch.searchKeyword E q w1 = (Ok hits, w2)
            \/ PgSearch.searchSemantic E q emb w1 = (Ok hits, w2)
            \/ PgSearch.searchHybrid E q emb Wk Ws w1 = (Ok hits, w2)) ->
           forall h, In h hits -> h_asset_id h <> asset_id a.
Proof.
  intros bkt key a w Hio Hkey.
  destruct (handleObjectRemoved_effect bkt key a w Hio Hkey)
    as (w1 & Hrun & _ & Hassets).
  exists w1. split; [exact Hrun|].
  intros E q emb Wk Ws w2 hits Hsearch h Hh Hid.
  destruct (pg_search_hits_searchable E q emb Wk Ws w1 w2 hits Hsearch h Hh)
    as (s & a' & _ & Ha' & (Hsa & _ & _ & Htomb) & Hhs & _).
  rewrite Hassets in Ha'. apply update_where_In in Ha'.
  destruct Ha' as (r & _ & Hr).
  assert (Hida : asset_id a' = asset_id a) by congruence.
  destruct (String.eqb (asset_id r) (asset_id a)) eqn:E1.
  - subst a'. cbn in Htomb. discriminate Htomb.
  - subst a'. apply String.eqb_neq in E1. contradiction.
Qed.

Lemma removed_object_is_never_found_witness :
  exists w1,
    Ingest.handleObjectRemoved "media" "hello.wav" Scenario.search_world
    = (Ok tt, w1)
    /\ PgSearch.searchKeyword Scenario.plain_engine
         (mkQuery "hello" None None 10 0) w1 = (Ok [], w1).
Proof.
  destruct (removed_object_is_never_found "media" "hello.wav"
              (Scenario.asset_a1 (Some "v1") AssetStatus.INDEXED)
              Scenario.search_world eq_refl eq_refl) as (w1 & Hrun & _).
  exists w1. split; [exact Hrun|].
  vm_compute in Hrun. injection Hrun as <-. vm_compute. reflexivity.
Defined.

(** X24. A published version is the one that is searched. After
    [publishVersion] has run without a failure, every hit that a keyword,
    semantic or hybrid search of the local adapter returns for the asset
    is built from an ACTIVE segment of the published version: no segment
    of the version it replaced, or of any other version, is returned. *)
Theorem published_version_is_the_one_searched :
  forall (assetId versionId : string) (w : World),
    io_fault w = None ->
    exists w1,
      Orchestrator.publishVersion assetId versionId w = (Ok tt, w1)
      /\ forall (E : Engine) (q : SearchQuery) (emb : list Q) (Wk Ws : Q)
                (w2 : World) (hits : list SearchHit),
           (PgSearch.searchKeyword E q w1 = (Ok hits, w2)
            \/ PgSearch.searchSemantic E q emb w1 = (Ok hits, w2)
            \/ PgSearch.searchHybrid E q emb Wk Ws w1 = (Ok hits, w2)) ->
           forall h, In h hits -> h_asset_id h = assetId ->
             exists s,
               In s (transcript_segments (db w1))
               /\ s_asset_id s = assetId
               /\ s_version_id s = versionId
               /\ s_visibility s = Visibility.ACTIVE
               /\ h_start_ms h = s_start_ms s
               /\ h_end_ms h = s_end_ms s.
Proof.
  intros assetId versionId w Hio.
  destruct (publishVersion_effect assetId versionId w Hio)
    as (w1 & Hrun & _ & _ & _ & Hptr & _).
  exists w1. split; [exact Hrun|].
  intros E q emb Wk Ws w2 hits Hsearch h Hh Hid.
  destruct (pg_search_hits_searchable E q emb Wk Ws w1 w2 hits Hsearch h Hh)
    as (s & a' & Hs & Ha' & (Hsa & Hvis & Hcur & _) & Hhs & Hst & Hen & _).
  destruct (Hptr a' Ha' ltac:(congruence)) as [Hcur' _].
  exists s. repeat split; try assumption; congruence.
Qed.

Lemma published_version_is_the_one_searched_witness :
  exists w1,
    Orchestrator.publishVersion "a1" "v2" Scenario.overwrite_world
    = (Ok tt, w1)
    /\ PgSearch.searchKeyword Scenario.plain_engine
         (mkQuery "x" None None 10 0) w1
       = (Ok [mkHit "a1" 0 1000 "goodbye" 1 None "media" "hello.wav"], w1).
Proof.
  destruct (published_version_is_the_one_searched "a1" "v2"
              Scenario.overwrite_world eq_refl) as (w1 & Hrun & _).
  exists w1. split; [exact Hrun|].
  vm_compute in Hrun. injection Hrun as <-. vm_compute. reflexivity.
Defined.

(** ** Ranking and paging of the local search *)

Lemma Sorted_skipn :
  forall (A : Type) (R : A -> A -> Prop) (n : nat) (l : list A),
    Sorted R l -> Sorted R (skipn n l).
Proof.
  intros A R n. induction n as [| n IH]; intros l H; [exact H|].
  destruct l as [| x t]; [constructor|].
  cbn. apply IH. inversion H; assumption.
Qed.

Lemma Sorted_firstn :
  forall (A : Type) (R : A -> A -> Prop) (n : nat) (l : list A),
    Sorted R l -> Sorted R (firstn n l).
Proof.
  intros A R n. induction n as [| n IH]; intros l H; [constructor|].
  destruct l as [| x t]; [constructor|].
  cbn. inversion H as [| ? ? Ht Hhd]; subst.
  constructor; [apply IH; exact Ht|].
  destruct t as [| y t']; [destruct n; constructor|].
  destruct n; cbn; [constructor|].
  constructor. inversion Hhd; assumption.
Qed.

Lemma Sorted_map :
  forall (A B : Type) (R : A -> A -> Prop) (R' : B -> B -> Prop)
         (f : A -> B) (l : list A),
    (forall a b, R a b -> R' (f a) (f b)) ->
    Sorted R l -> Sorted R' (map f l).
Proof.
  intros A B R R' f l Hf H. induction H as [| x t Ht IH Hhd]; cbn;
    [constructor|].
  constructor; [exact IH|].
  destruct Hhd as [| y t' Hxy]; cbn; constructor. apply Hf. exact Hxy.
Qed.

Lemma sort_desc_length :
  forall (A : Type) (score : A -> Q) (l : list A),
    length (sort_desc score l) = length l.
Proof.
  intros A score l. symmetry. apply Permutation_length.
  apply sort_desc_perm.
Qed.

Lemma limit_offset_length :
  forall (A : Type) (l o : Z) (rows : list A),
    0 <= l -> 0 <= o ->
    Z.of_nat (length (PgSearch.limit_offset l o rows)) <= l
    /\ Z.of_nat (length (PgSearch.limit_offset l o rows))
       <= Z.max 0 (Z.of_nat (length rows) - o).
Proof.
  intros A l o rows Hl Ho. unfold PgSearch.limit_offset.
  rewrite length_firstn, length_skipn. lia.
Qed.

Lemma slice_length :
  forall (A : Type) (o l : Z) (xs : list A),
    0 <= l -> 0 <= o ->
    Z.of_nat (length (JS.slice o (o + l) xs)) <= l
    /\ Z.of_nat (length (JS.slice o (o + l) xs))
       <= Z.max 0 (Z.of_nat (length xs) - o).
Proof.
  intros A o l xs Hl Ho. unfold JS.slice, JS.rel_index.
  assert (H1 : (o <? 0) = false) by (apply Z.ltb_ge; lia).
  assert (H2 : (o + l <? 0) = false) by (apply Z.ltb_ge; lia).
  rewrite H1, H2, length_firstn, length_skipn. lia.
Qed.

Lemma map_set_length :
  forall (V : Type) (k : string) (v : V) (m : list (string * V)),
    (length (map_set k v m) <= S (length m))%nat.
Proof.
  intros V k v m. induction m as [| [k' v'] t IH]; cbn; [lia|].
  destruct (String.eqb k' k); cbn; lia.
Qed.

Lemma map_update_length :
  forall (V : Type) (k : string) (f : V -> V) (m : list (string * V)),
    length (map_update k f m) = length m.
Proof.
  intros V k f m. induction m as [| [k' v'] t IH]; cbn; [reflexivity|].
  destruct (String.eqb k' k); cbn; [reflexivity | rewrite IH; reflexivity].
Qed.

Lemma score_map_length :
  forall (Wk Ws : Q) (kw sem : list SearchHit),
    (length (fold_left (PgSearch.add_semantic_hit Ws) sem
               (fold_left (PgSearch.add_keyword_hit Wk) kw []))
     <= length kw + length sem)%nat.
Proof.
  intros Wk Ws kw sem.
  assert (Hk : forall l m,
            (length (fold_left (PgSearch.add_keyword_hit Wk) l m)
             <= length m + length l)%nat).
  { induction l as [| h t IH]; intro m; cbn [fold_left length]; [lia|].
    specialize (IH (PgSearch.add_keyword_hit Wk m h)).
    assert (length (PgSearch.add_keyword_hit Wk m h) <= S (length m))%nat
      by (unfold PgSearch.add_keyword_hit; apply map_set_length).
    lia. }
  assert (Hs : forall l m,
            (length (fold_left (PgSearch.add_semantic_hit Ws) l m)
             <= length m + length l)%nat).
  { induction l as [| h t IH]; intro m; cbn [fold_left length]; [lia|].
    specialize (IH (PgSearch.add_semantic_hit Ws m h)).
    assert (length (PgSearch.add_semantic_hit Ws m h) <= S (length m))%nat.
    { unfold PgSearch.add_semantic_hit.
      destruct (map_get (PgSearch.score_key h) m).
      - rewrite map_update_length. lia.
      - apply map_set_length. }
    lia. }
  specialize (Hs sem (fold_left (PgSearch.add_keyword_hit Wk) kw [])).
  specialize (Hk kw []). cbn [length] in Hk. lia.
Qed.

Lemma io_keeps_db :
  forall w o w1, io w = (o, w1) -> db w1 = db w.
Proof.
  intros w o w1. unfold io.
  destruct (io_fault w) as [[| n]|]; intro H; injection H as _ <-;
    reflexivity.
Qed.

(** What a keyword and a semantic search of the local adapter return. *)
Lemma pg_keyword_shape :
  forall (E : Engine) (q : SearchQuery) (w w' : World)
         (hits : list SearchHit),
    PgSearch.searchKeyword E q w = (Ok hits, w') ->
    db w' = db w /\ 0 <= q_limit q /\ 0 <= q_offset q
    /\ hits = PgSearch.search_keyword E (db w) (q_query q) (q_limit q)
                (q_offset q) (PgSearch.or_null (q_bucket q))
                (PgSearch.or_null (q_speaker q)).
Proof.
  intros E q w w' hits H.
  unfold PgSearch.searchKeyword, bind, get, ret,
    PgSearch.check_limit_offset, throw in H.
  destruct (io w) as [[[]| e] w1] eqn:E1; [| discriminate].
  apply io_keeps_db in E1.
  destruct ((q_limit q <? 0) || (q_offset q <? 0)) eqn:Hc; [discriminate|].
  apply orb_false_iff in Hc. destruct Hc as [Hl Ho].
  apply Z.ltb_ge in Hl. apply Z.ltb_ge in Ho.
  injection H as <- <-. rewrite E1. repeat split; assumption.
Qed.

Lemma pg_semantic_shape :
  forall (E : Engine) (q : SearchQuery) (emb : list Q) (w w' : World)
         (hits : list SearchHit),
    PgSearch.searchSemantic E q emb w = (Ok hits, w') ->
    db w' = db w /\ 0 <= q_limit q /\ 0 <= q_offset q
    /\ hits = PgSearch.search_semantic E (db w) emb (q_limit q)
                (q_offset q) (PgSearch.or_null (q_bucket q))
                (PgSearch.or_null (q_speaker q)).
Proof.
  intros E q emb w w' hits H.
  unfold PgSearch.searchSemantic, bind, get, ret,
    PgSearch.check_limit_offset, throw in H.
  destruct (io w) as [[[]| e] w1] eqn:E1; [| discriminate].
  apply io_keeps_db in E1.
  destruct ((q_limit q <? 0) || (q_offset q <? 0)) eqn:Hc; [discriminate|].
  apply orb_false_iff in Hc. destruct Hc as [Hl Ho].
  apply Z.ltb_ge in Hl. apply Z.ltb_ge in Ho.
  injection H as <- <-. rewrite E1. repeat split; assumption.
Qed.

(** X25. Results are ranked, bounded and read-only. A keyword, semantic or
    hybrid search of the local adapter that returns gives at most [limit]
    hits, in descending order of score, and writes no table. *)
Theorem pg_results_are_ranked_and_bounded :
  forall (E : Engine) (q : SearchQuery) (emb : list Q) (Wk Ws : Q)
         (w w' : World) (hits : list SearchHit),
    (PgSearch.searchKeyword E q w = (Ok hits, w')
     \/ PgSearch.searchSemantic E q emb w = (Ok hits, w')
     \/ PgSearch.searchHybrid E q emb Wk Ws w = (Ok hits, w')) ->
    Z.of_nat (length hits) <= q_limit q
    /\ Sorted (fun a b => (h_score b <= h_score a)%Q) hits
    /\ db w' = db w.
Proof.
  intros E q emb Wk Ws w w' hits [H | [H | H]].
  - destruct (pg_keyword_shape E q w w' hits H) as (Hdb & Hl & Ho & ->).
    unfold PgSearch.search_keyword.
    split; [apply limit_offset_length; assumption|].
    split; [| exact Hdb]. unfold PgSearch.limit_offset.
    apply Sorted_firstn, Sorted_skipn, sort_desc_sorted.
  - destruct (pg_semantic_shape E q emb w w' hits H) as (Hdb & Hl & Ho & ->).
    unfold PgSearch.search_semantic.
    split; [apply limit_offset_length; assumption|].
    split; [| exact Hdb]. unfold PgSearch.limit_offset.
    apply Sorted_firstn, Sorted_skipn, sort_desc_sorted.
  - unfold PgSearch.searchHybrid, bind, ret in H.
    destruct (PgSearch.searchKeyword E _ w) as [[kw | e] w1] eqn:E1;
      [| discriminate].
    destruct (PgSearch.searchSemantic E _ emb w1) as [[sem | e] w2] eqn:E2;
      [| discriminate].
    injection H as <- <-.
    destruct (pg_keyword_shape E _ w w1 kw E1) as (Hdb1 & Hl & Ho & _).
    destruct (pg_semantic_shape E _ emb w1 w2 sem E2) as (Hdb2 & _ & _ & _).
    cbn [PgSearch.with_limit q_limit q_offset] in Hl, Ho.
    unfold PgSearch.hybrid_merge.
    split; [rewrite length_map; apply slice_length; lia|].
    split; [| congruence].
    apply (Sorted_map _ _
             (fun a b : SearchHit * Q => (snd b <= snd a)%Q)).
    + intros a b Hab. cbn. exact Hab.
    + unfold JS.slice. apply Sorted_firstn, Sorted_skipn.
      apply (sort_desc_sorted _ (fun e : SearchHit * Q => snd e)).
Qed.

Lemma pg_results_are_ranked_and_bounded_witness :
  Z.of_nat (length [mkHit "a1" 0 1000 "hello world" 1 None "media" "hello.wav"])
  <= 1
  /\ Sorted (fun a b => (h_score b <= h_score a)%Q)
       [mkHit "a1" 0 1000 "hello world" 1 None "media" "hello.wav"]
  /\ db Scenario.search_world = db Scenario.search_world.
Proof.
  apply (pg_results_are_ranked_and_bounded Scenario.plain_engine
           (mkQuery "hello" None None 1 0) [] (1 # 2) (1 # 2)
           Scenario.search_world Scenario.search_world
           [mkHit "a1" 0 1000 "hello world" 1 None "media" "hello.wav"]).
  left. vm_compute. reflexivity.
Defined.

(** X26. The offset of a hybrid search is applied twice. [searchHybrid] passes
    the offset to the keyword and to the semantic search and then skips
    the same number of fused results again: with [K] rows matching the
    keyword query and [S] the semantic one, it returns no more than
    [max(0, K - offset) + max(0, S - offset) - offset] hits, so a later
    page can be empty while matching rows remain. *)
Theorem hybrid_offset_is_applied_twice :
  forall (E : Engine) (q : SearchQuery) (emb : list Q) (Wk Ws : Q)
         (w w' : World) (hits : list SearchHit),
    PgSearch.searchHybrid E q emb Wk Ws w = (Ok hits, w') ->
    let K := Z.of_nat (length (PgSearch.keyword_rows E (db w) (q_query q)
                                 (PgSearch.or_null (q_bucket q))
                                 (PgSearch.or_null (q_speaker q)))) in
    let S := Z.of_nat (length (PgSearch.semantic_rows E (db w) emb
                                 (PgSearch.or_null (q_bucket q))
                                 (PgSearch.or_null (q_speaker q)))) in
    Z.of_nat (length hits)
    <= Z.max 0 (Z.max 0 (K - q_offset q) + Z.max 0 (S - q_offset q)
                - q_offset q).
Proof.
  intros E q emb Wk Ws w w' hits H K S.
  unfold PgSearch.searchHybrid, bind, ret in H.
  destruct (PgSearch.searchKeyword E _ w) as [[kw | e] w1] eqn:E1;
    [| discriminate].
  destruct (PgSearch.searchSemantic E _ emb w1) as [[sem | e] w2] eqn:E2;
    [| discriminate].
  injection H as <- <-.
  destruct (pg_keyword_shape E _ w w1 kw E1) as (Hdb1 & Hl & Ho & Hkw).
  destruct (pg_semantic_shape E _ emb w1 w2 sem E2) as (_ & _ & _ & Hsem).
  cbn [PgSearch.with_limit q_limit q_offset q_query q_bucket q_speaker]
    in Hl, Ho, Hkw, Hsem.
  rewrite Hdb1 in Hsem.
  assert (Hklen : Z.of_nat (length kw) <= Z.max 0 (K - q_offset q)).
  { rewrite Hkw. unfold PgSearch.search_keyword.
    pose proof (limit_offset_length _ (q_limit q * 2) (q_offset q)
                  (sort_desc h_score
                     (PgSearch.keyword_rows E (db w) (q_query q)
                        (PgSearch.or_null (q_bucket q))
                        (PgSearch.or_null (q_speaker q)))) Hl Ho) as [_ Hb].
    rewrite sort_desc_length in Hb. exact Hb. }
  assert (Hslen : Z.of_nat (length sem) <= Z.max 0 (S - q_offset q)).
  { rewrite Hsem. unfold PgSearch.search_semantic.
    pose proof (limit_offset_length _ (q_limit q * 2) (q_offset q)
                  (sort_desc h_score
                     (PgSearch.semantic_rows E (db w) emb
                        (PgSearch.or_null (q_bucket q))
                        (PgSearch.or_null (q_speaker q)))) Hl Ho) as [_ Hb].
    rewrite sort_desc_length in Hb. exact Hb. }
  unfold PgSearch.hybrid_merge. rewrite length_map.
  pose proof (slice_length _ (q_offset q) (q_limit q)
                (sort_desc (fun e : SearchHit * Q => snd e)
                   (map_values
                      (fold_left (PgSearch.add_semantic_hit Ws) sem
                         (fold_left (PgSearch.add_keyword_hit Wk) kw []))))
                ltac:(lia) Ho) as [_ Hb].
  rewrite sort_desc_length in Hb.
  assert (Hv : length (map_values
                         (fold_left (PgSearch.add_semantic_hit Ws) sem
                            (fold_left (PgSearch.add_keyword_hit Wk) kw [])))
               = length (fold_left (PgSearch.add_semantic_hit Ws) sem
                           (fold_left (PgSearch.add_keyword_hit Wk) kw [])))
    by (unfold map_values; apply length_map).
  rewrite Hv in Hb.
  pose proof (score_map_length Wk Ws kw sem). lia.
Qed.

(** Two rows match both queries; with offset 1 and limit 1 the page is
    empty. *)
Lemma hybrid_offset_is_applied_twice_witness :
  let w := Scenario.search_world in
  let q := mkQuery "hello" None None 1 1 in
  let K := Z.of_nat (length (PgSearch.keyword_rows Scenario.plain_engine
                               (db w) "hello" None None)) in
  let S := Z.of_nat (length (PgSearch.semantic_rows Scenario.plain_engine
                               (db w) [] None None)) in
  Z.of_nat (length (@nil SearchHit))
  <= Z.max 0 (Z.max 0 (K - 1) + Z.max 0 (S - 1) - 1).
Proof.
  apply (hybrid_offset_is_applied_twice Scenario.plain_engine
           (mkQuery "hello" None None 1 1) [] (1 # 2) (1 # 2)
           Scenario.search_world Scenario.search_world []).
  vm_compute. reflexivity.
Defined.

(** ** Sentence segments *)

Section SentenceFacts.
Variable num : Type.
Variable of_int : Z -> num.
Variables add sub mul div : num -> num -> num.

Let loop := Asr.sentence_loop of_int add sub mul div.

(** The first segment pushed starts at the current time. *)
Lemma sentence_loop_head :
  forall (ss : list string) (text : string)
         (segments : list (Asr.ASRSegment num)) (t0 : num)
         (r : Asr.ASRSegment num),
    nth_error (loop ss text segments t0) 0 = Some r ->
    Asr.start_ms r = t0.
Proof.
  unfold loop.
  induction ss as [| s t IH]; intros text segments t0 r H;
    cbn [Asr.sentence_loop] in H; [discriminate|].
  destruct (negb (JS.truthy (JS.trim s))); [apply IH in H; exact H|].
  cbn in H. injection H as <-. reflexivity.
Qed.

(** Each segment pushed starts where the one before it ends. *)
Lemma sentence_loop_chain :
  forall (ss : list string) (text : string)
         (segments : list (Asr.ASRSegment num)) (t0 : num) (i : nat)
         (r1 r2 : Asr.ASRSegment num),
    nth_error (loop ss text segments t0) i = Some r1 ->
    nth_error (loop ss text segments t0) (S i) = Some r2 ->
    Asr.start_ms r2 = Asr.end_ms r1.
Proof.
  unfold loop.
  induction ss as [| s t IH]; intros text segments t0 i r1 r2 H1 H2;
    cbn [Asr.sentence_loop] in H1, H2; [destruct i; discriminate|].
  destruct (negb (JS.truthy (JS.trim s))); [eapply IH; eassumption|].
  destruct i as [| i].
  - cbn [nth_error] in H1, H2. injection H1 as <-.
    apply sentence_loop_head in H2. exact H2.
  - cbn [nth_error] in H1. change (nth_error (?x :: ?l) (S (S i)))
      with (nth_error l (S i)) in H2.
    eapply IH; eassumption.
Qed.

(** The texts pushed are the sentences that are not blank, trimmed, in
    order; the other fields do not depend on the sentence. *)
Lemma sentence_loop_texts :
  forall (ss : list string) (text : string)
         (segments : list (Asr.ASRSegment num)) (t0 : num),
    map (@Asr.text num) (loop ss text segments t0)
    = filter JS.truthy (map JS.trim ss)
    /\ forall r, In r (loop ss text segments t0) ->
         Asr.speaker r = None
         /\ Asr.confidence r = Asr.confidence_or_default segments
         /\ Asr.end_ms r
            = add (Asr.start_ms r)
                (mul (sub (Asr.end_or_zero of_int segments)
                          (Asr.start_or_zero of_int segments))
                     (div (of_int (JS.strlen (Asr.text r)))
                          (of_int (JS.strlen text)))).
Proof.
  unfold loop.
  induction ss as [| s t IH]; intros text segments t0;
    cbn [Asr.sentence_loop map filter]; [split; [reflexivity | intros r []]|].
  destruct (JS.truthy (JS.trim s)) eqn:E; cbn [negb].
  - destruct (IH text segments
                (add t0 (mul (sub (Asr.end_or_zero of_int segments)
                                  (Asr.start_or_zero of_int segments))
                             (div (of_int (JS.strlen (JS.trim s)))
                                  (of_int (JS.strlen text))))))
      as [Ht Hr].
    split; [cbn [map Asr.text]; rewrite Ht; reflexivity|].
    intros r [<- | Hin]; [cbn; auto | apply Hr; exact Hin].
  - apply IH.
Qed.

(** X5. Sentence segments follow one another without a gap. The segments
    returned by [createSentenceSegments] start at the start of the first
    input segment (at 0 when there is none), each one starts exactly
    where the one before it ends and lasts the whole duration times the
    share of its text in the text given; their texts are the sentences of
    the text that are not blank, trimmed, in order; each carries the
    confidence of the first input segment and no speaker, whoever spoke.
    This holds whatever the arithmetic of the numbers is. *)
Theorem sentence_segments_follow_one_another :
  forall (segments : list (Asr.ASRSegment num)) (text : string),
    let res :=
      Asr.createSentenceSegments of_int add sub mul div segments text in
    (forall r, nth_error res 0 = Some r ->
       Asr.start_ms r = Asr.start_or_zero of_int segments)
    /\ (forall i r1 r2,
          nth_error res i = Some r1 -> nth_error res (S i) = Some r2 ->
          Asr.start_ms r2 = Asr.end_ms r1)
    /\ map (@Asr.text num) res
       = filter JS.truthy (map JS.trim (Asr.sentences_of text))
    /\ (forall r, In r res ->
          Asr.speaker r = None
          /\ Asr.text r <> EmptyString
          /\ Asr.confidence r = Asr.confidence_or_default segments
          /\ Asr.end_ms r
             = add (Asr.start_ms r)
                 (mul (sub (Asr.end_or_zero of_int segments)
                           (Asr.start_or_zero of_int segments))
                      (div (of_int (JS.strlen (Asr.text r)))
                           (of_int (JS.strlen text))))).
Proof.
  intros segments text res. subst res. unfold Asr.createSentenceSegments.
  fold loop.
  destruct (sentence_loop_texts (Asr.sentences_of text) text segments
              (Asr.start_or_zero of_int segments)) as [Ht Hr].
  split; [intros r H; eapply sentence_loop_head; exact H|].
  split; [intros i r1 r2 H1 H2; eapply sentence_loop_chain; eassumption|].
  split; [exact Ht|].
  intros r Hin. destruct (Hr r Hin) as (H1 & H2 & H3).
  split; [exact H1|]. split; [| split; assumption].
  assert (Hin' : In (Asr.text r)
                    (filter JS.truthy (map JS.trim (Asr.sentences_of text)))).
  { rewrite <- Ht. apply in_map. exact Hin. }
  apply filter_In in Hin'. destruct Hin' as [_ Htr].
  intro He. rewrite He in Htr. discriminate Htr.
Qed.
End SentenceFacts.

(** The function on a sample: two sentences over a span of 3000 ms, with
    exact fractions for the numbers. *)
Example sentence_segments_example :
  map (fun r => (Asr.start_ms r, Asr.end_ms r, Asr.text r, Asr.speaker r))
      (Asr.createSentenceSegments inject_Z Qplus Qminus Qmult Qdiv
         [Asr.mkASRSegment (inject_Z 1000) (inject_Z 4000) "Hi there. Bye!"
                           (Some "A") (9 # 10)]
         "Hi there. Bye!")
  = [(inject_Z 1000, (inject_Z 1000
                      + (inject_Z 4000 - inject_Z 1000)
                        * (inject_Z 9 / inject_Z 14))%Q,
      "Hi there.", None);
     ((inject_Z 1000
       + (inject_Z 4000 - inject_Z 1000) * (inject_Z 9 / inject_Z 14))%Q,
      (inject_Z 1000
       + (inject_Z 4000 - inject_Z 1000) * (inject_Z 9 / inject_Z 14)
       + (inject_Z 4000 - inject_Z 1000) * (inject_Z 4 / inject_Z 14))%Q,
      "Bye!", None)].
Proof. reflexivity. Qed.

(** ** Cosine similarity *)

Section VectorFacts.
Variable num : Type.
Variable zero : num.
Variables add mul div : num -> num -> num.
Variable sqrt : num -> num.
Variable is_zero : num -> bool.

Let cosine := Embedding.cosineSimilarity zero add mul div sqrt is_zero.
Let step := Embedding.cosine_step add mul.

(** Exchanging the two vectors exchanges the two sums of squares and
    keeps the dot product, when multiplication commutes. *)
Lemma cosine_fold_swap :
  forall (a b : list num) (d ma mb : num),
    (forall x y, mul x y = mul y x) ->
    fold_left step (combine b a) (d, mb, ma)
    = (let '(d', ma', mb') := fold_left step (combine a b) (d, ma, mb) in
       (d', mb', ma')).
Proof.
  unfold step.
  induction a as [| x a IH]; intros b d ma mb Hc.
  - destruct b; reflexivity.
  - destruct b as [| y b]; [reflexivity|].
    cbn [combine fold_left Embedding.cosine_step].
    rewrite (Hc y x). apply IH. exact Hc.
Qed.

(** X7. [cosineSimilarity] is symmetric and throws exactly on a dimension
    mismatch. For two vectors of different lengths the call throws; for
    two vectors of the same length it returns, and it returns the same
    number with the arguments exchanged, whatever the arithmetic is as
    long as multiplication commutes (as it does for IEEE doubles). *)
Theorem cosineSimilarity_is_symmetric :
  forall (a b : list num),
    (forall x y, mul x y = mul y x) ->
    (length a <> length b ->
     cosine a b = Throw "Vectors must have the same dimension"
     /\ cosine b a = Throw "Vectors must have the same dimension")
    /\ (length a = length b ->
        exists c, cosine a b = Ok c /\ cosine b a = Ok c).
Proof.
  intros a b Hc. unfold cosine, Embedding.cosineSimilarity. fold step.
  split.
  - intro Hne. rewrite (Nat.eqb_sym (length b)).
    apply Nat.eqb_neq in Hne. rewrite Hne. split; reflexivity.
  - intro Heq.
    rewrite <- Heq, Nat.eqb_refl. cbn [negb].
    rewrite (cosine_fold_swap a b zero zero zero Hc).
    destruct (fold_left step (combine a b) (zero, zero, zero))
      as [[d ma] mb].
    rewrite (orb_comm (is_zero (sqrt mb))), (Hc (sqrt mb)).
    destruct (is_zero (sqrt ma) || is_zero (sqrt mb));
      eexists; split; reflexivity.
Qed.
End VectorFacts.

(** Witness of X7, with whole numbers for the numbers of the vectors:
    the vectors (3, 4) and (4, 3), and vectors of two lengths. *)
Lemma cosineSimilarity_is_symmetric_witness :
  let cosine :=
    Embedding.cosineSimilarity 0 Z.add Z.mul Z.div Z.sqrt (Z.eqb 0) in
  (cosine [3; 4; 0] [4] = Throw "Vectors must have the same dimension"
   /\ cosine [4] [3; 4; 0] = Throw "Vectors must have the same dimension")
  /\ (exists c, cosine [3; 4] [4; 3] = Ok c /\ cosine [4; 3] [3; 4] = Ok c).
Proof.
  cbv zeta.
  destruct (cosineSimilarity_is_symmetric Z 0 Z.add Z.mul Z.div Z.sqrt
              (Z.eqb 0) [3; 4; 0] [4] Z.mul_comm) as (H1 & _).
  destruct (cosineSimilarity_is_symmetric Z 0 Z.add Z.mul Z.div Z.sqrt
              (Z.eqb 0) [3; 4] [4; 3] Z.mul_comm) as (_ & H2).
  split; [apply H1; cbn; discriminate | apply H2; reflexivity].
Defined.

(** ** The two classifiers *)

